(** * ACD container tools: a shallow embedding and its properties

    The three C programs of the repository are embedded as Rocq functions:

    - [Extractor]  : [acd_extractor.c]  (preamble splitter, segment scanner,
                     per-offset decoder, payload preview and XML tag);
    - [Parser]     : [acd_parser.c]     ([read_text_header],
                     [find_compressed_blocks]);
    - [Comps]      : [comprehensive_acd_parser.c] ([read_string],
                     [read_uint32_le], [parse_comps_database], the marker
                     search of [main]);
    - [Structure]  : [acd_parser.c]     ([analyze_structure]);
    - [Database]   : [acd_extractor.c]  ([find_database_files]);
    - [Exporter]   : [comprehensive_acd_parser.c] ([generate_detailed_l5x]).

    A file or a loaded block is a [list byte]; offsets, sizes and counters are
    [Z], with the wrap-around of [size_t] arithmetic written out where the C
    code subtracts.  zlib is not part of the repository: [inflate] is a
    parameter of the decoder. *)

From Stdlib Require Import ZArith List Sorted Lia Bool Strings.Byte String
  DecimalString.
Import ListNotations.
Open Scope Z_scope.

(** * Bytes, buffers and C outcomes *)

Definition u8 (b : byte) : Z := Z.of_N (Byte.to_N b).

Definition bytes (s : string) : list byte := list_byte_of_string s.

Definition len {A : Type} (l : list A) : Z := Z.of_nat (List.length l).

Definition zeros (n : nat) : list byte := repeat x00 n.

(** [size_t] is 64 bits wide: [a - b] on [size_t] wraps around. *)
Definition SIZE_MAX1 : Z := 2 ^ 64.

Definition size_sub (a b : Z) : Z := (a - b) mod SIZE_MAX1.

Definition size_add (a b : Z) : Z := (a + b) mod SIZE_MAX1.

(** [fread(buf, 1, n, file)] at position [pos]: the bytes obtained. *)
Definition fread (file : list byte) (pos n : Z) : list byte :=
  firstn (Z.to_nat n) (skipn (Z.to_nat pos) file).

(** [data[off]] for a buffer of [length data] bytes; [None] past its end. *)
Definition byte_at (data : list byte) (off : Z) : option byte :=
  if off <? 0 then None else nth_error data (Z.to_nat off).

Definition bytes_eqb (a b : list byte) : bool :=
  if list_eq_dec Byte.byte_eq_dec a b then true else false.

(** What a run of a C function can be: a result, undefined behaviour (a read
    outside the bytes the program owns), or a loop that has not finished
    within the steps granted. *)
Inductive outcome (A : Type) : Type :=
| Ret (a : A)
| Undef
| Fuel.

Arguments Ret {A} a.
Arguments Undef {A}.
Arguments Fuel {A}.

Definition bind {A B : Type} (m : outcome A) (k : A -> outcome B) : outcome B :=
  match m with
  | Ret a => k a
  | Undef => Undef
  | Fuel => Fuel
  end.

Notation "x <- m ;; k" := (bind m (fun x => k))
  (at level 61, m at next level, right associativity).

Notation "' pat <- m ;; k" :=
  (bind m (fun x => match x with pat => k end))
  (at level 61, pat pattern, m at next level, right associativity).

Definition of_read {A : Type} (o : option A) : outcome A :=
  match o with
  | Some a => Ret a
  | None => Undef
  end.

(** A loop body either falls through to the next iteration or leaves the
    loop ([break], [goto done], [return]). *)
Inductive exit (A : Type) : Type :=
| Next (a : A)
| Leave (a : A).

Arguments Next {A} a.
Arguments Leave {A} a.

Definition CR : byte := x0d.
Definition LF : byte := x0a.
Definition TAB : byte := x09.
Definition NUL : byte := x00.

(** The two-byte signature [0x1F 0x8B]. *)
Definition MAGIC0 : byte := x1f.
Definition MAGIC1 : byte := x8b.

(** * The C library functions the programs use *)

(** [fgets] stores at most [n] characters and stops after a newline. *)
Fixpoint fgets_chars (n : nat) (bs : list byte) : list byte :=
  match n, bs with
  | O, _ => []
  | _, [] => []
  | S n', b :: bs' => if Byte.eqb b LF then [b] else b :: fgets_chars n' bs'
  end.

(** [fgets(line, size, file)] on the bytes not yet read: the characters
    stored before the terminating NUL, or [None] for the null pointer at end
    of file. *)
Definition fgets (size : Z) (rest : list byte) : option (list byte) :=
  match fgets_chars (Z.to_nat (size - 1)) rest with
  | [] => None
  | line => Some line
  end.

(** The C string held by an array: its characters before the first NUL. *)
Fixpoint c_str (l : list byte) : list byte :=
  match l with
  | [] => []
  | b :: l' => if Byte.eqb b NUL then [] else b :: c_str l'
  end.

Definition strlen (l : list byte) : Z := len (c_str l).

(** Conversion of a 64-bit unsigned value to [long]. *)
Definition to_long (z : Z) : Z := (z + 2 ^ 63) mod 2 ^ 64 - 2 ^ 63.

(** * acd_extractor.c *)

Module Extractor.

(** ** Payload preview and XML tag (inside [extract_gzip_block]) *)

(** [d[i] < 0x20 || d[i] > 0x7E], and not one of newline, carriage return,
    tab. *)
Definition nonprintable (b : byte) : bool :=
  ((u8 b <? 0x20) || (0x7E <? u8 b))
  && negb (Byte.eqb b LF) && negb (Byte.eqb b CR) && negb (Byte.eqb b TAB).

(** [for (i = 0; i < 50 && i < decomp_size; i++) ... printable = 0; break;] *)
Fixpoint printable_scan (n : nat) (d : list byte) : bool :=
  match n, d with
  | O, _ => true
  | _, [] => true
  | S n', b :: d' => if nonprintable b then false else printable_scan n' d'
  end.

Definition printable (payload : list byte) : bool := printable_scan 50 payload.

Inductive preview : Type := Text | Binary.

(** [if (printable && decomp_size > 0)] quoted preview [else] "[Binary data]". *)
Definition content_preview (payload : list byte) : preview :=
  if printable payload && (0 <? len payload) then Text else Binary.

(** [decomp_size > 5 && memcmp(decompressed, "<?xml", 5) == 0] *)
Definition xml_detected (payload : list byte) : bool :=
  (5 <? len payload) && bytes_eqb (firstn 5 payload) (bytes "<?xml").

(** ** The per-offset decoder [extract_gzip_block] *)

Definition Z_OK : Z := 0.
Definition Z_STREAM_END : Z := 1.
Definition Z_DATA_ERROR : Z := -3.

(** What [inflate(&strm, Z_FINISH)] leaves behind: its return code,
    [strm.total_in], and the bytes it wrote to [decompressed]
    ([strm.total_out] is their number). *)
Record z_stream : Type := {
  z_ret : Z;
  total_in : Z;
  z_out : list byte
}.

Inductive extension : Type := ext_bin | ext_xml.

(** ["extracted_blocks/block_%03d_offset_0x%lx.<ext>"] *)
Record filename : Type := {
  fn_block : Z;
  fn_offset : Z;
  fn_ext : extension
}.

(** The world outside the repository: zlib and the file system. *)
Record world : Type := {
  inflateInit2 : Z;
  inflate : list byte -> z_stream;
  fopen : filename -> bool
}.

(** What one call prints and writes. *)
Inductive event : Type :=
| Saved (f : filename) (content : list byte)
| Decompressed (block_num n_in n_out : Z)
| Preview (p : preview)
| XmlDetected
| DecompressionFailed (block_num code : Z).

(** The return value, the number of decompressed bytes ([0] on the paths that
    return before [inflate] runs) and the events of one call. *)
Record extract_result : Type := {
  ret : Z;
  decomp_size : Z;
  events : list event
}.

Definition early_return : extract_result :=
  {| ret := -1; decomp_size := 0; events := [] |}.

(** [header[0] == 0x1F && header[1] == 0x8B] *)
Definition gzip_magic (header : list byte) : bool :=
  match header with
  | b0 :: b1 :: _ => Byte.eqb b0 MAGIC0 && Byte.eqb b1 MAGIC1
  | _ => false
  end.

(** The content preview and the XML check that follow a saved block. *)
Definition analyse (w : world) (offset block_num : Z) (decompressed : list byte)
  : list event :=
  Preview (content_preview decompressed) ::
  (if xml_detected decompressed then
     XmlDetected ::
     (let f := {| fn_block := block_num; fn_offset := offset; fn_ext := ext_xml |} in
      if fopen w f then [Saved f decompressed] else [])
   else []).

Definition extract_gzip_block (w : world) (file : list byte)
  (offset block_num : Z) : extract_result :=
  let header := fread file offset 10 in
  if negb (len header =? 10) then early_return
  else if negb (gzip_magic header) then early_return
  else
    let compressed := fread file offset (1024 * 1024) in
    if negb (inflateInit2 w =? Z_OK) then early_return
    else
      let strm := inflate w compressed in
      let decompressed := z_out strm in
      let size := len decompressed in
      let evs :=
        if (z_ret strm =? Z_STREAM_END) || (z_ret strm =? Z_OK) then
          let f := {| fn_block := block_num; fn_offset := offset; fn_ext := ext_bin |} in
          if fopen w f then
            Saved f decompressed ::
            Decompressed block_num (total_in strm) size ::
            analyse w offset block_num decompressed
          else []
        else [DecompressionFailed block_num (z_ret strm)] in
      {| ret := if 0 <? size then 0 else -1; decomp_size := size; events := evs |}.

(** A segment artifact was written by the call. *)
Definition persisted (r : extract_result) : bool :=
  existsb (fun e => match e with Saved _ _ => true | _ => false end) (events r).

Definition reported_failed (r : extract_result) : bool :=
  existsb (fun e => match e with DecompressionFailed _ _ => true | _ => false end)
          (events r).

(** ** The preamble splitter (in [main]) *)

(** [(unsigned char)c < 0x20 && c != CR && c != LF && c != TAB] *)
Definition ctrl_byte (b : byte) : bool :=
  (u8 b <? 0x20)
  && negb (Byte.eqb b CR) && negb (Byte.eqb b LF) && negb (Byte.eqb b TAB).

(** [for (i = 0; line[i]; i++) if (ctrl) { is_binary = 1; break; }] *)
Definition is_binary (line : list byte) : bool := existsb ctrl_byte (c_str line).

(** The [while (fgets(...))] loop; [rest] are the bytes of the file from
    position [pos] on. *)
Fixpoint binary_start_loop (fuel : nat) (rest : list byte) (pos : Z) : outcome Z :=
  match fuel with
  | O => Fuel
  | S fuel' =>
      match fgets 1024 rest with
      | None => Ret 0
      | Some line =>
          let ftell := pos + len line in
          if is_binary line then Ret (ftell - strlen line)
          else binary_start_loop fuel' (skipn (List.length line) rest) ftell
      end
  end.

Definition find_binary_start (file : list byte) : outcome Z :=
  binary_start_loop (S (List.length file)) file 0.

(** ** The segment scanner (in [main]) *)

(** One call of the decoder made by the scanner. *)
Record call : Type := {
  call_offset : Z;
  call_block : Z;
  call_result : extract_result
}.

Record scan_state : Type := {
  block_count : Z;
  calls : list call
}.

(** [extract_gzip_block(file, offset + i, ++block_count);] *)
Definition hit (w : world) (file : list byte) (at_offset : Z) (st : scan_state)
  : scan_state :=
  let n := block_count st + 1 in
  {| block_count := n;
     calls := calls st ++
              [{| call_offset := at_offset; call_block := n;
                  call_result := extract_gzip_block w file at_offset n |}] |}.

(** [for (i = 0; i < bytes_read - 10; i++)]: [buf] holds the bytes of the
    window from index [i] on; an index past the bytes read has no value the
    program put there. *)
Fixpoint window_loop (w : world) (max_count : Z) (file : list byte) (offset : Z)
  (buf : list byte) (i bound : Z) (st : scan_state) : outcome (exit scan_state) :=
  match buf with
  | [] => if i <? bound then Undef else Ret (Next st)
  | b0 :: buf' =>
      if i <? bound then
        if Byte.eqb b0 MAGIC0 then
          match buf' with
          | [] => Undef
          | b1 :: _ =>
              if Byte.eqb b1 MAGIC1 then
                let st' := hit w file (offset + i) st in
                if max_count <=? block_count st' then Ret (Leave st')
                else window_loop w max_count file offset buf' (i + 1) bound st'
              else window_loop w max_count file offset buf' (i + 1) bound st
          end
        else window_loop w max_count file offset buf' (i + 1) bound st
      else Ret (Next st)
  end.

(** [while (offset < file_size - 10) { fseek; fread; for ...; offset += bytes_read - 10; }] *)
Fixpoint scan_loop (fuel : nat) (w : world) (max_count : Z) (file : list byte)
  (file_size offset : Z) (st : scan_state) : outcome scan_state :=
  match fuel with
  | O => Fuel
  | S fuel' =>
      if offset <? file_size - 10 then
        let buffer := fread file offset 4096 in
        let bytes_read := len buffer in
        r <- window_loop w max_count file offset buffer 0 (size_sub bytes_read 10) st ;;
        match r with
        | Leave st' => Ret st'
        | Next st' =>
            scan_loop fuel' w max_count file file_size
                      (to_long (offset + size_sub bytes_read 10)) st'
        end
      else Ret st
  end.

Definition scan_segments (w : world) (max_count : Z) (file : list byte)
  (binary_start : Z) : outcome scan_state :=
  scan_loop (S (List.length file)) w max_count file (len file) binary_start
            {| block_count := 0; calls := [] |}.

(** The bound of [main]: [if (block_count >= 20) goto done;] *)
Definition MAX_BLOCKS : Z := 20.

(** [main]: the binary start and the outcome of the scan. *)
Definition main (w : world) (file : list byte) : outcome (Z * scan_state) :=
  binary_start <- find_binary_start file ;;
  st <- scan_segments w MAX_BLOCKS file binary_start ;;
  Ret (binary_start, st).

End Extractor.

(** * acd_parser.c *)

Module Parser.

Definition BUFFER_SIZE : Z := 4096.

(** [(unsigned char)c < 0x20 && c != CR && c != LF && c != TAB] *)
Definition ctrl_byte (b : byte) : bool :=
  (u8 b <? 0x20)
  && negb (Byte.eqb b CR) && negb (Byte.eqb b LF) && negb (Byte.eqb b TAB).

(** [for (i = 0; buffer[i] && buffer[i] != LF; i++) if (ctrl) { is_text = 0; break; }]
    on the characters stored by [fgets]. *)
Fixpoint is_text (buffer : list byte) : bool :=
  match buffer with
  | [] => true
  | b :: buffer' =>
      if Byte.eqb b NUL || Byte.eqb b LF then true
      else if ctrl_byte b then false
      else is_text buffer'
  end.

Record header_info : Type := {
  binary_start : Z;
  header_lines : Z
}.

(** The [while (fgets(...))] loop of [read_text_header]; [rest] are the bytes
    from the file position [cur] on, [pos] is the local variable. *)
Fixpoint header_loop (fuel : nat) (rest : list byte) (cur pos lines : Z)
  : outcome header_info :=
  match fuel with
  | O => Fuel
  | S fuel' =>
      match fgets BUFFER_SIZE rest with
      | None => Ret {| binary_start := 0; header_lines := lines |}
      | Some buffer =>
          if negb (is_text buffer) then
            Ret {| binary_start := pos; header_lines := lines |}
          else
            let ftell := cur + len buffer in
            header_loop fuel' (skipn (List.length buffer) rest) ftell ftell (lines + 1)
      end
  end.

(** [acd.binary_start] is zero before the call ([ACD_File acd = {0}]). *)
Definition read_text_header (file : list byte) : outcome header_info :=
  header_loop (S (List.length file)) file 0 0 0.

(** A signature found by [find_compressed_blocks]: its offset, the
    compression method and the flags printed with it. *)
Record found : Type := {
  block_offset : Z;
  method : byte;
  flags : byte
}.

Record search_state : Type := {
  block_count : Z;
  blocks : list found
}.

(** [for (i = 0; i < bytes_read - 10; i++)] over the window; the trial
    [inflate] of the first 100 bytes only prints. *)
Fixpoint window_loop (offset : Z) (buf : list byte) (i bound : Z)
  (st : search_state) : outcome (exit search_state) :=
  match buf with
  | [] => if i <? bound then Undef else Ret (Next st)
  | b0 :: buf' =>
      if i <? bound then
        if Byte.eqb b0 MAGIC0 then
          match buf' with
          | [] => Undef
          | b1 :: rest =>
              if Byte.eqb b1 MAGIC1 then
                match rest with
                | m :: f :: _ =>
                    let st' :=
                      {| block_count := block_count st + 1;
                         blocks := blocks st ++
                                   [{| block_offset := offset + i;
                                       method := m; flags := f |}] |} in
                    if 10 <=? block_count st' then Ret (Leave st')
                    else window_loop offset buf' (i + 1) bound st'
                | _ => Undef
                end
              else window_loop offset buf' (i + 1) bound st
          end
        else window_loop offset buf' (i + 1) bound st
      else Ret (Next st)
  end.

(** [while (offset < acd->file_size - 2) { fseek; fread; for ...; offset += bytes_read - 10; }] *)
Fixpoint search_loop (fuel : nat) (file : list byte) (file_size offset : Z)
  (st : search_state) : outcome search_state :=
  match fuel with
  | O => Fuel
  | S fuel' =>
      if offset <? file_size - 2 then
        let buffer := fread file offset BUFFER_SIZE in
        let bytes_read := len buffer in
        r <- window_loop offset buffer 0 (size_sub bytes_read 10) st ;;
        match r with
        | Leave st' => Ret st'
        | Next st' =>
            search_loop fuel' file file_size
                        (to_long (offset + size_sub bytes_read 10)) st'
        end
      else Ret st
  end.

(** [find_compressed_blocks] run for [fuel] iterations of its [while] loop. *)
Definition find_compressed_blocks (fuel : nat) (file : list byte)
  (binary_start : Z) : outcome search_state :=
  search_loop fuel file (len file) binary_start {| block_count := 0; blocks := [] |}.

(** [main]: the header, then the search from the binary start it found
    ([analyze_structure] only prints). *)
Definition main (fuel : nat) (file : list byte) : outcome search_state :=
  h <- read_text_header file ;;
  find_compressed_blocks fuel file (binary_start h).

End Parser.

(** * comprehensive_acd_parser.c *)

Module Comps.

Definition MAX_COMPONENTS : Z := 10000.
Definition MAX_STRING_LEN : Z := 256.

Record Component : Type := {
  uid : Z;
  name : list byte;
  ioi : list byte;
  parent_uid : Z;
  ordinal : Z;
  type : list byte
}.

(** The global storage: the filled entries of [components];
    [component_count] is their number. *)
Definition storage : Type := list Component.

Definition component_count (st : storage) : Z := len st.

(** The [while] loop of [read_string], for at most [n] characters. *)
Fixpoint read_string_loop (n : nat) (data : list byte) (pos : Z)
  : outcome (list byte) :=
  match n with
  | O => Ret []
  | S n' =>
      b <- of_read (byte_at data pos) ;;
      if Byte.eqb b NUL then Ret []
      else s <- read_string_loop n' data (pos + 1) ;; Ret (b :: s)
  end.

(** [read_string(data, offset, max_len)]: the string left in the static
    buffer. *)
Definition read_string (data : list byte) (offset max_len : Z)
  : outcome (list byte) :=
  read_string_loop (Z.to_nat (Z.min (MAX_STRING_LEN - 1) max_len)) data offset.

Definition read_uint32_le (data : list byte) (offset : Z) : outcome Z :=
  b0 <- of_read (byte_at data offset) ;;
  b1 <- of_read (byte_at data (offset + 1)) ;;
  b2 <- of_read (byte_at data (offset + 2)) ;;
  b3 <- of_read (byte_at data (offset + 3)) ;;
  Ret (Z.lor (Z.lor (Z.lor (u8 b0) (Z.shiftl (u8 b1) 8)) (Z.shiftl (u8 b2) 16))
             (Z.shiftl (u8 b3) 24) mod 2 ^ 32).

(** [while (offset < data_size && field_count < 20)]; [n] is
    [20 - field_count]. *)
Fixpoint fields_loop (n : nat) (data : list byte) (data_size offset : Z)
  (fields : list (list byte)) : outcome (Z * list (list byte)) :=
  match n with
  | O => Ret (offset, fields)
  | S n' =>
      if offset <? data_size then
        field <- read_string data offset 50 ;;
        if len field =? 0 then Ret (offset, fields)
        else fields_loop n' data data_size (size_add offset (len field + 1))
                         (fields ++ [field])
      else Ret (offset, fields)
  end.

(** [for (i = offset; i < data_size - 10; i++)] looking for [".dat"] and
    [".idx"]; [at_i] is [data + i]: the bytes of the buffer from [i] on. *)
Fixpoint markers_loop (at_i : list byte) (i bound dat_offset idx_offset : Z)
  : outcome (Z * Z) :=
  if i <? bound then
    match at_i with
    | [] => Undef
    | _ :: next =>
        if len at_i <? 4 then Undef
        else
          let dat_offset' :=
            if bytes_eqb (firstn 4 at_i) (bytes ".dat") then size_add i 8
            else dat_offset in
          if bytes_eqb (firstn 4 at_i) (bytes ".idx") then Ret (dat_offset', size_add i 8)
          else markers_loop next (i + 1) bound dat_offset' idx_offset
    end
  else Ret (dat_offset, idx_offset).

(** [for (j = name_offset; j < current + record_size && j < data_size - 50; j++)]:
    the position and the string of the first acceptable name. *)
Fixpoint name_loop (n : nat) (data : list byte) (data_size limit j : Z)
  : outcome (option (Z * list byte)) :=
  if (j <? limit) && (j <? size_sub data_size 50) then
    match n with
    | O => Fuel
    | S n' =>
        c <- of_read (byte_at data j) ;;
        if (u8 "A"%byte <=? u8 c) && (u8 c <=? u8 "z"%byte) then
          potential_name <- read_string data j 50 ;;
          if (3 <? len potential_name) && (len potential_name <? 40)
          then Ret (Some (j, potential_name))
          else name_loop n' data data_size limit (j + 1)
        else name_loop n' data data_size limit (j + 1)
    end
  else Ret None.

Definition record_size : Z := 100.

(** [Component comp = {0}; comp.uid = potential_uid; strcpy(comp.name, ...)] *)
Definition new_component (potential_uid : Z) (potential_name : list byte)
  : Component :=
  {| uid := potential_uid; name := potential_name; ioi := [];
     parent_uid := 0; ordinal := 0; type := [] |}.

(** [while (current < data_size - record_size && component_count < MAX_COMPONENTS)] *)
Fixpoint records_loop (fuel : nat) (data : list byte) (data_size current : Z)
  (st : storage) : outcome storage :=
  if (current <? size_sub data_size record_size)
     && (component_count st <? MAX_COMPONENTS) then
    match fuel with
    | O => Fuel
    | S fuel' =>
        potential_uid <- read_uint32_le data current ;;
        r <- (if (0 <? potential_uid) && (potential_uid <? 0x10000) then
                name_loop 100 data data_size (size_add current record_size)
                          (size_add current 4)
              else Ret None) ;;
        let '(current', st') :=
          match r with
          | Some (j, potential_name) =>
              (size_add (size_add j (len potential_name)) 20,
               st ++ [new_component potential_uid potential_name])
          | None => (current, st)
          end in
        let current'' := size_add current' 4 in
        if 50 <=? component_count st' then Ret st'
        else records_loop fuel' data data_size current'' st'
    end
  else Ret st.

(** [parse_comps_database(data, data_size, start_offset)] on the global
    storage [st]: the storage it leaves; it returns [component_count]. *)
Definition parse_comps_database (data : list byte) (data_size start_offset : Z)
  (st : storage) : outcome storage :=
  let offset := size_add start_offset 6 in
  '(offset, fields) <- fields_loop 20 data data_size offset [] ;;
  '(dat_offset, idx_offset) <-
     markers_loop (skipn (Z.to_nat offset) data) offset (size_sub data_size 10) 0 0 ;;
  if 0 <? dat_offset then
    records_loop (S (List.length data)) data data_size dat_offset st
  else Ret st.

(** [for (i = 0; i < file_size - 5; i++) if (memcmp(data + i, "Comps", 5) == 0) ...]
    of [main]: the value of [comps_offset] after the loop. *)
Fixpoint find_comps (at_i : list byte) (i bound : Z) : outcome Z :=
  if i <? bound then
    match at_i with
    | [] => Undef
    | _ :: next =>
        if len at_i <? 5 then Undef
        else if bytes_eqb (firstn 5 at_i) (bytes "Comps") then Ret i
        else find_comps next (i + 1) bound
    end
  else Ret 0.

(** Component recovery as [main] runs it on a loaded block, from the global
    storage [st]. *)
Definition recover (data : list byte) (st : storage) : outcome storage :=
  let file_size := len data in
  comps_offset <- find_comps data 0 (size_sub file_size 5) ;;
  if 0 <? comps_offset then parse_comps_database data file_size comps_offset st
  else Ret st.

(** A fresh process: [component_count = 0]. *)
Definition recover_components (payload : list byte) : outcome storage :=
  recover payload [].

End Comps.

(** * Vocabulary of the properties and concrete inputs *)

Module Vectors.

(** Fifty printable bytes followed by a NUL. *)
Definition late_nul_payload : list byte := repeat "A"%byte 50 ++ [NUL].

(** A payload with a NUL among its first fifty bytes. *)
Definition early_nul_payload : list byte := bytes "abc" ++ [NUL] ++ bytes "def".

(** The five bytes of the XML declaration opener, and a longer document. *)
Definition xml5 : list byte := bytes "<?xml".

Definition xml_doc : list byte := bytes "<?xml version='1.0'?><a/>".

(** A stream with the gzip signature and nothing decodable behind it. *)
Definition bad_stream : list byte := [MAGIC0; MAGIC1] ++ zeros 8.

(** zlib failing with a data error after three bytes of output. *)
Definition partial_world : Extractor.world :=
  {| Extractor.inflateInit2 := Extractor.Z_OK;
     Extractor.inflate := fun _ =>
       {| Extractor.z_ret := Extractor.Z_DATA_ERROR;
          Extractor.total_in := 10;
          Extractor.z_out := bytes "abc" |};
     Extractor.fopen := fun _ => true |}.

(** zlib decoding every stream to the same three bytes. *)
Definition good_world : Extractor.world :=
  {| Extractor.inflateInit2 := Extractor.Z_OK;
     Extractor.inflate := fun _ =>
       {| Extractor.z_ret := Extractor.Z_STREAM_END;
          Extractor.total_in := 10;
          Extractor.z_out := bytes "abc" |};
     Extractor.fopen := fun _ => true |}.

(** zlib rejecting every stream with a data error and no output, as it does
    for a stream whose method byte is not 8. *)
Definition reject_world : Extractor.world :=
  {| Extractor.inflateInit2 := Extractor.Z_OK;
     Extractor.inflate := fun _ =>
       {| Extractor.z_ret := Extractor.Z_DATA_ERROR;
          Extractor.total_in := 0;
          Extractor.z_out := [] |};
     Extractor.fopen := fun _ => true |}.

(** Twelve bytes with the signature at offset 5, inside the last ten. *)
Definition tail_magic_file : list byte := zeros 5 ++ [MAGIC0; MAGIC1] ++ zeros 5.

(** The signature at offsets 0 and 5, followed by twenty zero bytes. *)
Definition two_magic_file : list byte :=
  [MAGIC0; MAGIC1] ++ zeros 3 ++ [MAGIC0; MAGIC1] ++ zeros 20.

(** Twenty-one signatures at offsets 0, 2, ..., 40, none followed by a
    deflate stream, and eleven zero bytes. *)
Definition many_magic_file : list byte :=
  List.concat (repeat [MAGIC0; MAGIC1] 21) ++ zeros 11.

(** The same twenty-one signatures followed by eleven bytes 0x01: the file
    holds no NUL and no line feed, so the splitter of [main] reads it as one
    line and reports binary start 0. *)
Definition many_magic_run_file : list byte :=
  List.concat (repeat [MAGIC0; MAGIC1] 21) ++ repeat x01 11.

End Vectors.

(** ** Vocabulary of the scanner properties *)

Module Scan.

(** The signature [0x1F 0x8B] sits at offset [o] of the file. *)
Definition magic_at (file : list byte) (o : Z) : bool :=
  match byte_at file o, byte_at file (o + 1) with
  | Some b0, Some b1 => Byte.eqb b0 MAGIC0 && Byte.eqb b1 MAGIC1
  | _, _ => false
  end.

(** The offsets [o <= x < o + n] carrying the signature, in increasing order;
    [at_o] are the bytes of the file from offset [o] on. *)
Fixpoint hits_from (at_o : list byte) (o : Z) (n : nat) : list Z :=
  match n, at_o with
  | S n', _ :: next =>
      (if Extractor.gzip_magic at_o then [o] else []) ++ hits_from next (o + 1) n'
  | _, _ => []
  end.

(** The signature offsets of the file in [lo <= x < hi]. *)
Definition candidates (file : list byte) (lo hi : Z) : list Z :=
  hits_from (skipn (Z.to_nat lo) file) lo (Z.to_nat (hi - lo)).

(** The offsets the scanner handed to the decoder, in call order. *)
Definition offsets_of (st : Extractor.scan_state) : list Z :=
  map Extractor.call_offset (Extractor.calls st).

(** The calls whose return value reports success. *)
Definition successes (st : Extractor.scan_state) : list Extractor.call :=
  filter (fun c => Extractor.ret (Extractor.call_result c) =? 0) (Extractor.calls st).

(** The scanner state after the decoder was called at each offset of [hs]. *)
Definition after_hits (w : Extractor.world) (file : list byte)
  (st : Extractor.scan_state) (hs : list Z) : Extractor.scan_state :=
  fold_left (fun s o => Extractor.hit w file o s) hs st.

End Scan.

(** ** Vocabulary of the preamble properties *)

Module Preamble.

(** A byte of a text line: at least 0x20, or carriage return, line feed, tab. *)
Definition text_byte (b : byte) : Prop :=
  0x20 <= u8 b \/ b = CR \/ b = LF \/ b = TAB.

(** A byte below 0x20 other than carriage return, line feed, tab. *)
Definition control_byte (b : byte) : Prop :=
  u8 b < 0x20 /\ b <> CR /\ b <> LF /\ b <> TAB.

(** A complete line of text: text bytes up to its line feed. *)
Definition text_line (l : list byte) : Prop :=
  exists body, l = body ++ [LF] /\ Forall text_byte body /\ Forall (fun b => b <> LF) body.

(** The end of a line: its line feed and what follows, or the end of the
    file. *)
Definition line_end (tail : list byte) : Prop :=
  tail = [] \/ exists t, tail = LF :: t.

(** One text line, then a line holding a NUL. *)
Definition nul_line_file : list byte := bytes "a" ++ [LF; NUL; LF].

(** One text line, then a line with the byte 0x01 followed by a NUL. *)
Definition nul_behind_file : list byte :=
  bytes "ab" ++ [LF] ++ [x01; NUL] ++ bytes "xyz" ++ [LF].

(** A first line of 1023 printable bytes followed by the byte 0x01. *)
Definition long_line_file : list byte := repeat "A"%byte 1023 ++ [x01; LF].

(** Two text lines, then a line with the byte 0x01. *)
Definition two_text_lines : list (list byte) := [bytes "ab" ++ [LF]; bytes "cd" ++ [CR; LF]].

Definition binary_body : list byte := bytes "e" ++ [x01] ++ bytes "f".

Definition binary_tail : list byte := LF :: bytes "rest".

End Preamble.

(** ** Vocabulary of the component recovery properties *)

Module Recovery.

(** The acceptance bounds of a recovered component. *)
Definition plausible (c : Comps.Component) : Prop :=
  0 < Comps.uid c < 65536 /\ 3 < len (Comps.name c) < 40.

(** One iteration of the record loop at [current], apart from the storage:
    the next value of [current] and the component it appends, if any. *)
Definition iteration (data : list byte) (data_size current : Z)
  : outcome (Z * list Comps.Component) :=
  potential_uid <- Comps.read_uint32_le data current ;;
  r <- (if (0 <? potential_uid) && (potential_uid <? 0x10000) then
          Comps.name_loop 100 data data_size (size_add current Comps.record_size)
                          (size_add current 4)
        else Ret None) ;;
  Ret (match r with
       | Some (j, potential_name) =>
           (size_add (size_add (size_add j (len potential_name)) 20) 4,
            [Comps.new_component potential_uid potential_name])
       | None => (size_add current 4, [])
       end).

(** The marker, the field names and the empty string that ends them. *)
Definition field_table : list byte :=
  bytes "Comps" ++ [NUL] ++ bytes "Id" ++ [NUL] ++ bytes "Name" ++ [NUL] ++ [NUL].

(** The data marker with its pad, the identifier 5 and the name. *)
Definition data_section : list byte :=
  bytes ".dat" ++ zeros 4 ++ [x05; x00; x00; x00] ++ bytes "XValve" ++ [NUL].

(** The example of the specification, with the marker at offset 0. *)
Definition example_payload (pad : list byte) : list byte :=
  field_table ++ pad ++ data_section.

(** The same bytes behind one leading byte and followed by [n] zero bytes. *)
Definition roomy_payload (lead : byte) (pad : list byte) (n : nat) : list byte :=
  lead :: example_payload pad ++ zeros n.

Definition xvalve : Comps.Component := Comps.new_component 5 (bytes "XValve").

End Recovery.

(** * Local arrays and the scans for literals *)

(** [memcmp(mem, lit, n) == 0] on a local array: the result is fixed by the
    bytes up to the first difference; a byte the program never wrote
    ([None]) has no definite value, and the array ends where the list
    ends. *)
Fixpoint memcmp_eq (mem : list (option byte)) (lit : list byte) {struct lit}
  : outcome bool :=
  match lit with
  | [] => Ret true
  | c :: lit' =>
      match mem with
      | Some b :: mem' => if Byte.eqb b c then memcmp_eq mem' lit' else Ret false
      | _ => Undef
      end
  end.

(** The array after [fread] stored [chunk] at its start: the bytes behind
    the chunk keep what they held. *)
Definition stored (chunk : list byte) (buffer : list (option byte))
  : list (option byte) :=
  map Some chunk ++ skipn (List.length chunk) buffer.

Section Literals.

Context {K : Type}.

(** The [if (memcmp(...) == 0) printf(...)] statements of one loop
    iteration, in source order: the kinds printed for [at_offset]. *)
Fixpoint check_literals (patterns : list (K * list byte))
  (mem : list (option byte)) (at_offset : Z) : outcome (list (K * Z)) :=
  match patterns with
  | [] => Ret []
  | (k, lit) :: patterns' =>
      c <- memcmp_eq mem lit ;;
      r <- check_literals patterns' mem at_offset ;;
      Ret ((if c then [(k, at_offset)] else []) ++ r)
  end.

(** [for (int i = 0; i < n; i++)]: [mem] is [buffer + i], [base + i] the
    offset printed. *)
Fixpoint scan_literals (patterns : list (K * list byte))
  (mem : list (option byte)) (base i : Z) (n : nat) : outcome (list (K * Z)) :=
  match n with
  | O => Ret []
  | S n' =>
      here <- check_literals patterns mem (base + i) ;;
      rest <- scan_literals patterns (tl mem) base (i + 1) n' ;;
      Ret (here ++ rest)
  end.

End Literals.

(** * acd_parser.c: analyze_structure *)

Module Structure.

Inductive signature : Type := Comps_db | Controller_db | Xml_doc.

Definition patterns : list (signature * list byte) :=
  [(Comps_db, bytes "Comps"); (Controller_db, bytes "Controller");
   (Xml_doc, bytes "<?xml")].

(** [analyze_structure]: one [fread] of [sizeof(buffer)] = 4096 bytes at
    [binary_start] into a fresh local array, then the positions
    [0 <= i < sizeof(buffer) - 16]; the result lists what is printed, the
    signature with its offset. *)
Definition analyze_structure (file : list byte) (binary_start : Z)
  : outcome (list (signature * Z)) :=
  let buffer := stored (fread file binary_start 4096) (repeat None (Z.to_nat 4096)) in
  scan_literals patterns buffer binary_start 0 (Z.to_nat (4096 - 16)).

(** [main] of acd_parser.c to its end: the header, the search, then
    [analyze_structure]. *)
Definition run (fuel : nat) (file : list byte)
  : outcome (Parser.header_info * Parser.search_state * list (signature * Z)) :=
  h <- Parser.read_text_header file ;;
  st <- Parser.find_compressed_blocks fuel file (Parser.binary_start h) ;;
  found <- analyze_structure file (Parser.binary_start h) ;;
  Ret (h, st, found).

End Structure.

(** * acd_extractor.c: find_database_files *)

Module Database.

Inductive structure : Type := Controller | Program | Routine | DataType.

(** ["Controller"] is looked for behind its length prefix:
    [buffer[i] == 0x0A && buffer[i+1] == 0x00 && memcmp(buffer + i + 2, "Controller", 10) == 0],
    twelve bytes compared in order. *)
Definition patterns : list (structure * list byte) :=
  [(Controller, [x0a; x00] ++ bytes "Controller"); (Program, bytes "Program");
   (Routine, bytes "Routine"); (DataType, bytes "DataType")].

(** [while (fread(buffer, 1, sizeof(buffer), file) > 0)]: [pos] is the
    position of the file, [buffer] what the array holds, [offset] the
    variable of that name; the array is not cleared between two reads. *)
Fixpoint windows_loop (fuel : nat) (file : list byte) (pos : Z)
  (buffer : list (option byte)) (start_offset offset : Z)
  (printed : list (structure * Z)) : outcome (list (structure * Z)) :=
  match fuel with
  | O => Fuel
  | S fuel' =>
      let chunk := fread file pos 8192 in
      if 0 <? len chunk then
        let buffer' := stored chunk buffer in
        here <- scan_literals patterns buffer' offset 0 (Z.to_nat (8192 - 100)) ;;
        let offset' := offset + 8192 in
        if 100000 <? offset' - start_offset then Ret (printed ++ here)
        else windows_loop fuel' file (pos + len chunk) buffer'
                          start_offset offset' (printed ++ here)
      else Ret printed
  end.

(** [find_database_files(file, start_offset)]: what it prints, in order. *)
Definition find_database_files (file : list byte) (start_offset : Z)
  : outcome (list (structure * Z)) :=
  windows_loop (S (List.length file)) file start_offset
               (repeat None (Z.to_nat 8192)) start_offset start_offset [].

(** [main] of acd_extractor.c to its end: behind the scan it calls
    [find_database_files(file, binary_start)]. *)
Definition run (w : Extractor.world) (file : list byte)
  : outcome (Z * Extractor.scan_state * list (structure * Z)) :=
  ' (binary_start, st) <- Extractor.main w file ;;
  printed <- find_database_files file binary_start ;;
  Ret (binary_start, st, printed).

End Database.

(** * comprehensive_acd_parser.c: generate_detailed_l5x *)

Module Exporter.

(** The text of a format string; a backquote stands for the double quote
    of the source. *)
Definition text (s : string) : list byte :=
  map (fun b => if Byte.eqb b "`"%byte then x22 else b) (bytes s).

(** A format string that ends with a newline. *)
Definition line (s : string) : list byte := text s ++ [LF].

(** [%d] of an [int] that is not negative, [%u] of a [uint32_t]. *)
Definition decimal (n : Z) : list byte :=
  bytes (NilEmpty.string_of_uint (N.to_uint (Z.to_N n))).

(** [fprintf(f, "    <!-- Component %d: UID=%u Name='%s' -->\n",
             i+1, components[i].uid, components[i].name);] *)
Definition component_comment (i : Z) (c : Comps.Component) : list byte :=
  text "    <!-- Component " ++ decimal (i + 1) ++ text ": UID="
    ++ decimal (Comps.uid c) ++ text " Name='" ++ c_str (Comps.name c)
    ++ line "' -->".

(** [for (int i = 0; i < component_count && i < 20; i++)]: [at_i] are the
    stored components from index [i] on. *)
Fixpoint comments_loop (at_i : list Comps.Component) (i : Z) : list byte :=
  match at_i with
  | [] => []
  | c :: next =>
      if i <? 20 then component_comment i c ++ comments_loop next (i + 1) else []
  end.

(** The four [fprintf] calls of one rung. *)
Definition rung (i : Z) (c : Comps.Component) : list byte :=
  text "              <Rung Number=`" ++ decimal i ++ line "` Type=`N`>"
    ++ text "                <Comment>Component: " ++ c_str (Comps.name c)
    ++ text " (UID: " ++ decimal (Comps.uid c) ++ line ")</Comment>"
    ++ line "                <Text>NOP();</Text>"
    ++ line "              </Rung>".

(** [for (int i = 0; i < component_count && i < 5; i++)] *)
Fixpoint rungs_loop (at_i : list Comps.Component) (i : Z) : list byte :=
  match at_i with
  | [] => []
  | c :: next => if i <? 5 then rung i c ++ rungs_loop next (i + 1) else []
  end.

(** [generate_detailed_l5x]: the bytes written to the output file; nothing
    is written when [fopen] fails. *)
Definition generate_detailed_l5x (fopen_ok : bool) (st : Comps.storage)
  : option (list byte) :=
  if negb fopen_ok then None
  else Some (
    line "<?xml version=`1.0` encoding=`UTF-8` standalone=`yes`?>"
    ++ text "<RSLogix5000Content SchemaRevision=`1.0` SoftwareRevision=`34.01` "
    ++ text "TargetName=`PLC100_Mashing` TargetType=`Controller` "
    ++ text "ContainsContext=`true` Owner=`ACD Parser` "
    ++ line "ExportDate=`Mon Jan 01 2025 00:00:00`>"
    ++ text "  <Controller Use=`Target` Name=`PLC100_Mashing` "
    ++ line "ProcessorType=`1756-L85E` MajorRev=`34` MinorRev=`01`>"
    ++ line "    <!-- Extracted Components from ACD -->"
    ++ comments_loop st 0
    ++ line "    <Programs>"
    ++ line "      <Program Name=`MainProgram`>"
    ++ line "        <Routines>"
    ++ line "          <Routine Name=`MainRoutine` Type=`RLL`>"
    ++ line "            <RLLContent>"
    ++ rungs_loop st 0
    ++ line "            </RLLContent>"
    ++ line "          </Routine>"
    ++ line "        </Routines>"
    ++ line "      </Program>"
    ++ line "    </Programs>"
    ++ line "  </Controller>"
    ++ line "</RSLogix5000Content>").

End Exporter.

(** * More vocabulary *)

(** [lit] sits in [data] at index [k]. *)
Definition occurs_at (lit data : list byte) (k : nat) : Prop :=
  firstn (List.length lit) (skipn k data) = lit.

(** Where [find_database_files] looks: the first thirteen windows of 8192
    bytes behind [start], without the last 100 bytes of each. *)
Definition in_scanned_part (start : Z) (p : Database.structure * Z) : Prop :=
  start <= snd p < start + 106496 /\ (snd p - start) mod 8192 < 8092.

(** A component that the payload backs: its identifier is the little-endian
    word at some offset [current], its name the string at an offset [j] of
    the following 96 bytes that starts with a byte between ['A'] and ['z'],
    and its other fields are the ones [new_component] sets. *)
Definition backed_by (data : list byte) (c : Comps.Component) : Prop :=
  exists current j first,
    Comps.read_uint32_le data current = Ret (Comps.uid c) /\
    current + 4 <= j < current + 100 /\
    byte_at data j = Some first /\ u8 "A"%byte <= u8 first <= u8 "z"%byte /\
    Comps.read_string data j 50 = Ret (Comps.name c) /\
    c = Comps.new_component (Comps.uid c) (Comps.name c).

Module Blocks.

(** The block [find_compressed_blocks] records for a signature at offset
    [o]; [at_o] are the bytes of the file from [o] on. *)
Definition found_at (at_o : list byte) (o : Z) : Parser.found :=
  {| Parser.block_offset := o;
     Parser.method := nth 2 at_o x00;
     Parser.flags := nth 3 at_o x00 |}.

(** The blocks of the signatures at offsets [o <= x < o + n], in increasing
    order. *)
Fixpoint finds_from (at_o : list byte) (o : Z) (n : nat) : list Parser.found :=
  match n, at_o with
  | S n', _ :: next =>
      (if Extractor.gzip_magic at_o then [found_at at_o o] else [])
      ++ finds_from next (o + 1) n'
  | _, _ => []
  end.

Definition signatures (file : list byte) (lo hi : Z) : list Parser.found :=
  finds_from (skipn (Z.to_nat lo) file) lo (Z.to_nat (hi - lo)).

(** The search state after the blocks [fs] were recorded. *)
Definition after_finds (st : Parser.search_state) (fs : list Parser.found)
  : Parser.search_state :=
  {| Parser.block_count := Parser.block_count st + len fs;
     Parser.blocks := Parser.blocks st ++ fs |}.

End Blocks.

Module Samples.

Definition filler (n : Z) : list byte := zeros (Z.to_nat n).

(** A region of 4105 bytes with ["Comps"] at offset 100. *)
Definition structure_region : list byte :=
  filler 100 ++ bytes "Comps" ++ filler 4000.

(** One whole window of 8192 bytes with ["Program"] at offset 100. *)
Definition one_window : list byte :=
  filler 100 ++ bytes "Program" ++ filler 8085.

(** The same window followed by fifty more bytes. *)
Definition short_tail : list byte := one_window ++ filler 50.

(** A payload with the ["Comps"] marker and no [".dat"] marker. *)
Definition no_data_payload : list byte :=
  x00 :: Recovery.field_table ++ filler 300.

(** Twenty-one stored components. *)
Definition full_storage : Comps.storage :=
  repeat Recovery.xvalve 20 ++ [Comps.new_component 7 (bytes "Pump")].

End Samples.

(** * Properties *)

(** ** Generic facts *)

Lemma len_nonneg {A : Type} (l : list A) : 0 <= len l.
Proof. unfold len. lia. Qed.

Lemma len_app {A : Type} (l1 l2 : list A) : len (l1 ++ l2) = len l1 + len l2.
Proof. unfold len. rewrite length_app. lia. Qed.

Lemma len_cons {A : Type} (a : A) (l : list A) : len (a :: l) = 1 + len l.
Proof. unfold len. simpl List.length. lia. Qed.

Lemma len_nil {A : Type} : len (@nil A) = 0.
Proof. reflexivity. Qed.

Lemma bytes_eqb_eq (a b : list byte) : bytes_eqb a b = true <-> a = b.
Proof.
  unfold bytes_eqb. destruct (list_eq_dec byte_eq_dec a b); split; congruence.
Qed.

Lemma byte_eqb_eq (a b : byte) : Byte.eqb a b = true <-> a = b.
Proof.
  split; [apply byte_dec_bl | apply byte_dec_lb].
Qed.

Lemma Forall_firstn_keeps {A : Type} (P : A -> Prop) (n : nat) :
  forall l : list A, Forall P l -> Forall P (firstn n l).
Proof.
  induction n as [|n IH]; intros l H; [constructor|].
  destruct H; cbn [firstn]; constructor; auto.
Qed.

Lemma Forall_skipn_keeps {A : Type} (P : A -> Prop) (n : nat) :
  forall l : list A, Forall P l -> Forall P (skipn n l).
Proof.
  induction n as [|n IH]; intros l H; [exact H|].
  destruct H; cbn [skipn]; [constructor | auto].
Qed.

(** ** Payload preview *)

Lemma printable_scan_nonprintable (n : nat) :
  forall (d : list byte) (i : nat) (b : byte),
    (i < n)%nat -> nth_error d i = Some b -> Extractor.nonprintable b = true ->
    Extractor.printable_scan n d = false.
Proof.
  induction n as [|n IH]; intros d i b Hi Hnth Hb; [lia|].
  destruct d as [|c d]; [destruct i; discriminate|].
  simpl. destruct i as [|i]; simpl in Hnth.
  - injection Hnth as ->. now rewrite Hb.
  - destruct (Extractor.nonprintable c); [reflexivity|].
    apply (IH d i b); [lia | assumption | assumption].
Qed.

(** C5, as the code has it: a payload with the byte 0x00 among its first 50
    bytes is previewed as Binary. *)
Theorem C5_nul_in_first_50_is_binary (payload : list byte) (i : nat) :
  (i < 50)%nat -> nth_error payload i = Some NUL ->
  Extractor.content_preview payload = Extractor.Binary.
Proof.
  intros Hi Hnth. unfold Extractor.content_preview, Extractor.printable.
  rewrite (printable_scan_nonprintable 50 payload i NUL Hi Hnth); reflexivity.
Qed.

Lemma C5_nul_in_first_50_is_binary_witness :
  Extractor.content_preview Vectors.early_nul_payload = Extractor.Binary.
Proof.
  apply (C5_nul_in_first_50_is_binary Vectors.early_nul_payload 3).
  - lia.
  - reflexivity.
Defined.

(** C5 as stated fails: a payload whose only 0x00 sits at index 50 is
    previewed as Text. *)
Lemma C5_late_nul_is_text :
  In NUL Vectors.late_nul_payload /\
  Extractor.content_preview Vectors.late_nul_payload = Extractor.Text.
Proof.
  split.
  - unfold Vectors.late_nul_payload. apply in_or_app. right. now left.
  - vm_compute. reflexivity.
Qed.

Lemma printable_scan_firstn (n : nat) :
  forall d : list byte,
    Extractor.printable_scan n (firstn n d) = Extractor.printable_scan n d.
Proof.
  induction n as [|n IH]; intros d; [reflexivity|].
  destruct d as [|b d]; [reflexivity|].
  cbn [firstn Extractor.printable_scan]. now rewrite IH.
Qed.

(** The preview looks at the first 50 bytes only. *)
Lemma content_preview_first_50 (payload : list byte) :
  Extractor.content_preview (firstn 50 payload) = Extractor.content_preview payload.
Proof.
  unfold Extractor.content_preview, Extractor.printable.
  rewrite printable_scan_firstn.
  destruct payload as [|b payload]; reflexivity.
Qed.

(** ** XML tag *)

Lemma xml_detected_iff (payload : list byte) :
  Extractor.xml_detected payload = true <->
  5 < len payload /\ firstn 5 payload = bytes "<?xml".
Proof.
  unfold Extractor.xml_detected.
  rewrite andb_true_iff, Z.ltb_lt, bytes_eqb_eq. reflexivity.
Qed.

(** C6, as the code has it: a payload of more than 5 bytes whose first 5
    bytes are "<?xml" is tagged as XML. *)
Theorem C6_xml_tag_needs_six_bytes (payload : list byte) :
  5 < len payload -> firstn 5 payload = bytes "<?xml" ->
  Extractor.xml_detected payload = true.
Proof.
  intros Hlen Hpre. apply xml_detected_iff. split; assumption.
Qed.

Lemma C6_xml_tag_needs_six_bytes_witness :
  Extractor.xml_detected Vectors.xml_doc = true.
Proof.
  apply (C6_xml_tag_needs_six_bytes Vectors.xml_doc).
  - reflexivity.
  - reflexivity.
Defined.

(** C6 as stated fails: the 5-byte payload "<?xml" has length 5, starts with
    "<?xml", and is not tagged. *)
Lemma C6_five_byte_xml_not_tagged :
  5 <= len Vectors.xml5 /\ firstn 5 Vectors.xml5 = bytes "<?xml" /\
  Extractor.xml_detected Vectors.xml5 = false.
Proof.
  split; [vm_compute; discriminate | split; reflexivity].
Qed.

(** ** The per-offset decoder *)

Lemma extract_ret_cases (w : Extractor.world) (file : list byte) (offset block_num : Z) :
  let r := Extractor.extract_gzip_block w file offset block_num in
  (Extractor.ret r = 0 /\ 0 < Extractor.decomp_size r) \/
  (Extractor.ret r = -1 /\ Extractor.decomp_size r = 0).
Proof.
  unfold Extractor.extract_gzip_block.
  destruct (negb (len (fread file offset 10) =? 10)); [right; split; reflexivity|].
  destruct (negb (Extractor.gzip_magic (fread file offset 10)));
    [right; split; reflexivity|].
  destruct (negb (Extractor.inflateInit2 w =? Extractor.Z_OK));
    [right; split; reflexivity|].
  cbv zeta. cbn [Extractor.ret Extractor.decomp_size].
  destruct (0 <? len _) eqn:E.
  - left. apply Z.ltb_lt in E. split; [reflexivity | assumption].
  - right. apply Z.ltb_ge in E. split; [reflexivity|].
    pose proof (len_nonneg (Extractor.z_out (Extractor.inflate w (fread file offset (1024 * 1024))))).
    lia.
Qed.

Lemma extract_after_checks (w : Extractor.world) (file : list byte)
  (offset block_num : Z) :
  len (fread file offset 10) = 10 ->
  Extractor.gzip_magic (fread file offset 10) = true ->
  Extractor.inflateInit2 w = Extractor.Z_OK ->
  Extractor.extract_gzip_block w file offset block_num =
  let strm := Extractor.inflate w (fread file offset (1024 * 1024)) in
  let size := len (Extractor.z_out strm) in
  {| Extractor.ret := if 0 <? size then 0 else -1;
     Extractor.decomp_size := size;
     Extractor.events :=
       if (Extractor.z_ret strm =? Extractor.Z_STREAM_END)
          || (Extractor.z_ret strm =? Extractor.Z_OK) then
         let f := {| Extractor.fn_block := block_num;
                     Extractor.fn_offset := offset;
                     Extractor.fn_ext := Extractor.ext_bin |} in
         if Extractor.fopen w f then
           Extractor.Saved f (Extractor.z_out strm) ::
           Extractor.Decompressed block_num (Extractor.total_in strm) size ::
           Extractor.analyse w offset block_num (Extractor.z_out strm)
         else []
       else [Extractor.DecompressionFailed block_num (Extractor.z_ret strm)] |}.
Proof.
  intros Hlen Hmagic Hinit. unfold Extractor.extract_gzip_block.
  rewrite Hlen, Hmagic, Hinit. reflexivity.
Qed.

(** C10: the decoder returns 0 exactly when its call of [inflate] was
    reached (ten header bytes read, signature present, [inflateInit2]
    succeeded) and left at least one decompressed byte; on the three early
    returns, where nothing is decompressed, and when [inflate] left no
    output, it returns -1.  The count it tests is the number of bytes
    [inflate] produced.  The return value 0 includes the path where
    [inflate] ended with an error status, the failure was reported and
    nothing was written, so it is shared by a persisted segment and an
    unpersisted partial output. *)
Theorem C10_return_zero_iff_output (w : Extractor.world) (file : list byte)
  (offset block_num : Z) :
  let r := Extractor.extract_gzip_block w file offset block_num in
  let strm := Extractor.inflate w (fread file offset (1024 * 1024)) in
  let reaches_inflate :=
    len (fread file offset 10) = 10 /\
    Extractor.gzip_magic (fread file offset 10) = true /\
    Extractor.inflateInit2 w = Extractor.Z_OK in
  (Extractor.ret r = 0 <-> reaches_inflate /\ 0 < len (Extractor.z_out strm)) /\
  (Extractor.ret r <> 0 -> Extractor.ret r = -1) /\
  (reaches_inflate -> Extractor.decomp_size r = len (Extractor.z_out strm)) /\
  (~ reaches_inflate -> Extractor.decomp_size r = 0 /\ Extractor.events r = []) /\
  (Extractor.ret r = 0 <-> 0 < Extractor.decomp_size r) /\
  (len (fread file offset 10) = 10 ->
   Extractor.gzip_magic (fread file offset 10) = true ->
   Extractor.inflateInit2 w = Extractor.Z_OK ->
   Extractor.z_out strm <> [] ->
   (Extractor.z_ret strm <> Extractor.Z_STREAM_END ->
    Extractor.z_ret strm <> Extractor.Z_OK ->
    Extractor.ret r = 0 /\ Extractor.persisted r = false /\
    Extractor.reported_failed r = true) /\
   (Extractor.z_ret strm = Extractor.Z_STREAM_END \/
    Extractor.z_ret strm = Extractor.Z_OK ->
    Extractor.fopen w {| Extractor.fn_block := block_num;
                         Extractor.fn_offset := offset;
                         Extractor.fn_ext := Extractor.ext_bin |} = true ->
    Extractor.ret r = 0 /\ Extractor.persisted r = true /\
    Extractor.reported_failed r = false)).
Proof.
  cbv zeta.
  assert (Hreach :
    (len (fread file offset 10) = 10 /\
     Extractor.gzip_magic (fread file offset 10) = true /\
     Extractor.inflateInit2 w = Extractor.Z_OK) \/
    ~ (len (fread file offset 10) = 10 /\
       Extractor.gzip_magic (fread file offset 10) = true /\
       Extractor.inflateInit2 w = Extractor.Z_OK)).
  { destruct (Z.eq_dec (len (fread file offset 10)) 10) as [H1|H1]; [|right; tauto].
    destruct (Extractor.gzip_magic (fread file offset 10)) eqn:H2;
      [|right; intros (_ & H & _); discriminate].
    destruct (Z.eq_dec (Extractor.inflateInit2 w) Extractor.Z_OK) as [H3|H3];
      [left; tauto | right; tauto]. }
  assert (Hearly :
    ~ (len (fread file offset 10) = 10 /\
       Extractor.gzip_magic (fread file offset 10) = true /\
       Extractor.inflateInit2 w = Extractor.Z_OK) ->
    Extractor.extract_gzip_block w file offset block_num = Extractor.early_return).
  { intros Hno. unfold Extractor.extract_gzip_block.
    destruct (len (fread file offset 10) =? 10) eqn:E1; [|reflexivity].
    destruct (Extractor.gzip_magic (fread file offset 10)) eqn:E2; [|reflexivity].
    destruct (Extractor.inflateInit2 w =? Extractor.Z_OK) eqn:E3; [|reflexivity].
    exfalso. apply Hno. apply Z.eqb_eq in E1. apply Z.eqb_eq in E3. tauto. }
  pose proof (len_nonneg
                (Extractor.z_out (Extractor.inflate w (fread file offset (1024 * 1024)))))
    as Hnn.
  split; [|split; [|split; [|split; [|split]]]].
  - destruct Hreach as [(H1 & H2 & H3)|Hno].
    + rewrite (extract_after_checks w file offset block_num H1 H2 H3).
      cbv zeta. cbn [Extractor.ret].
      destruct (0 <? len _) eqn:E.
      * apply Z.ltb_lt in E. tauto.
      * apply Z.ltb_ge in E. split; [discriminate|]. intros (_ & Hpos). lia.
    + rewrite (Hearly Hno). cbn. split; [discriminate | tauto].
  - destruct (extract_ret_cases w file offset block_num) as [[H1 _]|[H1 _]];
      cbv zeta in H1; intros; lia.
  - intros (H1 & H2 & H3).
    rewrite (extract_after_checks w file offset block_num H1 H2 H3). reflexivity.
  - intros Hno. rewrite (Hearly Hno). split; reflexivity.
  - destruct (extract_ret_cases w file offset block_num) as [[H1 H2]|[H1 H2]];
      split; intros; lia.
  - intros Hlen Hmagic Hinit Hout.
    rewrite (extract_after_checks w file offset block_num Hlen Hmagic Hinit).
    set (strm := Extractor.inflate w (fread file offset (1024 * 1024))) in *.
    assert (Hpos : (0 <? len (Extractor.z_out strm)) = true).
    { apply Z.ltb_lt. unfold len. destruct (Extractor.z_out strm); [congruence|].
      simpl List.length. lia. }
    unfold Extractor.persisted, Extractor.reported_failed.
    cbn [Extractor.ret Extractor.events]. rewrite Hpos.
    split.
    + intros Hend Hok.
      apply Z.eqb_neq in Hend. apply Z.eqb_neq in Hok.
      rewrite Hend, Hok. cbn. repeat split; reflexivity.
    + intros Hcode Hopen.
      assert (Hstat : (Extractor.z_ret strm =? Extractor.Z_STREAM_END)
                      || (Extractor.z_ret strm =? Extractor.Z_OK) = true).
      { apply orb_true_iff. destruct Hcode as [->| ->]; [left|right]; reflexivity. }
      rewrite Hstat. rewrite Hopen. clear Hopen. cbn [existsb orb].
      repeat split; try reflexivity.
      unfold Extractor.analyse. cbn [existsb orb].
      destruct (Extractor.xml_detected (Extractor.z_out strm)); [|reflexivity].
      cbn [existsb orb].
      destruct (Extractor.fopen w _); reflexivity.
Qed.

Lemma C10_return_zero_iff_output_witness :
  (Extractor.ret (Extractor.extract_gzip_block Vectors.partial_world Vectors.bad_stream 0 1) = 0 /\
   Extractor.persisted (Extractor.extract_gzip_block Vectors.partial_world Vectors.bad_stream 0 1) = false /\
   Extractor.reported_failed (Extractor.extract_gzip_block Vectors.partial_world Vectors.bad_stream 0 1) = true) /\
  (Extractor.ret (Extractor.extract_gzip_block Vectors.good_world Vectors.bad_stream 0 1) = 0 /\
   Extractor.persisted (Extractor.extract_gzip_block Vectors.good_world Vectors.bad_stream 0 1) = true /\
   Extractor.reported_failed (Extractor.extract_gzip_block Vectors.good_world Vectors.bad_stream 0 1) = false) /\
  Extractor.decomp_size (Extractor.extract_gzip_block Vectors.partial_world Vectors.bad_stream 0 1) = 3 /\
  Extractor.ret (Extractor.extract_gzip_block Vectors.reject_world Vectors.bad_stream 0 1) = -1 /\
  Extractor.ret (Extractor.extract_gzip_block Vectors.good_world (zeros 10) 0 1) = -1 /\
  Extractor.ret (Extractor.extract_gzip_block Vectors.good_world Vectors.bad_stream 1 1) = -1.
Proof.
  split; [|split; [|split; [|split; [|split]]]].
  - apply (proj2 (proj2 (proj2 (proj2 (proj2
             (C10_return_zero_iff_output Vectors.partial_world Vectors.bad_stream 0 1)))))).
    + reflexivity.
    + reflexivity.
    + reflexivity.
    + vm_compute. discriminate.
    + vm_compute. discriminate.
    + vm_compute. discriminate.
  - apply (proj2 (proj2 (proj2 (proj2 (proj2
             (C10_return_zero_iff_output Vectors.good_world Vectors.bad_stream 0 1)))))).
    + reflexivity.
    + reflexivity.
    + reflexivity.
    + vm_compute. discriminate.
    + left. reflexivity.
    + reflexivity.
  - destruct (C10_return_zero_iff_output Vectors.partial_world Vectors.bad_stream 0 1)
      as (_ & _ & Hsize & _).
    rewrite Hsize; [reflexivity|]. repeat split; reflexivity.
  - destruct (C10_return_zero_iff_output Vectors.reject_world Vectors.bad_stream 0 1)
      as (Hiff & Hneg & _).
    apply Hneg. intros H0. apply Hiff in H0 as (_ & Hpos). vm_compute in Hpos. discriminate.
  - destruct (C10_return_zero_iff_output Vectors.good_world (zeros 10) 0 1)
      as (Hiff & Hneg & _).
    apply Hneg. intros H0. apply Hiff in H0 as ((_ & Hmagic & _) & _).
    vm_compute in Hmagic. discriminate.
  - destruct (C10_return_zero_iff_output Vectors.good_world Vectors.bad_stream 1 1)
      as (Hiff & Hneg & _).
    apply Hneg. intros H0. apply Hiff in H0 as ((Hlen & _) & _).
    vm_compute in Hlen. discriminate.
Defined.

(** ** The segment scanner *)

Lemma fread_len (file : list byte) (pos n : Z) :
  0 <= pos -> 0 <= n ->
  len (fread file pos n) = Z.min n (Z.max 0 (len file - pos)).
Proof.
  intros Hpos Hn. unfold fread, len.
  rewrite length_firstn, length_skipn. lia.
Qed.

Lemma to_long_small (z : Z) : - 2 ^ 63 <= z < 2 ^ 63 -> to_long z = z.
Proof.
  intros H. unfold to_long.
  rewrite Z.mod_small; lia.
Qed.

Lemma size_sub_small (a b : Z) : 0 <= a - b < 2 ^ 64 -> size_sub a b = a - b.
Proof.
  intros H. unfold size_sub, SIZE_MAX1. apply Z.mod_small. lia.
Qed.

Lemma size_add_small (a b : Z) : 0 <= a + b < 2 ^ 64 -> size_add a b = a + b.
Proof.
  intros H. unfold size_add, SIZE_MAX1. apply Z.mod_small. lia.
Qed.

Lemma gzip_magic_firstn (q : nat) (l : list byte) :
  (2 <= q)%nat -> Extractor.gzip_magic (firstn q l) = Extractor.gzip_magic l.
Proof.
  intros Hq. destruct q as [|[|q]]; try lia.
  destruct l as [|b0 [|b1 l]]; reflexivity.
Qed.

Lemma hits_from_firstn (n : nat) :
  forall (q : nat) (l : list byte) (o : Z),
    (n < q)%nat -> Scan.hits_from (firstn q l) o n = Scan.hits_from l o n.
Proof.
  induction n as [|n IH]; intros q l o Hq.
  - destruct (firstn q l), l; reflexivity.
  - destruct q as [|q]; [lia|]. destruct l as [|b l]; [reflexivity|].
    change (firstn (S q) (b :: l)) with (b :: firstn q l).
    cbn [Scan.hits_from].
    change (b :: firstn q l) with (firstn (S q) (b :: l)).
    rewrite gzip_magic_firstn by lia. rewrite IH by lia. reflexivity.
Qed.

Lemma hits_from_split (n1 : nat) :
  forall (n2 : nat) (l : list byte) (o : Z),
    Scan.hits_from l o (n1 + n2) =
    Scan.hits_from l o n1 ++ Scan.hits_from (skipn n1 l) (o + Z.of_nat n1) n2.
Proof.
  induction n1 as [|n1 IH]; intros n2 l o.
  - cbn [Nat.add skipn]. replace (o + Z.of_nat 0) with o by lia.
    destruct l; reflexivity.
  - destruct l as [|b l].
    + cbn. destruct n2; reflexivity.
    + cbn [Nat.add Scan.hits_from skipn]. rewrite IH, <- app_assoc.
      replace (o + 1 + Z.of_nat n1) with (o + Z.of_nat (S n1)) by lia.
      reflexivity.
Qed.

Lemma hits_from_lower (n : nat) :
  forall (l : list byte) (o x : Z), In x (Scan.hits_from l o n) -> o <= x.
Proof.
  induction n as [|n IH]; intros l o x Hin.
  - destruct l; contradiction.
  - destruct l as [|b l]; [contradiction|].
    cbn [Scan.hits_from] in Hin. apply in_app_or in Hin as [Hin|Hin].
    + destruct (Extractor.gzip_magic (b :: l)); [|contradiction].
      destruct Hin as [<-|[]]. lia.
    + apply IH in Hin. lia.
Qed.

Lemma hits_from_sorted (n : nat) :
  forall (l : list byte) (o : Z), StronglySorted Z.lt (Scan.hits_from l o n).
Proof.
  induction n as [|n IH]; intros l o.
  - destruct l; constructor.
  - destruct l as [|b l]; [constructor|].
    cbn [Scan.hits_from].
    destruct (Extractor.gzip_magic (b :: l)); cbn [app]; [|apply IH].
    constructor; [apply IH|].
    apply Forall_forall. intros x Hx. apply hits_from_lower in Hx. lia.
Qed.

Lemma sorted_lt_NoDup (l : list Z) : StronglySorted Z.lt l -> NoDup l.
Proof.
  induction 1 as [|a l Hs IH Hall]; constructor; [|assumption].
  intros Hin. rewrite Forall_forall in Hall. specialize (Hall a Hin). lia.
Qed.

Lemma magic_at_skipn (file : list byte) (x : Z) :
  0 <= x -> Scan.magic_at file x = Extractor.gzip_magic (skipn (Z.to_nat x) file).
Proof.
  intros Hx. unfold Scan.magic_at, byte_at.
  destruct (x <? 0) eqn:E1; [lia|]. destruct (x + 1 <? 0) eqn:E2; [lia|].
  replace (Z.to_nat (x + 1)) with (S (Z.to_nat x)) by lia.
  generalize (Z.to_nat x) as k. clear. intros k. revert file.
  induction k as [|k IH]; intros file.
  - destruct file as [|b0 [|b1 file]]; reflexivity.
  - destruct file as [|b file]; [reflexivity|]. apply IH.
Qed.

Lemma hits_from_In (n : nat) :
  forall (l : list byte) (o x : Z),
    In x (Scan.hits_from l o n) <->
    o <= x < o + Z.of_nat n /\ Extractor.gzip_magic (skipn (Z.to_nat (x - o)) l) = true.
Proof.
  induction n as [|n IH]; intros l o x.
  - split; [destruct l; contradiction | lia].
  - destruct l as [|b l].
    + split; [contradiction|]. intros [_ H]. rewrite skipn_nil in H. discriminate.
    + cbn [Scan.hits_from]. rewrite in_app_iff, IH. split.
      * intros [Hin|[Hr Hm]].
        -- destruct (Extractor.gzip_magic (b :: l)) eqn:E; [|contradiction].
           destruct Hin as [<-|[]]. split; [lia|].
           replace (o - o) with 0 by lia. exact E.
        -- split; [lia|].
           replace (Z.to_nat (x - o)) with (S (Z.to_nat (x - (o + 1)))) by lia.
           exact Hm.
      * intros [Hr Hm]. destruct (Z.eq_dec x o) as [->|Hne].
        -- left. replace (o - o) with 0 in Hm by lia. cbn [Z.to_nat skipn] in Hm.
           rewrite Hm. now left.
        -- right. split; [lia|].
           replace (Z.to_nat (x - o)) with (S (Z.to_nat (x - (o + 1)))) in Hm by lia.
           exact Hm.
Qed.

(** The candidates of a range are exactly its signature offsets. *)
Lemma candidates_In (file : list byte) (lo hi x : Z) :
  0 <= lo ->
  In x (Scan.candidates file lo hi) <->
  lo <= x < hi /\ Scan.magic_at file x = true.
Proof.
  intros Hlo. unfold Scan.candidates. rewrite hits_from_In.
  split; intros [Hr Hm].
  - split; [lia|]. rewrite magic_at_skipn by lia.
    rewrite skipn_skipn in Hm.
    replace (Z.to_nat x) with (Z.to_nat (x - lo) + Z.to_nat lo)%nat by lia. exact Hm.
  - split; [lia|]. rewrite magic_at_skipn in Hm by lia.
    rewrite skipn_skipn.
    replace (Z.to_nat (x - lo) + Z.to_nat lo)%nat with (Z.to_nat x) by lia. exact Hm.
Qed.

Lemma after_hits_app (w : Extractor.world) (file : list byte)
  (st : Extractor.scan_state) (h1 h2 : list Z) :
  Scan.after_hits w file st (h1 ++ h2) =
  Scan.after_hits w file (Scan.after_hits w file st h1) h2.
Proof. apply fold_left_app. Qed.

Lemma after_hits_count (w : Extractor.world) (file : list byte) (hs : list Z) :
  forall st, Extractor.block_count (Scan.after_hits w file st hs) =
             Extractor.block_count st + len hs.
Proof.
  induction hs as [|h hs IH]; intros st.
  - rewrite len_nil. cbn. lia.
  - cbn [Scan.after_hits fold_left]. fold (Scan.after_hits w file (Extractor.hit w file h st) hs).
    rewrite IH, len_cons. cbn [Extractor.hit Extractor.block_count]. lia.
Qed.

Lemma after_hits_offsets (w : Extractor.world) (file : list byte) (hs : list Z) :
  forall st, Scan.offsets_of (Scan.after_hits w file st hs) = Scan.offsets_of st ++ hs.
Proof.
  induction hs as [|h hs IH]; intros st.
  - cbn. now rewrite app_nil_r.
  - cbn [Scan.after_hits fold_left]. fold (Scan.after_hits w file (Extractor.hit w file h st) hs).
    rewrite IH. unfold Scan.offsets_of, Extractor.hit. cbn [Extractor.calls].
    rewrite map_app, <- app_assoc. reflexivity.
Qed.

Lemma window_loop_cons (w : Extractor.world) (cap : Z) (file : list byte)
  (offset : Z) (b0 : byte) (buf : list byte) (i bound : Z)
  (st : Extractor.scan_state) :
  Extractor.window_loop w cap file offset (b0 :: buf) i bound st =
  if i <? bound then
    if Byte.eqb b0 MAGIC0 then
      match buf with
      | [] => Undef
      | b1 :: _ =>
          if Byte.eqb b1 MAGIC1 then
            let st' := Extractor.hit w file (offset + i) st in
            if cap <=? Extractor.block_count st' then Ret (Leave st')
            else Extractor.window_loop w cap file offset buf (i + 1) bound st'
          else Extractor.window_loop w cap file offset buf (i + 1) bound st
      end
    else Extractor.window_loop w cap file offset buf (i + 1) bound st
  else Ret (Next st).
Proof. reflexivity. Qed.

(** One window: the decoder is called at the signature offsets of the
    window in increasing order, until the counter reaches the bound. *)
Lemma window_loop_spec (w : Extractor.world) (cap : Z) (file : list byte) (offset : Z) :
  forall (n : nat) (buf : list byte) (i : Z) (st : Extractor.scan_state),
    (n < List.length buf)%nat ->
    Extractor.block_count st < cap ->
    let hs := Scan.hits_from buf (offset + i) n in
    let k := Z.to_nat (cap - Extractor.block_count st) in
    Extractor.window_loop w cap file offset buf i (i + Z.of_nat n) st =
    Ret (if (List.length hs <? k)%nat then Next (Scan.after_hits w file st hs)
         else Leave (Scan.after_hits w file st (firstn k hs))).
Proof.
  induction n as [|n IH]; intros buf i st Hlen Hcap; cbv zeta.
  - destruct buf as [|b0 buf]; [simpl in Hlen; lia|].
    rewrite window_loop_cons. cbn [Scan.hits_from].
    replace (i + Z.of_nat 0) with i by lia. rewrite Z.ltb_irrefl.
    cbn [List.length].
    destruct (0 <? Z.to_nat (cap - Extractor.block_count st))%nat eqn:E; [reflexivity|].
    apply Nat.ltb_ge in E. lia.
  - destruct buf as [|b0 buf]; [simpl in Hlen; lia|].
    destruct buf as [|b1 buf]; [simpl in Hlen; lia|].
    assert (Hlen' : (n < List.length (b1 :: buf))%nat) by (simpl in *; lia).
    rewrite window_loop_cons.
    assert (Hlt : (i <? i + Z.of_nat (S n)) = true) by (apply Z.ltb_lt; lia).
    rewrite Hlt.
    replace (i + Z.of_nat (S n)) with ((i + 1) + Z.of_nat n) by lia.
    cbn [Scan.hits_from Extractor.gzip_magic].
    replace (offset + i + 1) with (offset + (i + 1)) by lia.
    pose proof (IH (b1 :: buf) (i + 1) st Hlen' Hcap) as Hsame. cbv zeta in Hsame.
    destruct (Byte.eqb b0 MAGIC0) eqn:E0; cbn [andb]; [|exact Hsame].
    destruct (Byte.eqb b1 MAGIC1) eqn:E1; [|exact Hsame].
    clear Hsame. cbv zeta. cbn [app List.length].
    generalize (Extractor.hit w file (offset + i) st)
      (eq_refl : Extractor.block_count (Extractor.hit w file (offset + i) st)
                 = Extractor.block_count st + 1)
      (eq_refl : Scan.after_hits w file st [offset + i]
                 = Extractor.hit w file (offset + i) st).
    intros st' Hbc Hst'.
    destruct (cap <=? Extractor.block_count st') eqn:Ecap.
    + apply Z.leb_le in Ecap.
      replace (Z.to_nat (cap - Extractor.block_count st)) with 1%nat by lia.
      cbn [Nat.ltb Nat.leb firstn]. rewrite Hst'. reflexivity.
    + apply Z.leb_gt in Ecap.
      pose proof (IH (b1 :: buf) (i + 1) st' Hlen' ltac:(lia)) as Hrec.
      cbv zeta in Hrec. rewrite Hrec. clear Hrec.
      destruct (Z.to_nat (cap - Extractor.block_count st)) as [|k] eqn:Ek; [lia|].
      replace (Z.to_nat (cap - Extractor.block_count st')) with k by lia.
      change (S (List.length ?l) <? S k)%nat with (List.length l <? k)%nat.
      change (offset + i :: ?l) with ([offset + i] ++ l).
      rewrite !after_hits_app, Hst'.
      change (firstn (S k) ([offset + i] ++ ?l)) with ([offset + i] ++ firstn k l).
      rewrite after_hits_app, Hst'. reflexivity.
Qed.

Lemma scan_loop_step (fuel : nat) (w : Extractor.world) (cap : Z)
  (file : list byte) (file_size offset : Z) (st : Extractor.scan_state) :
  Extractor.scan_loop (S fuel) w cap file file_size offset st =
  if offset <? file_size - 10 then
    let buffer := fread file offset 4096 in
    let bytes_read := len buffer in
    r <- Extractor.window_loop w cap file offset buffer 0 (size_sub bytes_read 10) st ;;
    match r with
    | Leave st' => Ret st'
    | Next st' =>
        Extractor.scan_loop fuel w cap file file_size
                            (to_long (offset + size_sub bytes_read 10)) st'
    end
  else Ret st.
Proof. reflexivity. Qed.

Lemma candidates_empty (file : list byte) (lo hi : Z) :
  hi <= lo -> Scan.candidates file lo hi = [].
Proof.
  intros H. unfold Scan.candidates. replace (Z.to_nat (hi - lo)) with O by lia.
  destruct (skipn _ _); reflexivity.
Qed.

Lemma candidates_split (file : list byte) (lo mid hi : Z) :
  0 <= lo <= mid -> mid <= hi ->
  Scan.candidates file lo hi = Scan.candidates file lo mid ++ Scan.candidates file mid hi.
Proof.
  intros H1 H2. unfold Scan.candidates.
  replace (Z.to_nat (hi - lo)) with (Z.to_nat (mid - lo) + Z.to_nat (hi - mid))%nat by lia.
  rewrite hits_from_split, skipn_skipn.
  replace (Z.to_nat (mid - lo) + Z.to_nat lo)%nat with (Z.to_nat mid) by lia.
  replace (lo + Z.of_nat (Z.to_nat (mid - lo))) with mid by lia.
  reflexivity.
Qed.

(** The whole scan: the decoder is called at the signature offsets below
    [file_size - 10], in increasing order, until the counter reaches the
    bound. *)
Lemma scan_loop_spec (w : Extractor.world) (cap : Z) (file : list byte) :
  len file < 2 ^ 63 ->
  forall (fuel : nat) (offset : Z) (st : Extractor.scan_state),
    0 <= offset ->
    Extractor.block_count st < cap ->
    Z.max 0 (len file - 10 - offset) < Z.of_nat fuel ->
    Extractor.scan_loop fuel w cap file (len file) offset st =
    Ret (Scan.after_hits w file st
           (firstn (Z.to_nat (cap - Extractor.block_count st))
                   (Scan.candidates file offset (len file - 10)))).
Proof.
  intros Hsize. induction fuel as [|fuel IH]; intros offset st Hoff Hcap Hfuel; [lia|].
  rewrite scan_loop_step. destruct (offset <? len file - 10) eqn:Hguard.
  - apply Z.ltb_lt in Hguard. cbv zeta.
    set (buffer := fread file offset 4096).
    assert (Hbr : len buffer = Z.min 4096 (len file - offset)).
    { unfold buffer. rewrite fread_len by lia. lia. }
    assert (Hm : size_sub (len buffer) 10 = len buffer - 10).
    { apply size_sub_small. lia. }
    rewrite Hm.
    set (m := len buffer - 10) in *.
    assert (Hm1 : 1 <= m <= 4086) by lia.
    pose proof (window_loop_spec w cap file offset (Z.to_nat m) buffer 0 st) as Hwin.
    cbv zeta in Hwin.
    replace (0 + Z.of_nat (Z.to_nat m)) with m in Hwin by lia.
    rewrite Hwin; [|unfold len in *; lia|assumption]. clear Hwin.
    replace (offset + 0) with offset by lia.
    assert (Hhs : Scan.hits_from buffer offset (Z.to_nat m)
                  = Scan.candidates file offset (offset + m)).
    { unfold buffer, fread, Scan.candidates. rewrite hits_from_firstn by lia.
      replace (offset + m - offset) with m by lia. reflexivity. }
    rewrite Hhs.
    rewrite (candidates_split file offset (offset + m) (len file - 10)) by lia.
    set (hs1 := Scan.candidates file offset (offset + m)).
    set (hs2 := Scan.candidates file (offset + m) (len file - 10)).
    set (k := Z.to_nat (cap - Extractor.block_count st)).
    rewrite firstn_app.
    destruct (List.length hs1 <? k)%nat eqn:Ek; cbn [bind].
    + apply Nat.ltb_lt in Ek.
      rewrite to_long_small by lia.
      rewrite IH.
      * rewrite after_hits_count, after_hits_app.
        rewrite (firstn_all2 (n := k) hs1) by lia.
        replace (Z.to_nat (cap - (Extractor.block_count st + len hs1)))
          with (k - List.length hs1)%nat by (unfold len; lia).
        reflexivity.
      * lia.
      * rewrite after_hits_count. unfold len. lia.
      * lia.
    + apply Nat.ltb_ge in Ek.
      replace (k - List.length hs1)%nat with O by lia.
      cbn [firstn]. rewrite app_nil_r. reflexivity.
  - apply Z.ltb_ge in Hguard.
    rewrite candidates_empty by lia. rewrite firstn_nil. reflexivity.
Qed.

(** The scan of a file from [binary_start] with bound [max_count]. *)
Lemma scan_segments_spec (w : Extractor.world) (max_count : Z)
  (file : list byte) (binary_start : Z) :
  len file < 2 ^ 63 -> 0 <= binary_start -> 0 < max_count ->
  Extractor.scan_segments w max_count file binary_start =
  Ret (Scan.after_hits w file {| Extractor.block_count := 0; Extractor.calls := [] |}
         (firstn (Z.to_nat max_count)
                 (Scan.candidates file binary_start (len file - 10)))).
Proof.
  intros Hsize Hbs Hcap. unfold Extractor.scan_segments.
  rewrite scan_loop_spec; cbn [Extractor.block_count]; try lia.
  - replace (max_count - 0) with max_count by lia. reflexivity.
  - unfold len. lia.
Qed.

(** The extractor's scan finishes on every file and from every start offset
    (the sibling of the scan of [acd_parser.c]). *)
Lemma extractor_scan_terminates (w : Extractor.world) (file : list byte)
  (binary_start : Z) :
  len file < 2 ^ 63 -> 0 <= binary_start ->
  exists st, Extractor.scan_segments w Extractor.MAX_BLOCKS file binary_start = Ret st.
Proof.
  intros Hsize Hbs. eexists. apply scan_segments_spec; [assumption|assumption|].
  reflexivity.
Qed.

(** C4, as the code has it: with a bound that is not reached, the scanner
    calls the decoder exactly at the signature offsets [o] with
    [binary_start <= o < file_size - 10], each once, in strictly increasing
    order. *)
Theorem C4_scan_visits_candidates_below_margin (w : Extractor.world)
  (max_count : Z) (file : list byte) (binary_start : Z) :
  len file < 2 ^ 63 -> 0 <= binary_start ->
  len (Scan.candidates file binary_start (len file - 10)) < max_count ->
  exists st,
    Extractor.scan_segments w max_count file binary_start = Ret st /\
    StronglySorted Z.lt (Scan.offsets_of st) /\
    NoDup (Scan.offsets_of st) /\
    forall o, In o (Scan.offsets_of st) <->
              binary_start <= o < len file - 10 /\ Scan.magic_at file o = true.
Proof.
  intros Hsize Hbs Hcap.
  pose proof (len_nonneg (Scan.candidates file binary_start (len file - 10))) as Hnn.
  eexists. split; [apply scan_segments_spec; lia|].
  rewrite after_hits_offsets. cbn [Scan.offsets_of Extractor.calls map app].
  rewrite firstn_all2 by (unfold len in *; lia).
  assert (Hs : StronglySorted Z.lt (Scan.candidates file binary_start (len file - 10)))
    by apply hits_from_sorted.
  split; [exact Hs|]. split; [apply sorted_lt_NoDup, Hs|].
  intros o. apply candidates_In. assumption.
Qed.

Lemma C4_scan_visits_candidates_below_margin_witness :
  exists st,
    Extractor.scan_segments Vectors.good_world Extractor.MAX_BLOCKS
                            Vectors.two_magic_file 0 = Ret st /\
    StronglySorted Z.lt (Scan.offsets_of st) /\
    NoDup (Scan.offsets_of st) /\
    forall o, In o (Scan.offsets_of st) <->
              0 <= o < len Vectors.two_magic_file - 10 /\
              Scan.magic_at Vectors.two_magic_file o = true.
Proof.
  apply (C4_scan_visits_candidates_below_margin Vectors.good_world
           Extractor.MAX_BLOCKS Vectors.two_magic_file 0).
  - vm_compute. reflexivity.
  - lia.
  - vm_compute. reflexivity.
Defined.

(** C4 as stated fails: a signature inside the last ten bytes of the file
    is never handed to the decoder, although the bound is not reached. *)
Lemma C4_signature_in_last_ten_bytes_not_visited :
  Scan.magic_at Vectors.tail_magic_file 5 = true /\
  Extractor.scan_segments Vectors.good_world Extractor.MAX_BLOCKS
                          Vectors.tail_magic_file 0
  = Ret {| Extractor.block_count := 0; Extractor.calls := [] |}.
Proof.
  split; vm_compute; reflexivity.
Qed.

(** C3, as the code has it: the scan hands the signature offsets below
    [file_size - 10] to the decoder in increasing order and stops after the
    twentieth, whatever the decoder returned: [block_count] counts the calls,
    failed ones included. *)
Theorem C3_scan_stops_after_twenty_candidates (w : Extractor.world)
  (file : list byte) (binary_start : Z) :
  len file < 2 ^ 63 -> 0 <= binary_start ->
  exists st,
    Extractor.scan_segments w Extractor.MAX_BLOCKS file binary_start = Ret st /\
    Scan.offsets_of st =
    firstn 20 (Scan.candidates file binary_start (len file - 10)) /\
    Extractor.block_count st = len (Extractor.calls st) /\
    len (Scan.successes st) <= Extractor.block_count st <= 20.
Proof.
  intros Hsize Hbs. eexists. split.
  - apply scan_segments_spec; [assumption|assumption|reflexivity].
  - set (st := Scan.after_hits _ _ _ _).
    assert (Hoff : Scan.offsets_of st =
                   firstn 20 (Scan.candidates file binary_start (len file - 10))).
    { unfold st. rewrite after_hits_offsets. reflexivity. }
    assert (Hcount : Extractor.block_count st = len (Scan.offsets_of st)).
    { rewrite Hoff. unfold st. rewrite after_hits_count. reflexivity. }
    assert (Hcalls : len (Scan.offsets_of st) = len (Extractor.calls st)).
    { unfold Scan.offsets_of, len. now rewrite length_map. }
    split; [exact Hoff|]. split; [congruence|].
    rewrite Hcount, Hcalls. split.
    + unfold Scan.successes, len. apply inj_le, filter_length_le.
    + rewrite <- Hcalls, Hoff. unfold len. rewrite length_firstn. lia.
Qed.

Lemma C3_scan_stops_after_twenty_candidates_witness :
  Extractor.find_binary_start Vectors.many_magic_run_file = Ret 0 /\
  exists st,
    Extractor.scan_segments Vectors.reject_world Extractor.MAX_BLOCKS
                            Vectors.many_magic_run_file 0 = Ret st /\
    Scan.offsets_of st =
    firstn 20 (Scan.candidates Vectors.many_magic_run_file 0
                               (len Vectors.many_magic_run_file - 10)) /\
    Extractor.block_count st = len (Extractor.calls st) /\
    len (Scan.successes st) <= Extractor.block_count st <= 20.
Proof.
  split; [vm_compute; reflexivity|].
  apply (C3_scan_stops_after_twenty_candidates Vectors.reject_world
           Vectors.many_magic_run_file 0).
  - vm_compute. reflexivity.
  - lia.
Defined.

(** C3 as stated fails on a run of the program.  The file holds twenty-one
    signatures and no NUL, so [main] finds binary start 0; none of the
    signatures is followed by a deflate stream, and the decoder fails on
    each (zlib rejects the method byte 0x1F without output).  [main] ends
    its scan after twenty calls, none of which succeeded, and the signature
    at offset 40 (below [file_size - 10] = 43) is never tried. *)
Lemma C3_twenty_failed_decodes_end_the_scan :
  exists st,
    Extractor.main Vectors.reject_world Vectors.many_magic_run_file = Ret (0, st) /\
    Extractor.block_count st = 20 /\
    Scan.offsets_of st =
      [0; 2; 4; 6; 8; 10; 12; 14; 16; 18; 20; 22; 24; 26; 28; 30; 32; 34; 36; 38] /\
    Forall (fun c => Extractor.ret (Extractor.call_result c) = -1 /\
                     Extractor.events (Extractor.call_result c) =
                     [Extractor.DecompressionFailed (Extractor.call_block c)
                                                    Extractor.Z_DATA_ERROR])
           (Extractor.calls st) /\
    Scan.successes st = [] /\
    len Vectors.many_magic_run_file - 10 = 43 /\
    Scan.magic_at Vectors.many_magic_run_file 40 = true /\
    In 40 (Scan.candidates Vectors.many_magic_run_file 0
                           (len Vectors.many_magic_run_file - 10)) /\
    ~ In 40 (Scan.offsets_of st).
Proof.
  eexists. split; [vm_compute; reflexivity|].
  split; [reflexivity|]. split; [reflexivity|].
  split; [repeat constructor|].
  split; [reflexivity|]. split; [reflexivity|]. split; [reflexivity|].
  split.
  - vm_compute. tauto.
  - vm_compute. intuition discriminate.
Qed.

(** ** The scan of [acd_parser.c] *)

Lemma parser_window_no_magic (offset : Z) :
  forall (buf : list byte) (i bound : Z) (st : Parser.search_state),
    Forall (fun b => b <> MAGIC0) buf ->
    bound - i <= len buf ->
    Parser.window_loop offset buf i bound st = Ret (Next st).
Proof.
  induction buf as [|b0 buf IH]; intros i bound st Hno Hlen.
  - rewrite len_nil in Hlen. cbn.
    destruct (i <? bound) eqn:E; [apply Z.ltb_lt in E; lia | reflexivity].
  - rewrite len_cons in Hlen. inversion Hno as [|? ? Hb0 Hrest]; subst.
    cbn [Parser.window_loop].
    destruct (i <? bound) eqn:E; [|reflexivity].
    destruct (Byte.eqb b0 MAGIC0) eqn:E0.
    + apply byte_eqb_eq in E0. contradiction.
    + apply IH; [assumption | lia].
Qed.

Lemma search_loop_step (fuel : nat) (file : list byte) (file_size offset : Z)
  (st : Parser.search_state) :
  Parser.search_loop (S fuel) file file_size offset st =
  if offset <? file_size - 2 then
    let buffer := fread file offset Parser.BUFFER_SIZE in
    let bytes_read := len buffer in
    r <- Parser.window_loop offset buffer 0 (size_sub bytes_read 10) st ;;
    match r with
    | Leave st' => Ret st'
    | Next st' =>
        Parser.search_loop fuel file file_size
          (to_long (offset + size_sub bytes_read 10)) st'
    end
  else Ret st.
Proof. reflexivity. Qed.

Lemma Forall_fread (P : byte -> Prop) (file : list byte) (pos n : Z) :
  Forall P file -> Forall P (fread file pos n).
Proof.
  intros H. unfold fread. apply Forall_firstn_keeps, Forall_skipn_keeps, H.
Qed.

(** Once the offset stops advancing the search cannot end: with at least
    ten bytes behind [offset] and no byte 0x1F in the file, the loop is still
    running after any number of iterations. *)
Lemma parser_search_stutters (file : list byte) (fuel : nat) :
  len file < 2 ^ 63 ->
  Forall (fun b => b <> MAGIC0) file ->
  forall (offset : Z) (st : Parser.search_state),
    0 <= offset -> 10 <= len file - offset ->
    Parser.search_loop fuel file (len file) offset st = Fuel.
Proof.
  intros Hsize Hno.
  induction fuel as [|fuel IH]; intros offset st Hoff Hrem; [reflexivity|].
  rewrite search_loop_step.
  assert (Hg : (offset <? len file - 2) = true) by (apply Z.ltb_lt; lia).
  rewrite Hg. cbv zeta.
  set (buffer := fread file offset Parser.BUFFER_SIZE).
  assert (Hbr : len buffer = Z.min 4096 (len file - offset)).
  { unfold buffer, Parser.BUFFER_SIZE. rewrite fread_len by lia. lia. }
  assert (Hm : size_sub (len buffer) 10 = len buffer - 10)
    by (apply size_sub_small; lia).
  rewrite Hm, parser_window_no_magic.
  - cbn [bind]. rewrite to_long_small by lia. apply IH; lia.
  - apply Forall_fread, Hno.
  - lia.
Qed.

(** C7 on the code of [acd_parser.c]: when at least ten bytes follow
    [binary_start] and no byte is 0x1F, [find_compressed_blocks] has not
    returned after any number of iterations of its [while] loop: the offset
    stops advancing once exactly ten bytes remain. *)
Theorem C7_parser_scan_never_finishes (file : list byte) (binary_start : Z)
  (fuel : nat) :
  len file < 2 ^ 63 -> 0 <= binary_start -> 10 <= len file - binary_start ->
  Forall (fun b => b <> MAGIC0) file ->
  Parser.find_compressed_blocks fuel file binary_start = Fuel.
Proof.
  intros Hsize Hbs Hrem Hno. unfold Parser.find_compressed_blocks.
  apply parser_search_stutters; assumption.
Qed.

Lemma C7_parser_scan_never_finishes_witness :
  Parser.find_compressed_blocks 1000 (zeros 10) 0 = Fuel.
Proof.
  apply (C7_parser_scan_never_finishes (zeros 10) 0 1000).
  - vm_compute. reflexivity.
  - lia.
  - vm_compute. discriminate.
  - repeat constructor; discriminate.
Defined.

(** With fewer than ten bytes left, [bytes_read - 10] wraps around and the
    window loop runs past the bytes read. *)
Lemma parser_scan_short_tail_undefined (fuel : nat) :
  Parser.find_compressed_blocks (S fuel) (zeros 9) 0 = Undef.
Proof. reflexivity. Qed.

(** The whole of [acd_parser.c] on a file of ten zero bytes, and on a short
    text file: the header is read, the search never ends. *)
Lemma parser_main_hangs (fuel : nat) :
  Parser.main fuel (zeros 10) = Fuel /\
  Parser.main fuel (bytes "hello world" ++ [LF]) = Fuel.
Proof.
  unfold Parser.main, Parser.find_compressed_blocks. split.
  - change (Parser.read_text_header (zeros 10))
      with (Ret {| Parser.binary_start := 0; Parser.header_lines := 1 |}).
    cbn [bind Parser.binary_start].
    apply parser_search_stutters.
    + vm_compute. reflexivity.
    + repeat constructor; discriminate.
    + lia.
    + vm_compute. discriminate.
  - change (Parser.read_text_header (bytes "hello world" ++ [LF]))
      with (Ret {| Parser.binary_start := 0; Parser.header_lines := 1 |}).
    cbn [bind Parser.binary_start].
    apply parser_search_stutters.
    + vm_compute. reflexivity.
    + repeat constructor; discriminate.
    + lia.
    + vm_compute. discriminate.
Qed.

(** ** The preamble splitter *)

Lemma extractor_ctrl_byte_iff (b : byte) :
  Extractor.ctrl_byte b = true <-> Preamble.control_byte b.
Proof.
  unfold Extractor.ctrl_byte, Preamble.control_byte.
  rewrite !andb_true_iff, !negb_true_iff, Z.ltb_lt.
  split.
  - intros [[[H1 H2] H3] H4]. repeat split; try assumption;
      intros ->; discriminate.
  - intros (H1 & H2 & H3 & H4). repeat split; try assumption;
      (destruct (Byte.eqb b _) eqn:E; [apply byte_eqb_eq in E; contradiction | reflexivity]).
Qed.

Lemma parser_ctrl_byte_eq (b : byte) : Parser.ctrl_byte b = Extractor.ctrl_byte b.
Proof. reflexivity. Qed.

Lemma text_byte_not_ctrl (b : byte) :
  Preamble.text_byte b -> Extractor.ctrl_byte b = false.
Proof.
  intros H. destruct (Extractor.ctrl_byte b) eqn:E; [|reflexivity].
  apply extractor_ctrl_byte_iff in E. destruct E as (H1 & H2 & H3 & H4).
  destruct H as [H|[H|[H|H]]]; [lia | contradiction | contradiction | contradiction].
Qed.

Lemma text_byte_not_nul (b : byte) : Preamble.text_byte b -> b <> NUL.
Proof.
  intros H ->. destruct H as [H|[H|[H|H]]]; [vm_compute in H; auto | discriminate ..].
Qed.

Lemma c_str_no_nul (l : list byte) :
  Forall (fun b => b <> NUL) l -> c_str l = l.
Proof.
  induction 1 as [|b l Hb Hl IH]; [reflexivity|].
  cbn [c_str]. destruct (Byte.eqb b NUL) eqn:E.
  - apply byte_eqb_eq in E. contradiction.
  - now rewrite IH.
Qed.

Lemma text_chunk_not_binary (c : list byte) :
  Forall Preamble.text_byte c -> Extractor.is_binary c = false.
Proof.
  intros H. unfold Extractor.is_binary.
  rewrite c_str_no_nul.
  - induction H as [|b l Hb Hl IH]; [reflexivity|].
    cbn [existsb]. now rewrite (text_byte_not_ctrl b Hb), IH.
  - eapply Forall_impl; [|exact H]. apply text_byte_not_nul.
Qed.

Lemma text_chunk_is_text (c : list byte) :
  Forall Preamble.text_byte c -> Parser.is_text c = true.
Proof.
  induction 1 as [|b l Hb Hl IH]; [reflexivity|].
  cbn [Parser.is_text]. destruct (Byte.eqb b NUL || Byte.eqb b LF); [reflexivity|].
  rewrite parser_ctrl_byte_eq, (text_byte_not_ctrl b Hb). exact IH.
Qed.

(** [fgets] on bytes that end with a line feed takes a non-empty prefix of
    them, and what it leaves again ends with a line feed (or is empty). *)
Lemma fgets_chars_prefix :
  forall (p : list byte) (n : nat) (rest : list byte),
    (0 < n)%nat ->
    exists c pre',
      fgets_chars n (p ++ LF :: rest) = c /\ c <> [] /\
      p ++ [LF] = c ++ pre' /\ (pre' = [] \/ exists p', pre' = p' ++ [LF]).
Proof.
  induction p as [|b p IH]; intros n rest Hn; destruct n as [|n]; try lia.
  - exists [LF], []. cbn. repeat split; [discriminate | now left].
  - cbn [app fgets_chars]. destruct (Byte.eqb b LF) eqn:E.
    + exists [b], (p ++ [LF]). repeat split; [discriminate | right; now exists p].
    + destruct n as [|n].
      * exists [b], (p ++ [LF]). cbn. repeat split; [discriminate | right; now exists p].
      * destruct (IH (S n) rest ltac:(lia)) as (c & pre' & Hc & Hne & Hsplit & Hend).
        exists (b :: c), pre'. rewrite Hc. repeat split; [discriminate | | exact Hend].
        cbn [app]. now rewrite Hsplit.
Qed.

(** [fgets] on a line without line feed in its body: the first [n] bytes of
    the body, and the line feed when it is reached. *)
Lemma fgets_chars_line :
  forall (body : list byte) (n : nat) (tail : list byte),
    Forall (fun b => b <> LF) body -> Preamble.line_end tail ->
    exists e, fgets_chars n (body ++ tail) = firstn n body ++ e /\
              (e = [] \/ e = [LF]).
Proof.
  induction body as [|b body IH]; intros n tail Hno Hend.
  - cbn [app firstn]. destruct n as [|n].
    + exists []. split; [destruct tail; reflexivity | now left].
    + rewrite firstn_nil. destruct Hend as [->|[t ->]].
      * exists []. split; [reflexivity | now left].
      * exists [LF]. split; [reflexivity | now right].
  - inversion Hno as [|? ? Hb Hrest]; subst. destruct n as [|n].
    + exists []. split; [reflexivity | now left].
    + cbn [app fgets_chars firstn].
      destruct (Byte.eqb b LF) eqn:E; [apply byte_eqb_eq in E; contradiction|].
      destruct (IH n tail Hrest Hend) as (e & He & Hcases).
      exists e. rewrite He. split; [reflexivity | exact Hcases].
Qed.

Lemma skipn_length_app {A : Type} (c l : list A) : skipn (List.length c) (c ++ l) = l.
Proof.
  induction c as [|a c IH]; [reflexivity | exact IH].
Qed.

Lemma binary_start_loop_step (fuel : nat) (rest : list byte) (pos : Z) :
  Extractor.binary_start_loop (S fuel) rest pos =
  match fgets 1024 rest with
  | None => Ret 0
  | Some line =>
      let ftell := pos + len line in
      if Extractor.is_binary line then Ret (ftell - strlen line)
      else Extractor.binary_start_loop fuel (skipn (List.length line) rest) ftell
  end.
Proof. reflexivity. Qed.

Lemma header_loop_step (fuel : nat) (rest : list byte) (cur pos lines : Z) :
  Parser.header_loop (S fuel) rest cur pos lines =
  match fgets Parser.BUFFER_SIZE rest with
  | None => Ret {| Parser.binary_start := 0; Parser.header_lines := lines |}
  | Some buffer =>
      if negb (Parser.is_text buffer) then
        Ret {| Parser.binary_start := pos; Parser.header_lines := lines |}
      else
        let ftell := cur + len buffer in
        Parser.header_loop fuel (skipn (List.length buffer) rest) ftell ftell (lines + 1)
  end.
Proof. reflexivity. Qed.

Lemma fgets_some (size : Z) (rest c : list byte) :
  fgets_chars (Z.to_nat (size - 1)) rest = c -> c <> [] ->
  fgets size rest = Some c.
Proof.
  intros Hc Hne. unfold fgets. rewrite Hc.
  destruct c; [contradiction | reflexivity].
Qed.

(** The lines of text before the binary line are read through, whatever
    their length. *)
Lemma text_prefix_skipped (rest : list byte) (v : Z) :
  forall (fuel : nat) (pre : list byte) (pos : Z),
    Forall Preamble.text_byte pre ->
    (pre = [] \/ exists p, pre = p ++ [LF]) ->
    (List.length pre < fuel)%nat ->
    (forall fuel', Extractor.binary_start_loop (S fuel') rest (pos + len pre) = Ret v) ->
    Extractor.binary_start_loop fuel (pre ++ rest) pos = Ret v.
Proof.
  induction fuel as [|fuel IH]; intros pre pos Htext Hend Hfuel Hrest; [lia|].
  destruct Hend as [->|[p ->]].
  - rewrite len_nil, Z.add_0_r in Hrest. apply Hrest.
  - rewrite <- app_assoc. cbn [app].
    destruct (fgets_chars_prefix p 1023 rest ltac:(lia))
      as (c & pre' & Hc & Hne & Hsplit & Hend').
    rewrite binary_start_loop_step.
    rewrite (fgets_some 1024 _ c Hc Hne). cbv zeta.
    rewrite Hsplit in Htext. apply Forall_app in Htext as [Htc Htpre'].
    rewrite (text_chunk_not_binary c Htc).
    replace (p ++ LF :: rest) with (c ++ pre' ++ rest)
      by (rewrite app_assoc, <- Hsplit, <- app_assoc; reflexivity).
    rewrite skipn_length_app.
    assert (Hlen : List.length (p ++ [LF]) = (List.length c + List.length pre')%nat)
      by (rewrite Hsplit; apply length_app).
    assert (Hc1 : (1 <= List.length c)%nat) by (destruct c; [contradiction | simpl; lia]).
    apply IH; [assumption | assumption | lia |].
    intros fuel'. rewrite <- Z.add_assoc, <- len_app, <- Hsplit. apply Hrest.
Qed.

Lemma header_prefix_skipped (rest : list byte) (P : Parser.header_info -> Prop) :
  forall (fuel : nat) (pre : list byte) (pos lines : Z),
    Forall Preamble.text_byte pre ->
    (pre = [] \/ exists p, pre = p ++ [LF]) ->
    (List.length pre < fuel)%nat ->
    (forall fuel' lines',
        exists r, Parser.header_loop (S fuel') rest (pos + len pre) (pos + len pre) lines'
                  = Ret r /\ P r) ->
    exists r, Parser.header_loop fuel (pre ++ rest) pos pos lines = Ret r /\ P r.
Proof.
  induction fuel as [|fuel IH]; intros pre pos lines Htext Hend Hfuel Hrest; [lia|].
  destruct Hend as [->|[p ->]].
  - rewrite len_nil, Z.add_0_r in Hrest. apply Hrest.
  - rewrite <- app_assoc. cbn [app].
    destruct (fgets_chars_prefix p 4095 rest ltac:(lia))
      as (c & pre' & Hc & Hne & Hsplit & Hend').
    rewrite header_loop_step.
    rewrite (fgets_some Parser.BUFFER_SIZE _ c Hc Hne). cbv zeta.
    rewrite Hsplit in Htext. apply Forall_app in Htext as [Htc Htpre'].
    rewrite (text_chunk_is_text c Htc). cbn [negb].
    replace (p ++ LF :: rest) with (c ++ pre' ++ rest)
      by (rewrite app_assoc, <- Hsplit, <- app_assoc; reflexivity).
    rewrite skipn_length_app.
    assert (Hlen : List.length (p ++ [LF]) = (List.length c + List.length pre')%nat)
      by (rewrite Hsplit; apply length_app).
    assert (Hc1 : (1 <= List.length c)%nat) by (destruct c; [contradiction | simpl; lia]).
    apply IH; [assumption | assumption | lia |].
    intros fuel' lines'. rewrite <- Z.add_assoc, <- len_app, <- Hsplit. apply Hrest.
Qed.

Lemma firstn_through (n i : nat) (l1 l2 : list byte) (b : byte) :
  List.length l1 = i -> (i < n)%nat ->
  firstn n (l1 ++ b :: l2) = l1 ++ b :: firstn (n - i - 1) l2.
Proof.
  intros Hl Hi. rewrite firstn_app, firstn_all2 by lia.
  rewrite Hl. destruct (n - i)%nat as [|k] eqn:E; [lia|].
  cbn [firstn]. replace (S k - 1)%nat with k by lia. reflexivity.
Qed.

Lemma is_text_through (l1 x : list byte) (b : byte) :
  Forall (fun c => c <> NUL /\ c <> LF) l1 ->
  b <> NUL -> b <> LF -> Parser.ctrl_byte b = true ->
  Parser.is_text (l1 ++ b :: x) = false.
Proof.
  intros Hl1 Hn Hl Hc.
  assert (Hnot : forall c, c <> NUL -> c <> LF -> Byte.eqb c NUL || Byte.eqb c LF = false).
  { intros c H1 H2. apply orb_false_iff.
    split; (destruct (Byte.eqb c _) eqn:E; [apply byte_eqb_eq in E; contradiction | reflexivity]). }
  induction Hl1 as [|c l1 [Hc1 Hc2] Hrest IH]; cbn [app Parser.is_text].
  - now rewrite (Hnot b Hn Hl), Hc.
  - rewrite (Hnot c Hc1 Hc2). destruct (Parser.ctrl_byte c); [reflexivity | exact IH].
Qed.

Section BinaryLine.

Variables (body tail : list byte) (i : nat) (b : byte).
Hypothesis body_no_lf : Forall (fun c => c <> LF) body.
Hypothesis tail_is_end : Preamble.line_end tail.
Hypothesis early : (i < 1023)%nat.
Hypothesis at_i : nth_error body i = Some b.
Hypothesis b_control : Preamble.control_byte b.
Hypothesis no_nul : Forall (fun c => c <> NUL) (firstn 1023 body).

(** The characters [fgets] stores for the binary line, with a buffer of
    [n + 1] bytes. *)
Lemma binary_chunk (n : nat) :
  (i < n)%nat ->
  exists l1 l2 e,
    List.length l1 = i /\
    fgets_chars n (body ++ tail) = l1 ++ b :: l2 ++ e /\
    firstn n body = l1 ++ b :: l2 /\
    (e = [] \/ e = [LF]).
Proof.
  intros Hn.
  destruct (nth_error_split body i at_i) as (l1 & l2 & Hbody & Hl1).
  destruct (fgets_chars_line body n tail body_no_lf tail_is_end) as (e & He & Hcases).
  exists l1, (firstn (n - i - 1) l2), e.
  assert (Hf : firstn n body = l1 ++ b :: firstn (n - i - 1) l2)
    by (rewrite Hbody; apply firstn_through; assumption).
  repeat split; try assumption.
  rewrite He, Hf, <- app_assoc. reflexivity.
Qed.

Lemma binary_line_before_b_clean (l1 l2 : list byte) (n : nat) :
  (i < n)%nat -> List.length l1 = i -> firstn n body = l1 ++ b :: l2 ->
  Forall (fun c => c <> NUL /\ c <> LF) l1 /\ b <> NUL /\ b <> LF.
Proof.
  intros Hn Hl1 Hf.
  assert (Hpre : firstn (S i) body = l1 ++ [b]).
  { replace (S i) with (Nat.min (S i) n) by lia.
    rewrite <- firstn_firstn, Hf, firstn_app, firstn_all2 by lia.
    rewrite Hl1. replace (S i - i)%nat with 1%nat by lia. reflexivity. }
  assert (Hnn : Forall (fun c => c <> NUL) (l1 ++ [b])).
  { rewrite <- Hpre. replace (S i) with (Nat.min (S i) 1023) by lia.
    rewrite <- firstn_firstn. apply Forall_firstn_keeps, no_nul. }
  assert (Hnl : Forall (fun c => c <> LF) (l1 ++ [b])).
  { rewrite <- Hpre. apply Forall_firstn_keeps, body_no_lf. }
  apply Forall_app in Hnn as [Hn1 Hnb]. apply Forall_app in Hnl as [Hl1' Hlb].
  inversion Hnb; subst. inversion Hlb; subst.
  repeat split; try assumption.
  rewrite Forall_forall in *. intros c Hc. split; auto.
Qed.

(** The extractor stops at the binary line and reports its first byte. *)
Lemma extractor_detects (fuel : nat) (pos : Z) :
  Extractor.binary_start_loop (S fuel) (body ++ tail) pos = Ret pos.
Proof.
  destruct (binary_chunk 1023 early) as (l1 & l2 & e & Hl1 & Hc & Hf & He).
  rewrite binary_start_loop_step.
  rewrite (fgets_some 1024 _ _ Hc) by (destruct l1; discriminate).
  cbv zeta.
  assert (Hclean : Forall (fun c => c <> NUL) (l1 ++ b :: l2 ++ e)).
  { rewrite app_comm_cons, app_assoc. apply Forall_app. split.
    - rewrite <- Hf. exact no_nul.
    - destruct He as [->| ->]; repeat constructor. discriminate. }
  unfold Extractor.is_binary, strlen.
  rewrite (c_str_no_nul _ Hclean).
  assert (Hex : existsb Extractor.ctrl_byte (l1 ++ b :: l2 ++ e) = true).
  { apply existsb_exists. exists b. split.
    - apply in_or_app. right. now left.
    - now apply extractor_ctrl_byte_iff. }
  rewrite Hex. f_equal. lia.
Qed.

(** [read_text_header] stops at the binary line and reports the position
    it recorded before reading it. *)
Lemma parser_detects (fuel : nat) (cur pos lines : Z) :
  Parser.header_loop (S fuel) (body ++ tail) cur pos lines =
  Ret {| Parser.binary_start := pos; Parser.header_lines := lines |}.
Proof.
  assert (Hi : (i < 4095)%nat) by lia.
  destruct (binary_chunk 4095 Hi) as (l1 & l2 & e & Hl1 & Hc & Hf & He).
  destruct (binary_line_before_b_clean l1 l2 4095 Hi Hl1 Hf) as (Hcl & Hbn & Hbl).
  rewrite header_loop_step.
  rewrite (fgets_some Parser.BUFFER_SIZE _ _ Hc) by (destruct l1; discriminate).
  rewrite is_text_through; try assumption; [reflexivity|].
  rewrite parser_ctrl_byte_eq. now apply extractor_ctrl_byte_iff.
Qed.

End BinaryLine.

Lemma concat_text_lines (lines : list (list byte)) :
  Forall Preamble.text_line lines ->
  Forall Preamble.text_byte (List.concat lines) /\
  (List.concat lines = [] \/ exists p, List.concat lines = p ++ [LF]).
Proof.
  induction 1 as [|l lines (body & -> & Htext & Hnolf) Hrest [IHt IHe]].
  - split; [constructor | now left].
  - cbn [List.concat]. split.
    + apply Forall_app. split; [|assumption].
      apply Forall_app. split; [assumption|].
      constructor; [right; right; now left | constructor].
    + right. destruct IHe as [->|[p ->]].
      * exists body. now rewrite app_nil_r.
      * exists ((body ++ [LF]) ++ p). now rewrite app_assoc.
Qed.

Lemma text_byte_check (b : byte) :
  Extractor.ctrl_byte b = false -> Preamble.text_byte b.
Proof.
  unfold Extractor.ctrl_byte, Preamble.text_byte. intros H.
  destruct (u8 b <? 32) eqn:E1; [|apply Z.ltb_ge in E1; left; lia].
  destruct (Byte.eqb b CR) eqn:E2; [apply byte_eqb_eq in E2; tauto|].
  destruct (Byte.eqb b LF) eqn:E3; [apply byte_eqb_eq in E3; tauto|].
  destruct (Byte.eqb b TAB) eqn:E4; [apply byte_eqb_eq in E4; tauto|].
  discriminate.
Qed.

Lemma Forall_neq_check (x : byte) (l : list byte) :
  forallb (fun c => negb (Byte.eqb c x)) l = true -> Forall (fun c => c <> x) l.
Proof.
  rewrite forallb_forall, Forall_forall. intros H c Hc. specialize (H c Hc).
  intros ->. rewrite (proj2 (byte_eqb_eq x x) eq_refl) in H. discriminate.
Qed.

Lemma text_line_check (body : list byte) :
  forallb (fun c => negb (Extractor.ctrl_byte c) && negb (Byte.eqb c LF)) body = true ->
  Preamble.text_line (body ++ [LF]).
Proof.
  intros H. exists body. split; [reflexivity|].
  rewrite forallb_forall in H. split.
  - apply Forall_forall. intros c Hc. specialize (H c Hc).
    apply andb_true_iff in H as [H _]. apply text_byte_check.
    now apply negb_true_iff.
  - apply Forall_neq_check, forallb_forall. intros c Hc. specialize (H c Hc).
    now apply andb_true_iff in H as [_ H].
Qed.

(** What both splitters get right: when the first K lines are text and
    line K+1 has, among its first 1023 bytes, a byte below 0x20 other than
    carriage return, line feed, tab, and no byte 0x00, both report the
    offset of the first byte of line K+1.  ([read_text_header] needs less:
    its buffer holds 4095 bytes of a line, and it takes the offset from
    [ftell] before the line, not from [strlen].) *)
Lemma binary_line_start_found
  (lines : list (list byte)) (body tail : list byte) (i : nat) (b : byte) :
  Forall Preamble.text_line lines ->
  Forall (fun c => c <> LF) body -> Preamble.line_end tail ->
  (i < 1023)%nat -> nth_error body i = Some b -> Preamble.control_byte b ->
  Forall (fun c => c <> NUL) (firstn 1023 body) ->
  let file := List.concat lines ++ body ++ tail in
  Extractor.find_binary_start file = Ret (len (List.concat lines)) /\
  exists n, Parser.read_text_header file =
            Ret {| Parser.binary_start := len (List.concat lines);
                   Parser.header_lines := n |}.
Proof.
  intros Hlines Hnolf Hend Hi Hnth Hctrl Hnonul file.
  destruct (concat_text_lines lines Hlines) as [Htext Hlast].
  assert (Hfuel : (List.length (List.concat lines) < S (List.length file))%nat)
    by (unfold file; rewrite length_app; lia).
  split.
  - unfold Extractor.find_binary_start.
    apply text_prefix_skipped; try assumption.
    intros fuel'. cbn [Z.add].
    apply (extractor_detects body tail i b); assumption.
  - unfold Parser.read_text_header.
    destruct (header_prefix_skipped (body ++ tail)
                (fun r => Parser.binary_start r = len (List.concat lines))
                (S (List.length file)) (List.concat lines) 0 0
                Htext Hlast Hfuel) as (r & Hr & Hbs).
    + intros fuel' lines'. eexists. split.
      * apply (parser_detects body tail i b); assumption.
      * reflexivity.
    + destruct r as [bs n]. cbn in Hbs. subst bs. exists n. exact Hr.
Qed.

Lemma binary_line_start_found_example :
  Extractor.find_binary_start
    (List.concat Preamble.two_text_lines ++ Preamble.binary_body ++ Preamble.binary_tail)
  = Ret (len (List.concat Preamble.two_text_lines)) /\
  exists n, Parser.read_text_header
              (List.concat Preamble.two_text_lines ++ Preamble.binary_body ++ Preamble.binary_tail)
            = Ret {| Parser.binary_start := len (List.concat Preamble.two_text_lines);
                     Parser.header_lines := n |}.
Proof.
  apply (binary_line_start_found
           Preamble.two_text_lines Preamble.binary_body Preamble.binary_tail 1 x01).
  - constructor; [|constructor; [|constructor]].
    + apply (text_line_check (bytes "ab")). reflexivity.
    + apply (text_line_check (bytes "cd" ++ [CR])). reflexivity.
  - apply Forall_neq_check. reflexivity.
  - right. eexists. reflexivity.
  - lia.
  - reflexivity.
  - apply extractor_ctrl_byte_iff. reflexivity.
  - apply Forall_neq_check. reflexivity.
Qed.

(** C2: the defect of the code.  After one text line, a line that holds the
    byte 0x00 (a byte below 0x20 other than carriage return, line feed, tab)
    is not detected: both splitters scan the line as a C string, which ends
    at the first 0x00, and report 0 instead of 2, the offset of the first
    byte of the second line. *)
Lemma C2_nul_line_not_detected :
  Preamble.nul_line_file = (bytes "a" ++ [LF]) ++ [NUL] ++ [LF] /\
  Preamble.text_line (bytes "a" ++ [LF]) /\
  len (bytes "a" ++ [LF]) = 2 /\
  Preamble.control_byte NUL /\
  Extractor.find_binary_start Preamble.nul_line_file = Ret 0 /\
  Parser.read_text_header Preamble.nul_line_file =
  Ret {| Parser.binary_start := 0; Parser.header_lines := 2 |}.
Proof.
  split; [reflexivity|]. split.
  - apply (text_line_check (bytes "a")). reflexivity.
  - split; [reflexivity|]. split.
    + apply extractor_ctrl_byte_iff. reflexivity.
    + split; vm_compute; reflexivity.
Qed.

(** The same treatment of the line as a C string in the extractor's
    [ftell(file) - strlen(line)]: a 0x00 behind the control byte shortens
    [strlen], and the extractor reports offset 8 for the line that starts
    at offset 3; [read_text_header], which keeps the position before the
    line, reports 3. *)
Lemma nul_behind_control_byte_misplaces_start :
  Preamble.nul_behind_file = (bytes "ab" ++ [LF]) ++ [x01; NUL] ++ bytes "xyz" ++ [LF] /\
  Preamble.control_byte x01 /\
  Extractor.find_binary_start Preamble.nul_behind_file = Ret 8 /\
  Parser.read_text_header Preamble.nul_behind_file =
  Ret {| Parser.binary_start := 3; Parser.header_lines := 1 |}.
Proof.
  split; [reflexivity|]. split.
  - apply extractor_ctrl_byte_iff. reflexivity.
  - split; vm_compute; reflexivity.
Qed.

(** A binary byte behind the first 1023 bytes of its line: the extractor
    reports the offset of the second [fgets] chunk, not of the line. *)
Lemma long_binary_line_reported_late :
  Preamble.control_byte x01 /\
  Extractor.find_binary_start Preamble.long_line_file = Ret 1023.
Proof.
  split.
  - apply extractor_ctrl_byte_iff. reflexivity.
  - vm_compute. reflexivity.
Qed.

(** Both splitters return on every file. *)
Lemma binary_start_loop_total :
  forall (fuel : nat) (rest : list byte) (pos : Z),
    (List.length rest < fuel)%nat ->
    exists v, Extractor.binary_start_loop fuel rest pos = Ret v.
Proof.
  induction fuel as [|fuel IH]; intros rest pos Hfuel; [lia|].
  rewrite binary_start_loop_step. unfold fgets.
  destruct (fgets_chars (Z.to_nat (1024 - 1)) rest) as [|c line] eqn:E.
  - now exists 0.
  - cbv zeta. destruct (Extractor.is_binary (c :: line)); [eexists; reflexivity|].
    apply IH. rewrite length_skipn.
    destruct rest as [|r rest]; [discriminate E|].
    cbn [List.length] in *. lia.
Qed.

Lemma find_binary_start_total (file : list byte) :
  exists v, Extractor.find_binary_start file = Ret v.
Proof.
  apply binary_start_loop_total. lia.
Qed.

Lemma c_str_len (l : list byte) : len (c_str l) <= len l.
Proof.
  induction l as [|b l IH]; [reflexivity|].
  cbn [c_str]. destruct (Byte.eqb b NUL).
  - rewrite len_nil. apply len_nonneg.
  - rewrite !len_cons. lia.
Qed.

Lemma binary_start_loop_nonneg :
  forall (fuel : nat) (rest : list byte) (pos v : Z),
    0 <= pos -> Extractor.binary_start_loop fuel rest pos = Ret v -> 0 <= v.
Proof.
  induction fuel as [|fuel IH]; intros rest pos v Hpos H; [discriminate|].
  rewrite binary_start_loop_step in H.
  destruct (fgets 1024 rest) as [line|]; [|injection H as <-; lia].
  cbv zeta in H. pose proof (len_nonneg line).
  destruct (Extractor.is_binary line).
  - injection H as <-. pose proof (c_str_len line). unfold strlen. lia.
  - apply IH in H; lia.
Qed.

(** ** Component recovery *)

Lemma bind_ret_inv {A B : Type} (m : outcome A) (k : A -> outcome B) (b : B) :
  bind m k = Ret b -> exists a, m = Ret a /\ k a = Ret b.
Proof.
  destruct m as [a| |]; cbn; intros H; [now exists a | discriminate | discriminate].
Qed.

Lemma name_loop_step (n : nat) (data : list byte) (data_size limit j : Z) :
  Comps.name_loop (S n) data data_size limit j =
  if (j <? limit) && (j <? size_sub data_size 50) then
    c <- of_read (byte_at data j) ;;
    if (u8 "A"%byte <=? u8 c) && (u8 c <=? u8 "z"%byte) then
      potential_name <- Comps.read_string data j 50 ;;
      if (3 <? len potential_name) && (len potential_name <? 40)
      then Ret (Some (j, potential_name))
      else Comps.name_loop n data data_size limit (j + 1)
    else Comps.name_loop n data data_size limit (j + 1)
  else Ret None.
Proof. reflexivity. Qed.

(** A name is accepted only with a length strictly between 3 and 40. *)
Lemma name_loop_accepts (data : list byte) (data_size limit : Z) :
  forall (n : nat) (j p : Z) (nm : list byte),
    Comps.name_loop n data data_size limit j = Ret (Some (p, nm)) ->
    3 < len nm < 40.
Proof.
  induction n as [|n IH]; intros j p nm H.
  - cbn in H. destruct ((j <? limit) && (j <? size_sub data_size 50)); discriminate.
  - rewrite name_loop_step in H.
    destruct ((j <? limit) && (j <? size_sub data_size 50)); [|discriminate].
    apply bind_ret_inv in H as (c & _ & H).
    destruct ((u8 "A"%byte <=? u8 c) && (u8 c <=? u8 "z"%byte)); [|exact (IH _ _ _ H)].
    apply bind_ret_inv in H as (s & _ & H).
    destruct ((3 <? len s) && (len s <? 40)) eqn:E; [|exact (IH _ _ _ H)].
    injection H as _ <-. apply andb_true_iff in E as [E1 E2].
    apply Z.ltb_lt in E1. apply Z.ltb_lt in E2. lia.
Qed.

Lemma iteration_plausible (data : list byte) (data_size current next : Z)
  (new : list Comps.Component) :
  Recovery.iteration data data_size current = Ret (next, new) ->
  Forall Recovery.plausible new /\ len new <= 1.
Proof.
  unfold Recovery.iteration. intros H.
  apply bind_ret_inv in H as (u & _ & H).
  apply bind_ret_inv in H as (r & Hr & H).
  injection H as H. destruct r as [[j nm]|].
  - injection H as _ <-. split; [|rewrite len_cons, len_nil; lia].
    constructor; [|constructor].
    destruct ((0 <? u) && (u <? 65536)) eqn:E; [|discriminate].
    apply andb_true_iff in E as [E1 E2].
    apply Z.ltb_lt in E1. apply Z.ltb_lt in E2.
    apply name_loop_accepts in Hr.
    split; cbn [Comps.uid Comps.name Comps.new_component]; lia.
  - injection H as _ <-. split; [constructor | rewrite len_nil; lia].
Qed.

(** The record loop, one iteration unfolded. *)
Lemma records_loop_step (fuel : nat) (data : list byte) (data_size current : Z)
  (st : Comps.storage) :
  Comps.records_loop (S fuel) data data_size current st =
  if (current <? size_sub data_size Comps.record_size)
     && (Comps.component_count st <? Comps.MAX_COMPONENTS) then
    x <- Recovery.iteration data data_size current ;;
    let st' := st ++ snd x in
    if 50 <=? Comps.component_count st' then Ret st'
    else Comps.records_loop fuel data data_size (fst x) st'
  else Ret st.
Proof.
  cbn [Comps.records_loop]. unfold Recovery.iteration.
  destruct ((current <? size_sub data_size Comps.record_size)
            && (Comps.component_count st <? Comps.MAX_COMPONENTS)); [|reflexivity].
  destruct (Comps.read_uint32_le data current) as [u| |]; cbn [bind]; try reflexivity.
  destruct (if (0 <? u) && (u <? 65536)
            then Comps.name_loop 100 data data_size (size_add current Comps.record_size)
                                 (size_add current 4)
            else Ret None) as [[[j nm]|]| |]; cbn [bind fst snd]; try reflexivity.
  rewrite app_nil_r. reflexivity.
Qed.

Lemma records_loop_zero (data : list byte) (data_size current : Z)
  (st : Comps.storage) :
  Comps.records_loop O data data_size current st =
  if (current <? size_sub data_size Comps.record_size)
     && (Comps.component_count st <? Comps.MAX_COMPONENTS) then Fuel else Ret st.
Proof. reflexivity. Qed.

(** The record loop only appends, and what it appends is plausible. *)
Lemma records_loop_extends (data : list byte) (data_size : Z) :
  forall (fuel : nat) (current : Z) (st st' : Comps.storage),
    Comps.records_loop fuel data data_size current st = Ret st' ->
    exists new, st' = st ++ new /\ Forall Recovery.plausible new.
Proof.
  induction fuel as [|fuel IH]; intros current st st' H.
  - rewrite records_loop_zero in H.
    destruct (_ && _); [discriminate|]. injection H as <-.
    exists []. split; [now rewrite app_nil_r | constructor].
  - rewrite records_loop_step in H.
    destruct (_ && _); [|injection H as <-; exists []; split;
                          [now rewrite app_nil_r | constructor]].
    apply bind_ret_inv in H as ([next new] & Hit & H). cbn [fst snd] in H.
    apply iteration_plausible in Hit as [Hnew _].
    destruct (50 <=? Comps.component_count (st ++ new)).
    + injection H as <-. now exists new.
    + apply IH in H as (new' & -> & Hnew').
      exists (new ++ new'). split; [now rewrite app_assoc | now apply Forall_app].
Qed.

Lemma parse_extends (data : list byte) (data_size start_offset : Z)
  (st st' : Comps.storage) :
  Comps.parse_comps_database data data_size start_offset st = Ret st' ->
  exists new, st' = st ++ new /\ Forall Recovery.plausible new.
Proof.
  unfold Comps.parse_comps_database. intros H.
  apply bind_ret_inv in H as ([offset fields] & _ & H).
  apply bind_ret_inv in H as ([dat idx] & _ & H).
  destruct (0 <? dat).
  - eapply records_loop_extends, H.
  - injection H as <-. exists []. split; [now rewrite app_nil_r | constructor].
Qed.

Lemma recover_extends (data : list byte) (st st' : Comps.storage) :
  Comps.recover data st = Ret st' ->
  exists new, st' = st ++ new /\ Forall Recovery.plausible new.
Proof.
  unfold Comps.recover. intros H.
  apply bind_ret_inv in H as (off & _ & H).
  destruct (0 <? off).
  - eapply parse_extends, H.
  - injection H as <-. exists []. split; [now rewrite app_nil_r | constructor].
Qed.

(** C9: every component that recovery emits has an identifier that is
    nonzero and below 65536 and a name whose length lies strictly between 3
    and 40, whatever the payload holds. *)
Theorem C9_emitted_components_are_plausible (payload : list byte)
  (comps : Comps.storage) :
  Comps.recover_components payload = Ret comps ->
  Forall (fun c => Comps.uid c <> 0 /\ Comps.uid c < 65536 /\
                   3 < len (Comps.name c) < 40) comps.
Proof.
  intros H. apply recover_extends in H as (new & -> & Hnew). cbn [app].
  eapply Forall_impl; [|exact Hnew].
  intros c [Hu Hn]. repeat split; lia.
Qed.

Lemma C9_emitted_components_are_plausible_witness :
  Forall (fun c => Comps.uid c <> 0 /\ Comps.uid c < 65536 /\
                   3 < len (Comps.name c) < 40) [Recovery.xvalve].
Proof.
  apply (C9_emitted_components_are_plausible
           (Recovery.roomy_payload x00 (zeros 4) 90) [Recovery.xvalve]).
  vm_compute. reflexivity.
Defined.

(** The record loop run from another storage: as long as the hard cap of 50
    is not met, it appends the same components. *)
Lemma records_loop_replay (data : list byte) (data_size : Z) :
  forall (fuel : nat) (current : Z) (a new : Comps.storage),
    Comps.records_loop fuel data data_size current a = Ret (a ++ new) ->
    len a + len new < 50 ->
    forall b : Comps.storage,
      len b + len new < 50 ->
      Comps.records_loop fuel data data_size current b = Ret (b ++ new).
Proof.
  assert (Hguard : forall (current : Z) (a b : Comps.storage),
             len a < 50 -> len b < 50 ->
             (current <? size_sub data_size Comps.record_size)
             && (Comps.component_count b <? Comps.MAX_COMPONENTS)
             = (current <? size_sub data_size Comps.record_size)
               && (Comps.component_count a <? Comps.MAX_COMPONENTS)).
  { intros current a b Ha Hb. unfold Comps.component_count, Comps.MAX_COMPONENTS.
    f_equal. transitivity true; [|symmetry]; apply Z.ltb_lt; lia. }
  induction fuel as [|fuel IH]; intros current a new H Ha b Hb.
  - pose proof (len_nonneg new).
    rewrite records_loop_zero in *. rewrite (Hguard current a b) by lia.
    destruct (_ && _); [discriminate|].
    injection H as H. rewrite <- (app_nil_r a) in H at 1.
    apply app_inv_head in H. subst new. now rewrite app_nil_r.
  - pose proof (len_nonneg new).
    rewrite records_loop_step in *. rewrite (Hguard current a b) by lia.
    destruct (_ && _).
    + apply bind_ret_inv in H as ([next new1] & Hit & H). rewrite Hit.
      cbn [bind fst snd] in *. unfold Comps.component_count in *.
      destruct (50 <=? len (a ++ new1)) eqn:Ea.
      * injection H as H. apply app_inv_head in H. subst new1.
        apply Z.leb_le in Ea. rewrite len_app in Ea. lia.
      * destruct (records_loop_extends _ _ _ _ _ _ H) as (new' & Heq & _).
        rewrite <- app_assoc in Heq. apply app_inv_head in Heq. subst new.
        rewrite len_app in Ha, Hb.
        assert (Eb : (50 <=? len (b ++ new1)) = false)
          by (apply Z.leb_gt; rewrite len_app; pose proof (len_nonneg new'); lia).
        rewrite Eb, !app_assoc. rewrite app_assoc in H.
        apply (IH _ _ _ H); rewrite len_app; lia.
    + injection H as H. rewrite <- (app_nil_r a) in H at 1.
      apply app_inv_head in H. subst new. now rewrite app_nil_r.
Qed.

Lemma recover_replay (data : list byte) (a new b : Comps.storage) :
  Comps.recover data a = Ret (a ++ new) ->
  len a + len new < 50 -> len b + len new < 50 ->
  Comps.recover data b = Ret (b ++ new).
Proof.
  unfold Comps.recover, Comps.parse_comps_database. intros H Ha Hb.
  assert (Hnil : forall s : Comps.storage, Ret s = Ret (s ++ new) -> new = []).
  { intros s Hs. injection Hs as Hs. rewrite <- (app_nil_r s) in Hs at 1.
    now apply app_inv_head in Hs. }
  apply bind_ret_inv in H as (off & Hoff & H). rewrite Hoff. cbn [bind].
  destruct (0 <? off); [|rewrite (Hnil _ H), app_nil_r; reflexivity].
  apply bind_ret_inv in H as ([offset fields] & Hf & H). rewrite Hf. cbn [bind].
  apply bind_ret_inv in H as ([dat idx] & Hm & H). rewrite Hm. cbn [bind].
  destruct (0 <? dat); [|rewrite (Hnil _ H), app_nil_r; reflexivity].
  apply (records_loop_replay _ _ _ _ _ _ H Ha _ Hb).
Qed.

(** C8, as the code has it: recovery is a function of the payload and of
    the global storage at entry.  Entered again in the same run, with the
    storage [st] left by earlier calls, it keeps [st] and appends the
    components it finds in a fresh run (while the cap of 50 is not met). *)
Theorem C8_recovery_appends_to_the_storage (payload : list byte)
  (c st : Comps.storage) :
  Comps.recover_components payload = Ret c ->
  len st + len c < 50 ->
  Comps.recover payload st = Ret (st ++ c).
Proof.
  intros H Hlen. unfold Comps.recover_components in H.
  pose proof (len_nonneg st).
  apply (recover_replay payload [] c st); [exact H | rewrite len_nil; lia | exact Hlen].
Qed.

Lemma C8_recovery_appends_to_the_storage_witness :
  Comps.recover (Recovery.roomy_payload x00 (zeros 4) 90) [Recovery.xvalve]
  = Ret ([Recovery.xvalve] ++ [Recovery.xvalve]).
Proof.
  apply (C8_recovery_appends_to_the_storage
           (Recovery.roomy_payload x00 (zeros 4) 90) [Recovery.xvalve] [Recovery.xvalve]).
  - vm_compute. reflexivity.
  - vm_compute. reflexivity.
Defined.

(** C8 as stated fails: the second invocation on the same payload in one run
    yields two components where the first yielded one. *)
Lemma C8_second_invocation_differs :
  exists first second,
    Comps.recover (Recovery.roomy_payload x00 (zeros 4) 90) [] = Ret first /\
    Comps.recover (Recovery.roomy_payload x00 (zeros 4) 90) first = Ret second /\
    Comps.component_count first = 1 /\ Comps.component_count second = 2 /\
    first <> second.
Proof.
  exists [Recovery.xvalve], [Recovery.xvalve; Recovery.xvalve].
  repeat split; try (vm_compute; reflexivity). discriminate.
Qed.

(** With the marker at offset 0 the guard [comps_offset > 0] of [main]
    skips the parse, whatever follows the marker. *)
Lemma marker_at_zero_recovers_nothing (rest : list byte) (st : Comps.storage) :
  Comps.recover (bytes "Comps" ++ rest) st = Ret st.
Proof.
  unfold Comps.recover. cbn [bytes list_byte_of_string String.list_ascii_of_string
                             map app Comps.find_comps].
  set (data := _ :: _). destruct (0 <? size_sub (len data) 5); [|reflexivity].
  assert (Hlen : (len data <? 5) = false).
  { apply Z.ltb_ge. unfold data. rewrite !len_cons. pose proof (len_nonneg rest). lia. }
  unfold data at 1. cbn [Comps.find_comps]. fold data. rewrite Hlen.
  reflexivity.
Qed.

(** The payload of the example has the marker at offset 0: for every
    padding, nothing is recovered from it. *)
Lemma example_payload_recovers_nothing (pad : list byte) :
  Comps.recover_components (Recovery.example_payload pad) = Ret [].
Proof.
  unfold Comps.recover_components, Recovery.example_payload, Recovery.field_table.
  rewrite <- app_assoc. apply marker_at_zero_recovers_nothing.
Qed.

(** ** The example scenario *)

Lemma find_comps_miss (c : byte) (next : list byte) (i bound : Z) :
  i < bound -> 5 <= len (c :: next) -> firstn 5 (c :: next) <> bytes "Comps" ->
  Comps.find_comps (c :: next) i bound = Comps.find_comps next (i + 1) bound.
Proof.
  intros Hi Hlen Hne. cbn [Comps.find_comps].
  rewrite (proj2 (Z.ltb_lt _ _) Hi), (proj2 (Z.ltb_ge _ _) Hlen).
  destruct (bytes_eqb _ _) eqn:E; [apply bytes_eqb_eq in E; contradiction | reflexivity].
Qed.

Lemma find_comps_hit (c : byte) (next : list byte) (i bound : Z) :
  i < bound -> 5 <= len (c :: next) -> firstn 5 (c :: next) = bytes "Comps" ->
  Comps.find_comps (c :: next) i bound = Ret i.
Proof.
  intros Hi Hlen Heq. cbn [Comps.find_comps].
  rewrite (proj2 (Z.ltb_lt _ _) Hi), (proj2 (Z.ltb_ge _ _) Hlen).
  rewrite (proj2 (bytes_eqb_eq _ _) Heq). reflexivity.
Qed.

Lemma fields_loop_step (n : nat) (data : list byte) (data_size offset : Z)
  (fields : list (list byte)) :
  Comps.fields_loop (S n) data data_size offset fields =
  if offset <? data_size then
    field <- Comps.read_string data offset 50 ;;
    if len field =? 0 then Ret (offset, fields)
    else Comps.fields_loop n data data_size (size_add offset (len field + 1))
                           (fields ++ [field])
  else Ret (offset, fields).
Proof. reflexivity. Qed.

Lemma markers_loop_step (a b c d : byte) (l : list byte) (i bound dat idx : Z) :
  i < bound ->
  Comps.markers_loop (a :: b :: c :: d :: l) i bound dat idx =
  let dat' := if bytes_eqb [a; b; c; d] (bytes ".dat") then size_add i 8 else dat in
  if bytes_eqb [a; b; c; d] (bytes ".idx") then Ret (dat', size_add i 8)
  else Comps.markers_loop (b :: c :: d :: l) (i + 1) bound dat' idx.
Proof.
  intros Hi. cbn [Comps.markers_loop]. rewrite (proj2 (Z.ltb_lt _ _) Hi).
  assert (Hlen : (len (a :: b :: c :: d :: l) <? 4) = false).
  { apply Z.ltb_ge. rewrite !len_cons. pose proof (len_nonneg l). lia. }
  rewrite Hlen. reflexivity.
Qed.

Lemma markers_loop_zeros :
  forall (m : nat) (i bound dat idx : Z),
    bound - i + 3 <= Z.of_nat m ->
    Comps.markers_loop (zeros m) i bound dat idx = Ret (dat, idx).
Proof.
  induction m as [|m IH]; intros i bound dat idx Hm.
  - cbn. destruct (i <? bound) eqn:E; [apply Z.ltb_lt in E; lia | reflexivity].
  - destruct (Z.lt_ge_cases i bound) as [Hlt|Hge].
    + destruct m as [|[|[|m]]]; try lia.
      change (zeros (S (S (S (S m))))) with (x00 :: x00 :: x00 :: x00 :: zeros m).
      rewrite markers_loop_step by assumption.
      change (x00 :: x00 :: x00 :: zeros m) with (zeros (S (S (S m)))).
      cbv zeta.
      replace (bytes_eqb [x00; x00; x00; x00] (bytes ".dat")) with false by reflexivity.
      replace (bytes_eqb [x00; x00; x00; x00] (bytes ".idx")) with false by reflexivity.
      apply IH. lia.
    + cbn [zeros repeat Comps.markers_loop].
      rewrite (proj2 (Z.ltb_ge _ _) Hge). reflexivity.
Qed.

Lemma read_uint32_le_zero (data : list byte) (offset : Z) :
  byte_at data offset = Some x00 -> byte_at data (offset + 1) = Some x00 ->
  byte_at data (offset + 2) = Some x00 -> byte_at data (offset + 3) = Some x00 ->
  Comps.read_uint32_le data offset = Ret 0.
Proof.
  intros H0 H1 H2 H3. unfold Comps.read_uint32_le. rewrite H0, H1, H2, H3.
  reflexivity.
Qed.

(** Over a region of zero bytes the record loop finds nothing. *)
Lemma records_loop_zero_region (data : list byte) (lo : Z) :
  len data < 2 ^ 63 -> 100 <= len data ->
  (forall q, lo <= q < len data -> byte_at data q = Some x00) ->
  forall (fuel : nat) (current : Z) (st : Comps.storage),
    lo <= current -> 0 <= current -> len st < 50 ->
    len data - current <= Z.of_nat fuel ->
    Comps.records_loop fuel data (len data) current st = Ret st.
Proof.
  intros Hsize Hbig Hzero.
  assert (Hbound : size_sub (len data) Comps.record_size = len data - 100).
  { apply size_sub_small. unfold Comps.record_size. lia. }
  induction fuel as [|fuel IH]; intros current st Hlo Hcur Hst Hfuel.
  - rewrite records_loop_zero, Hbound.
    destruct (current <? len data - 100) eqn:E; [apply Z.ltb_lt in E; lia | reflexivity].
  - rewrite records_loop_step, Hbound.
    destruct (current <? len data - 100) eqn:E; [|reflexivity].
    apply Z.ltb_lt in E.
    assert (Hc : (Comps.component_count st <? Comps.MAX_COMPONENTS) = true).
    { apply Z.ltb_lt. unfold Comps.component_count, Comps.MAX_COMPONENTS. lia. }
    rewrite Hc. cbn [andb]. unfold Recovery.iteration.
    rewrite read_uint32_le_zero by (apply Hzero; lia).
    cbn [bind Z.ltb Z.compare andb fst snd]. rewrite app_nil_r.
    assert (Hcap : (50 <=? Comps.component_count st) = false).
    { apply Z.leb_gt. unfold Comps.component_count. lia. }
    rewrite Hcap, size_add_small by lia.
    apply IH; lia.
Qed.

Lemma byte_at_zeros_tail (p : list byte) (k : nat) (q : Z) :
  len p <= q < len (p ++ zeros k) -> byte_at (p ++ zeros k) q = Some x00.
Proof.
  intros Hq. rewrite len_app in Hq. pose proof (len_nonneg p). unfold byte_at.
  destruct (q <? 0) eqn:E; [apply Z.ltb_lt in E; lia|].
  unfold len in *. rewrite nth_error_app2 by lia.
  unfold zeros in *. rewrite repeat_length in Hq.
  apply nth_error_repeat. lia.
Qed.

Lemma byte_at_shift (x y : list byte) (j : Z) :
  0 <= j -> byte_at (x ++ y) (len x + j) = byte_at y j.
Proof.
  intros Hj. unfold byte_at. pose proof (len_nonneg x).
  destruct (len x + j <? 0) eqn:E1; [apply Z.ltb_lt in E1; lia|].
  destruct (j <? 0) eqn:E2; [apply Z.ltb_lt in E2; lia|].
  unfold len in *. rewrite nth_error_app2 by lia. f_equal. lia.
Qed.

Lemma read_string_loop_shift (x y : list byte) :
  forall (n : nat) (j : Z),
    0 <= j ->
    Comps.read_string_loop n (x ++ y) (len x + j) = Comps.read_string_loop n y j.
Proof.
  induction n as [|n IH]; intros j Hj; [reflexivity|].
  cbn [Comps.read_string_loop]. rewrite byte_at_shift by assumption.
  destruct (byte_at y j) as [b|]; [|reflexivity]. cbn [of_read bind].
  destruct (Byte.eqb b NUL); [reflexivity|].
  rewrite <- Z.add_assoc, IH by lia. reflexivity.
Qed.

Lemma read_string_shift (x y : list byte) (j max_len : Z) :
  0 <= j -> Comps.read_string (x ++ y) (len x + j) max_len = Comps.read_string y j max_len.
Proof. intros Hj. apply read_string_loop_shift, Hj. Qed.

Lemma read_uint32_le_shift (x y : list byte) (j : Z) :
  0 <= j -> Comps.read_uint32_le (x ++ y) (len x + j) = Comps.read_uint32_le y j.
Proof.
  intros Hj. unfold Comps.read_uint32_le.
  rewrite <- !Z.add_assoc, !byte_at_shift by lia. reflexivity.
Qed.

Lemma markers_loop_skip_zeros (l : list byte) (bound : Z) :
  3 <= len l ->
  forall (m : nat) (i dat idx : Z),
    i + Z.of_nat m <= bound ->
    Comps.markers_loop (zeros m ++ l) i bound dat idx =
    Comps.markers_loop l (i + Z.of_nat m) bound dat idx.
Proof.
  intros Hl. induction m as [|m IH]; intros i dat idx Hm.
  - cbn [zeros repeat app]. f_equal. lia.
  - change (zeros (S m) ++ l) with (x00 :: (zeros m ++ l)).
    cbn [Comps.markers_loop].
    rewrite (proj2 (Z.ltb_lt i bound)) by lia.
    assert (Hlen : (len (x00 :: zeros m ++ l) <? 4) = false).
    { apply Z.ltb_ge. rewrite len_cons, len_app. pose proof (len_nonneg (zeros m)). lia. }
    rewrite Hlen.
    assert (Hno : forall lit, hd x00 lit <> x00 -> lit <> [] ->
                    bytes_eqb (firstn 4 (x00 :: zeros m ++ l)) lit = false).
    { intros lit Hhd Hne. destruct (bytes_eqb _ lit) eqn:E; [|reflexivity].
      apply bytes_eqb_eq in E. subst lit. cbn in Hhd. contradiction. }
    rewrite !Hno by (cbn; discriminate).
    rewrite IH by lia. f_equal. lia.
Qed.

Lemma len_zeros (m : nat) : len (zeros m) = Z.of_nat m.
Proof. unfold len, zeros. now rewrite repeat_length. Qed.

(** What the recovery does behind a marker it accepts: with one byte before
    the marker, any number of zero bytes as padding, and at least 90 zero
    bytes behind the name, so that more than 100 bytes follow the
    identifier, it returns exactly the component with identifier 5 and name
    "XValve". *)
Lemma roomy_example_recovers_xvalve (lead : byte) (p n : nat) :
  (90 <= n)%nat -> Z.of_nat p + Z.of_nat n < 2 ^ 62 ->
  Comps.recover_components (Recovery.roomy_payload lead (zeros p) n)
  = Ret [Recovery.xvalve].
Proof.
  intros Hn Hsmall.
  replace n with (90 + (n - 90))%nat by lia.
  assert (Hk : Z.of_nat p + Z.of_nat (n - 90) < 2 ^ 62) by lia.
  generalize dependent (n - 90)%nat. clear n Hn Hsmall. intros k Hk.
  unfold Comps.recover_components, Comps.recover.
  set (data := Recovery.roomy_payload lead (zeros p) (90 + k)).
  set (y := Recovery.data_section ++ zeros (90 + k)).
  assert (Hxy : data = ((lead :: Recovery.field_table) ++ zeros p) ++ y).
  { unfold data, y, Recovery.roomy_payload, Recovery.example_payload.
    rewrite <- !app_comm_cons, <- !app_assoc. reflexivity. }
  assert (Hx : len ((lead :: Recovery.field_table) ++ zeros p) = 16 + Z.of_nat p).
  { rewrite len_app, len_zeros. reflexivity. }
  assert (Hy : len y = 109 + Z.of_nat k).
  { unfold y. rewrite len_app, len_zeros. change (len Recovery.data_section) with 19. lia. }
  assert (Hlen : len data = 125 + Z.of_nat p + Z.of_nat k).
  { rewrite Hxy, len_app, Hx, Hy. lia. }
  assert (Hzero : forall q, 35 + Z.of_nat p <= q < len data -> byte_at data q = Some x00).
  { intros q Hq.
    assert (Hd : data = ((lead :: Recovery.field_table) ++ zeros p ++ Recovery.data_section) ++ zeros (90 + k)).
    { rewrite Hxy. unfold y. rewrite <- !app_assoc. reflexivity. }
    revert Hq. rewrite Hd. intros Hq. apply byte_at_zeros_tail. split; [|exact (proj2 Hq)].
    rewrite app_assoc, len_app, Hx. change (len Recovery.data_section) with 19. lia. }
  assert (Hfuel : List.length data = S (124 + p + k)).
  { unfold len in Hlen. lia. }
  rewrite Hlen.
  remember (zeros p ++ y) as rest eqn:Hrest.
  assert (Hform : data =
    ltac:(let t := eval cbv in ((lead :: Recovery.field_table) ++ rest) in exact t)).
  { rewrite Hxy, Hrest, <- app_assoc. reflexivity. }
  rewrite !size_sub_small by lia.
  (* the marker search of main *)
  assert (Hfind : Comps.find_comps data 0 (125 + Z.of_nat p + Z.of_nat k - 5) = Ret 1).
  { rewrite Hform.
    rewrite find_comps_miss;
      [| lia | rewrite !len_cons; pose proof (len_nonneg rest); lia
       | cbn [firstn]; intros H; discriminate H].
    apply find_comps_hit;
      [lia | rewrite !len_cons; pose proof (len_nonneg rest); lia | reflexivity]. }
  rewrite Hfind. cbn [bind Z.ltb Z.compare].
  unfold Comps.parse_comps_database.
  rewrite size_add_small by lia.
  (* the field table *)
  assert (Hfields : Comps.fields_loop 20 data (125 + Z.of_nat p + Z.of_nat k) (1 + 6) []
                    = Ret (15, [bytes "Id"; bytes "Name"])).
  { assert (R1 : Comps.read_string data 7 50 = Ret (bytes "Id"))
      by (rewrite Hform; vm_compute; reflexivity).
    assert (R2 : Comps.read_string data 10 50 = Ret (bytes "Name"))
      by (rewrite Hform; vm_compute; reflexivity).
    assert (R3 : Comps.read_string data 15 50 = Ret [])
      by (rewrite Hform; vm_compute; reflexivity).
    assert (G : forall o, o < 125 -> (o <? 125 + Z.of_nat p + Z.of_nat k) = true)
      by (intros o Ho; apply Z.ltb_lt; lia).
    change (1 + 6) with 7.
    rewrite fields_loop_step, G, R1 by lia. cbn [bind].
    change (len (bytes "Id") =? 0) with false. cbv iota.
    change (size_add 7 (len (bytes "Id") + 1)) with 10.
    rewrite fields_loop_step, G, R2 by lia. cbn [bind].
    change (len (bytes "Name") =? 0) with false. cbv iota.
    change (size_add 10 (len (bytes "Name") + 1)) with 15.
    rewrite fields_loop_step, G, R3 by lia. reflexivity. }
  rewrite Hfields. cbn [bind].
  (* the data and index markers *)
  rewrite size_sub_small by lia.
  assert (Hmarkers : Comps.markers_loop (skipn (Z.to_nat 15) data) 15
                       (125 + Z.of_nat p + Z.of_nat k - 10) 0 0
                     = Ret (24 + Z.of_nat p, 0)).
  { rewrite Hform. change (Z.to_nat 15) with 15%nat. cbn [skipn].
    rewrite Hrest. change (x00 :: zeros p ++ y) with (zeros (S p) ++ y).
    rewrite markers_loop_skip_zeros by lia.
    unfold y. 
    match goal with
    | |- Comps.markers_loop ?l _ _ _ _ = _ =>
        let t := eval cbv in (Recovery.data_section ++ zeros 90) in
        change l with (t ++ zeros k)
    end.
    cbn [app].
    do 19 (rewrite markers_loop_step by lia; cbv zeta;
           repeat match goal with
             | |- context [bytes_eqb ?a ?b] =>
                 let v := eval vm_compute in (bytes_eqb a b) in
                 change (bytes_eqb a b) with v
             end;
           cbv iota).
    match goal with
    | |- Comps.markers_loop ?l _ _ _ _ = _ => change l with (zeros (90 + k))
    end.
    rewrite markers_loop_zeros by lia.
    rewrite size_add_small by lia. do 2 f_equal. lia. }
  rewrite Hmarkers. cbn [bind].
  assert (Hpos : (0 <? 24 + Z.of_nat p) = true) by (apply Z.ltb_lt; lia).
  rewrite Hpos.
  (* the record at the data offset *)
  assert (Hiter : Recovery.iteration data (125 + Z.of_nat p + Z.of_nat k) (24 + Z.of_nat p)
                  = Ret (58 + Z.of_nat p, [Recovery.xvalve])).
  { unfold Recovery.iteration.
    assert (Hy90 : y = ltac:(let t := eval cbv in (Recovery.data_section ++ zeros 90) in exact t) ++ zeros k).
    { unfold y, zeros. rewrite repeat_app, app_assoc. reflexivity. }
    assert (R1 : Comps.read_uint32_le data (24 + Z.of_nat p) = Ret 5).
    { replace (24 + Z.of_nat p) with (len ((lead :: Recovery.field_table) ++ zeros p) + 8) by lia.
      rewrite Hxy, read_uint32_le_shift by lia.
      rewrite Hy90. vm_compute. reflexivity. }
    assert (R2 : byte_at data (28 + Z.of_nat p) = Some "X"%byte).
    { replace (28 + Z.of_nat p) with (len ((lead :: Recovery.field_table) ++ zeros p) + 12) by lia.
      rewrite Hxy, byte_at_shift by lia.
      rewrite Hy90. vm_compute. reflexivity. }
    assert (R3 : Comps.read_string data (28 + Z.of_nat p) 50 = Ret (bytes "XValve")).
    { replace (28 + Z.of_nat p) with (len ((lead :: Recovery.field_table) ++ zeros p) + 12) by lia.
      rewrite Hxy, read_string_shift by lia.
      rewrite Hy90. vm_compute. reflexivity. }
    rewrite R1. cbn [bind].
    change ((0 <? 5) && (5 <? 65536)) with true. cbv iota.
    rewrite !size_add_small by (unfold Comps.record_size; lia).
    replace (24 + Z.of_nat p + 4) with (28 + Z.of_nat p) by lia.
    rewrite name_loop_step, size_sub_small by lia.
    assert (G : (28 + Z.of_nat p <? 24 + Z.of_nat p + Comps.record_size)
                && (28 + Z.of_nat p <? 125 + Z.of_nat p + Z.of_nat k - 50) = true).
    { apply andb_true_iff. unfold Comps.record_size. split; apply Z.ltb_lt; lia. }
    rewrite G, R2. cbn [of_read bind].
    change ((u8 "A" <=? u8 "X") && (u8 "X" <=? u8 "z")) with true. cbv iota.
    rewrite R3. cbn [bind].
    change ((3 <? len (bytes "XValve")) && (len (bytes "XValve") <? 40)) with true.
    cbv iota. cbn [bind].
    change (len (bytes "XValve")) with 6.
    rewrite (size_add_small (28 + Z.of_nat p) 6) by lia.
    rewrite (size_add_small (28 + Z.of_nat p + 6) 20) by lia.
    rewrite (size_add_small (28 + Z.of_nat p + 6 + 20) 4) by lia.
    do 2 f_equal. lia. }
  rewrite records_loop_step, size_sub_small by (unfold Comps.record_size; lia).
  assert (G : (24 + Z.of_nat p <? 125 + Z.of_nat p + Z.of_nat k - Comps.record_size) = true)
    by (apply Z.ltb_lt; unfold Comps.record_size; lia).
  rewrite G, Hiter. cbn [andb bind fst snd app].
  change (Comps.component_count [] <? Comps.MAX_COMPONENTS) with true.
  change (50 <=? Comps.component_count [Recovery.xvalve]) with false.
  cbv iota. rewrite <- Hlen.
  apply (records_loop_zero_region data (35 + Z.of_nat p)); try lia.
  - exact Hzero.
  - reflexivity.
Qed.

Lemma roomy_example_recovers_xvalve_example :
  Comps.recover_components (Recovery.roomy_payload x00 (zeros 4) 90)
  = Ret [Recovery.xvalve].
Proof.
  apply (roomy_example_recovers_xvalve x00 4 90).
  - lia.
  - vm_compute. reflexivity.
Qed.

(** With 89 zero bytes behind the name the record loop is not entered. *)
Lemma roomy_example_needs_ninety_bytes :
  Comps.recover_components (Recovery.roomy_payload x00 (zeros 4) 89) = Ret [].
Proof. vm_compute. reflexivity. Qed.

(** Without room behind the name the subtraction [data_size - record_size]
    wraps around and the record loop reads past the end of the block. *)
Lemma short_example_reads_past_the_end :
  Comps.recover_components (x00 :: Recovery.example_payload (zeros 4)) = Undef.
Proof. vm_compute. reflexivity. Qed.

(** C1: the defects of the code on the payload of the example.  The marker
    sits at offset 0; the search of [main] starts at [i = 0] and stores the
    offset in [comps_offset], whose value 0 also means that no marker was
    found, so the guard [comps_offset > 0] skips [parse_comps_database] and
    no component is recovered.  Behind one leading byte the marker is
    accepted, but the payload is shorter than 100 bytes:
    [data_size - record_size] wraps around in [size_t], the record loop
    runs on and reads behind the end of the block. *)
Lemma C1_example_payload_recovers_nothing :
  Recovery.example_payload (zeros 4) =
    bytes "Comps" ++ [NUL] ++ bytes "Id" ++ [NUL] ++ bytes "Name" ++ [NUL] ++ [NUL]
      ++ zeros 4 ++ bytes ".dat" ++ zeros 4 ++ [x05; x00; x00; x00]
      ++ bytes "XValve" ++ [NUL] /\
  Comps.find_comps (Recovery.example_payload (zeros 4)) 0
                   (size_sub (len (Recovery.example_payload (zeros 4))) 5) = Ret 0 /\
  Comps.recover_components (Recovery.example_payload (zeros 4)) = Ret [] /\
  len (x00 :: Recovery.example_payload (zeros 4)) = 39 /\
  size_sub (len (x00 :: Recovery.example_payload (zeros 4))) Comps.record_size
    = 2 ^ 64 - 61 /\
  Comps.recover_components (x00 :: Recovery.example_payload (zeros 4)) = Undef.
Proof. repeat split; vm_compute; reflexivity. Qed.

(** ** The steps granted to the loops of the recovery are enough *)

Lemma byte_at_some (data : list byte) (off : Z) (b : byte) :
  byte_at data off = Some b -> 0 <= off < len data.
Proof.
  unfold byte_at. destruct (off <? 0) eqn:E; [discriminate|].
  apply Z.ltb_ge in E. intros H.
  assert (Hlt : (Z.to_nat off < List.length data)%nat)
    by (apply nth_error_Some; congruence).
  unfold len. lia.
Qed.

Lemma read_string_loop_ends (data : list byte) :
  forall (n : nat) (pos : Z), Comps.read_string_loop n data pos <> Fuel.
Proof.
  induction n as [|n IH]; intros pos; [discriminate|].
  cbn [Comps.read_string_loop].
  destruct (byte_at data pos) as [b|]; [|discriminate]. cbn [of_read bind].
  destruct (Byte.eqb b NUL); [discriminate|].
  specialize (IH (pos + 1)).
  destruct (Comps.read_string_loop n data (pos + 1)); [discriminate | discriminate | contradiction].
Qed.

Lemma name_loop_ends (data : list byte) (data_size limit : Z) :
  forall (n : nat) (j : Z),
    limit - j <= Z.of_nat n -> Comps.name_loop n data data_size limit j <> Fuel.
Proof.
  induction n as [|n IH]; intros j Hn.
  - cbn [Comps.name_loop].
    destruct (j <? limit) eqn:E; [apply Z.ltb_lt in E; lia | discriminate].
  - rewrite name_loop_step.
    destruct ((j <? limit) && (j <? size_sub data_size 50)); [|discriminate].
    destruct (byte_at data j) as [c|]; [|discriminate]. cbn [of_read bind].
    assert (Hnext : Comps.name_loop n data data_size limit (j + 1) <> Fuel)
      by (apply IH; lia).
    destruct ((u8 "A"%byte <=? u8 c) && (u8 c <=? u8 "z"%byte)); [|exact Hnext].
    pose proof (read_string_loop_ends data (Z.to_nat (Z.min (Comps.MAX_STRING_LEN - 1) 50)) j) as Hrs.
    unfold Comps.read_string.
    destruct (Comps.read_string_loop _ data j) as [s| |];
      [|discriminate|contradiction].
    cbn [bind]. destruct ((3 <? len s) && (len s <? 40)); [discriminate | exact Hnext].
Qed.

Lemma name_loop_position (data : list byte) (data_size limit : Z) :
  forall (n : nat) (j p : Z) (nm : list byte),
    Comps.name_loop n data data_size limit j = Ret (Some (p, nm)) ->
    j <= p < len data.
Proof.
  induction n as [|n IH]; intros j p nm H.
  - cbn in H. destruct ((j <? limit) && (j <? size_sub data_size 50)); discriminate.
  - rewrite name_loop_step in H.
    destruct ((j <? limit) && (j <? size_sub data_size 50)); [|discriminate].
    apply bind_ret_inv in H as (c & Hc & H).
    assert (Hj : 0 <= j < len data).
    { destruct (byte_at data j) eqn:E; [|discriminate]. eapply byte_at_some, E. }
    assert (Hrec : Comps.name_loop n data data_size limit (j + 1)
                   = Ret (Some (p, nm)) -> j <= p < len data)
      by (intros Hr; apply IH in Hr; lia).
    destruct ((u8 "A"%byte <=? u8 c) && (u8 c <=? u8 "z"%byte)); [|exact (Hrec H)].
    apply bind_ret_inv in H as (s & _ & H).
    destruct ((3 <? len s) && (len s <? 40)); [|exact (Hrec H)].
    injection H as <- _. lia.
Qed.

(** An iteration of the record loop that returns has read inside the block
    and moves [current] forward. *)
Lemma iteration_ends (data : list byte) (data_size current : Z) :
  len data < 2 ^ 63 ->
  match Recovery.iteration data data_size current with
  | Ret (next, _) => 0 <= current /\ current + 3 < len data /\ current < next
  | Undef => True
  | Fuel => False
  end.
Proof.
  intros Hsize. unfold Recovery.iteration, Comps.read_uint32_le.
  destruct (byte_at data current) as [b0|] eqn:E0; [|exact I].
  destruct (byte_at data (current + 1)) as [b1|]; [|exact I].
  destruct (byte_at data (current + 2)) as [b2|]; [|exact I].
  destruct (byte_at data (current + 3)) as [b3|] eqn:E3; [|exact I].
  apply byte_at_some in E0. apply byte_at_some in E3. cbn [of_read bind].
  set (u := _ mod _).
  assert (H4 : size_add current 4 = current + 4) by (apply size_add_small; lia).
  assert (H100 : size_add current Comps.record_size = current + 100)
    by (apply size_add_small; unfold Comps.record_size; lia).
  destruct ((0 <? u) && (u <? 65536)); cbn [bind]; [|rewrite H4; lia].
  rewrite H4, H100.
  pose proof (name_loop_ends data data_size (current + 100) 100 (current + 4)
                ltac:(lia)) as Hends.
  destruct (Comps.name_loop 100 data data_size (current + 100) (current + 4))
    as [[[j nm]|]| |] eqn:En; cbn [bind]; [| lia | exact I | contradiction].
  pose proof (name_loop_position _ _ _ _ _ _ _ En) as Hj.
  pose proof (name_loop_accepts _ _ _ _ _ _ _ En) as Hnm.
  rewrite (size_add_small j) by lia.
  rewrite (size_add_small (j + len nm)) by lia.
  rewrite (size_add_small (j + len nm + 20)) by lia.
  lia.
Qed.

Lemma records_loop_ends (data : list byte) (data_size : Z) :
  len data < 2 ^ 63 ->
  forall (fuel : nat) (current : Z) (st : Comps.storage),
    (1 <= fuel)%nat -> len data - current < Z.of_nat fuel ->
    Comps.records_loop fuel data data_size current st <> Fuel.
Proof.
  intros Hsize. induction fuel as [|fuel IH]; intros current st H1 Hfuel; [lia|].
  rewrite records_loop_step. destruct (_ && _); [|discriminate].
  pose proof (iteration_ends data data_size current Hsize) as Hit.
  destruct (Recovery.iteration data data_size current) as [[next new]| |];
    [|discriminate|contradiction].
  cbn [bind fst snd]. destruct (50 <=? _); [discriminate|].
  apply IH; lia.
Qed.

Lemma markers_loop_ends :
  forall (at_i : list byte) (i bound dat idx : Z),
    match Comps.markers_loop at_i i bound dat idx with
    | Ret (dat', _) => 0 <= dat -> 0 <= dat'
    | Undef => True
    | Fuel => False
    end.
Proof.
  induction at_i as [|b at_i IH]; intros i bound dat idx; cbn [Comps.markers_loop].
  - destruct (i <? bound); [exact I | auto].
  - destruct (i <? bound); [|auto].
    destruct (len (b :: at_i) <? 4); [exact I|].
    assert (Hadd : 0 <= size_add i 8)
      by (unfold size_add, SIZE_MAX1; apply Z.mod_pos_bound; lia).
    destruct (bytes_eqb (firstn 4 (b :: at_i)) (bytes ".idx")).
    + destruct (bytes_eqb _ _); auto.
    + specialize (IH (i + 1) bound
                     (if bytes_eqb (firstn 4 (b :: at_i)) (bytes ".dat")
                      then size_add i 8 else dat) idx).
      destruct (Comps.markers_loop at_i _ _ _ _) as [[d x]| |]; auto.
      intros Hdat. apply IH. destruct (bytes_eqb _ _); assumption.
Qed.

Lemma fields_loop_ends (data : list byte) (data_size : Z) :
  forall (n : nat) (offset : Z) (fields : list (list byte)),
    Comps.fields_loop n data data_size offset fields <> Fuel.
Proof.
  induction n as [|n IH]; intros offset fields; [discriminate|].
  cbn [Comps.fields_loop]. destruct (offset <? data_size); [|discriminate].
  pose proof (read_string_loop_ends data (Z.to_nat (Z.min (Comps.MAX_STRING_LEN - 1) 50)) offset) as Hrs.
  unfold Comps.read_string.
  destruct (Comps.read_string_loop _ data offset) as [s| |];
    [|discriminate|contradiction].
  cbn [bind]. destruct (len s =? 0); [discriminate | apply IH].
Qed.

Lemma find_comps_ends :
  forall (at_i : list byte) (i bound : Z), Comps.find_comps at_i i bound <> Fuel.
Proof.
  induction at_i as [|b at_i IH]; intros i bound; cbn [Comps.find_comps].
  - destruct (i <? bound); discriminate.
  - destruct (i <? bound); [|discriminate].
    destruct (len (b :: at_i) <? 5); [discriminate|].
    destruct (bytes_eqb _ _); [discriminate | apply IH].
Qed.

(** Recovery on a loaded block always ends: with a storage, or at a read
    outside the block. *)
Lemma recover_ends (data : list byte) (st : Comps.storage) :
  len data < 2 ^ 63 -> Comps.recover data st <> Fuel.
Proof.
  intros Hsize. unfold Comps.recover.
  pose proof (find_comps_ends data 0 (size_sub (len data) 5)) as Hfind.
  destruct (Comps.find_comps data 0 _) as [off| |]; [|discriminate|contradiction].
  cbn [bind]. destruct (0 <? off); [|discriminate].
  unfold Comps.parse_comps_database.
  pose proof (fields_loop_ends data (len data) 20 (size_add off 6) []) as Hfields.
  destruct (Comps.fields_loop 20 data (len data) _ []) as [[offset fields]| |];
    [|discriminate|contradiction].
  cbn [bind].
  pose proof (markers_loop_ends (skipn (Z.to_nat offset) data) offset
                (size_sub (len data) 10) 0 0) as Hmarkers.
  destruct (Comps.markers_loop _ offset _ 0 0) as [[dat idx]| |];
    [|discriminate|contradiction].
  cbn [bind]. destruct (0 <? dat); [|discriminate].
  apply records_loop_ends; [assumption | lia |].
  specialize (Hmarkers ltac:(lia)). unfold len. lia.
Qed.

Lemma read_text_header_total (file : list byte) :
  exists r, Parser.read_text_header file = Ret r.
Proof.
  unfold Parser.read_text_header.
  assert (H : forall (fuel : nat) (rest : list byte) (cur pos lines : Z),
             (List.length rest < fuel)%nat ->
             exists r, Parser.header_loop fuel rest cur pos lines = Ret r).
  { induction fuel as [|fuel IH]; intros rest cur pos lines Hfuel; [lia|].
    rewrite header_loop_step. unfold fgets.
    destruct (fgets_chars (Z.to_nat (Parser.BUFFER_SIZE - 1)) rest)
      as [|c line] eqn:E.
    - eexists. reflexivity.
    - destruct (negb (Parser.is_text (c :: line))); [eexists; reflexivity|].
      apply IH. rewrite length_skipn.
      destruct rest as [|r rest]; [discriminate E|].
      cbn [List.length] in *. lia. }
  apply H. lia.
Qed.

(** The extractor, splitter and scan together, ends on every file. *)
Lemma extractor_main_total (w : Extractor.world) (file : list byte) :
  len file < 2 ^ 63 ->
  exists binary_start st, Extractor.main w file = Ret (binary_start, st).
Proof.
  intros Hsize. unfold Extractor.main.
  destruct (find_binary_start_total file) as (v & Hv). rewrite Hv. cbn [bind].
  assert (Hnn : 0 <= v).
  { unfold Extractor.find_binary_start in Hv.
    eapply binary_start_loop_nonneg; [|exact Hv]. lia. }
  destruct (extractor_scan_terminates w file v Hsize Hnn) as (st & Hst).
  rewrite Hst. now exists v, st.
Qed.

(** * Further properties of the code *)

(** ** Component recovery: words, strings, caps *)

Lemma u8_range (b : byte) : 0 <= u8 b < 256.
Proof.
  unfold u8. pose proof (Byte.to_N_bounded b). lia.
Qed.

Lemma land_shiftl_disjoint (a b n : Z) :
  0 <= n -> 0 <= a < 2 ^ n -> Z.land a (Z.shiftl b n) = 0.
Proof.
  intros Hn Ha. apply Z.bits_inj'. intros k Hk.
  rewrite Z.land_spec, Z.bits_0.
  destruct (Z.lt_ge_cases k n) as [Hlt|Hge].
  - rewrite (Z.shiftl_spec_low b n k Hlt). apply andb_false_r.
  - destruct (Z.eq_dec a 0) as [->|Hne]; [now rewrite Z.bits_0|].
    rewrite (Z.bits_above_log2 a k); [reflexivity | lia |].
    assert (Z.log2 a < n) by (apply Z.log2_lt_pow2; lia). lia.
Qed.

Lemma lor_shiftl_add (a b n : Z) :
  0 <= n -> 0 <= a < 2 ^ n ->
  Z.lor a (Z.shiftl b n) = a + b * 2 ^ n.
Proof.
  intros Hn Ha.
  pose proof (land_shiftl_disjoint a b n Hn Ha) as Hd.
  rewrite <- Z.lxor_lor by exact Hd.
  rewrite <- Z.add_nocarry_lxor by exact Hd.
  now rewrite Z.shiftl_mul_pow2.
Qed.

Lemma byte_at_skipn (data : list byte) (off k : Z) :
  0 <= off -> 0 <= k ->
  byte_at data (off + k) = nth_error (skipn (Z.to_nat off) data) (Z.to_nat k).
Proof.
  intros Hoff Hk. unfold byte_at.
  destruct (off + k <? 0) eqn:E; [apply Z.ltb_lt in E; lia|].
  replace (Z.to_nat (off + k)) with (Z.to_nat off + Z.to_nat k)%nat by lia.
  generalize (Z.to_nat off) as m, (Z.to_nat k) as j. clear. intros m j. revert data.
  induction m as [|m IH]; intros data; [reflexivity|].
  destruct data; [now destruct j|]. apply IH.
Qed.

Lemma byte_at_fread4 (data : list byte) (off : Z) (b0 b1 b2 b3 : byte) :
  0 <= off -> fread data off 4 = [b0; b1; b2; b3] ->
  byte_at data off = Some b0 /\ byte_at data (off + 1) = Some b1 /\
  byte_at data (off + 2) = Some b2 /\ byte_at data (off + 3) = Some b3.
Proof.
  intros Hoff H. unfold fread in H. change (Z.to_nat 4) with 4%nat in H.
  rewrite <- (Z.add_0_r off) at 1.
  rewrite !byte_at_skipn by lia.
  destruct (skipn (Z.to_nat off) data) as [|c0 [|c1 [|c2 [|c3 l]]]]; try discriminate.
  cbn in H. injection H as -> -> -> ->. repeat split.
Qed.

Lemma byte_at_none (data : list byte) (off : Z) :
  off < 0 \/ len data <= off -> byte_at data off = None.
Proof.
  intros H. unfold byte_at. destruct (off <? 0) eqn:E; [reflexivity|].
  apply Z.ltb_ge in E. apply nth_error_None. unfold len in H. lia.
Qed.

(** X1 ([read_uint32_le]): the four bytes at [off] are combined little-endian,
    the first byte being the least significant; the result is below 2^32.
    The read is undefined as soon as one of the four bytes lies outside the
    buffer: the function has no length parameter and checks nothing.  (For
    a fourth byte of 0x80 or more the C expression shifts into the sign bit
    of [int]; the value is the one the conversion to [uint32_t] gives on a
    two's-complement machine.) *)
Theorem read_uint32_le_little_endian (data : list byte) (off : Z) :
  (forall b0 b1 b2 b3,
      0 <= off -> fread data off 4 = [b0; b1; b2; b3] ->
      Comps.read_uint32_le data off
      = Ret (u8 b0 + 2 ^ 8 * u8 b1 + 2 ^ 16 * u8 b2 + 2 ^ 24 * u8 b3) /\
      0 <= u8 b0 + 2 ^ 8 * u8 b1 + 2 ^ 16 * u8 b2 + 2 ^ 24 * u8 b3 < 2 ^ 32) /\
  (off < 0 \/ len data < off + 4 -> Comps.read_uint32_le data off = Undef).
Proof.
  split.
  - intros b0 b1 b2 b3 Hoff H.
    destruct (byte_at_fread4 data off b0 b1 b2 b3 Hoff H) as (H0 & H1 & H2 & H3).
    pose proof (u8_range b0). pose proof (u8_range b1).
    pose proof (u8_range b2). pose proof (u8_range b3).
    assert (Hr : 0 <= u8 b0 + 2 ^ 8 * u8 b1 + 2 ^ 16 * u8 b2 + 2 ^ 24 * u8 b3 < 2 ^ 32) by lia.
    split; [|exact Hr].
    unfold Comps.read_uint32_le. rewrite H0, H1, H2, H3. cbn [of_read bind].
    f_equal.
    rewrite (lor_shiftl_add (u8 b0) (u8 b1) 8) by lia.
    rewrite (lor_shiftl_add _ (u8 b2) 16) by lia.
    rewrite (lor_shiftl_add _ (u8 b3) 24) by lia.
    rewrite Z.mod_small; lia.
  - intros H. unfold Comps.read_uint32_le.
    destruct (byte_at data off) as [b0|] eqn:E0; [|reflexivity].
    destruct (byte_at data (off + 1)) as [b1|] eqn:E1; [|reflexivity].
    destruct (byte_at data (off + 2)) as [b2|] eqn:E2; [|reflexivity].
    destruct (byte_at data (off + 3)) as [b3|] eqn:E3; [|reflexivity].
    apply byte_at_some in E0. apply byte_at_some in E3. lia.
Qed.

Lemma read_uint32_le_little_endian_witness :
  Comps.read_uint32_le [x78; x56; x34; x12] 0 = Ret 0x12345678 /\
  Comps.read_uint32_le [x78; x56; x34] 0 = Undef.
Proof.
  split.
  - apply (proj1 (read_uint32_le_little_endian [x78; x56; x34; x12] 0)
             x78 x56 x34 x12); [lia | reflexivity].
  - apply (proj2 (read_uint32_le_little_endian [x78; x56; x34] 0)).
    right. vm_compute. reflexivity.
Defined.

Lemma skipn_succ (data : list byte) (pos : Z) :
  0 <= pos ->
  skipn (Z.to_nat (pos + 1)) data = tl (skipn (Z.to_nat pos) data).
Proof.
  intros Hpos. replace (Z.to_nat (pos + 1)) with (S (Z.to_nat pos)) by lia.
  generalize (Z.to_nat pos) as m. clear. intros m. revert data.
  induction m as [|m IH]; intros data; [destruct data; reflexivity|].
  destruct data as [|b data]; [reflexivity|]. apply (IH data).
Qed.

Lemma byte_at_hd (data : list byte) (pos : Z) :
  0 <= pos -> byte_at data pos = hd_error (skipn (Z.to_nat pos) data).
Proof.
  intros Hpos. rewrite <- (Z.add_0_r pos) at 1. rewrite byte_at_skipn by lia.
  destruct (skipn _ data); reflexivity.
Qed.

(** [read_string] returns the bytes before the first NUL, or the first
    [n] bytes when no NUL comes that early. *)
Lemma read_string_loop_spec (data : list byte) :
  forall (n : nat) (pos : Z) (s : list byte),
    0 <= pos ->
    Comps.read_string_loop n data pos = Ret s <->
    Forall (fun b => b <> NUL) s /\ (List.length s <= n)%nat /\
    firstn (List.length s) (skipn (Z.to_nat pos) data) = s /\
    ((List.length s < n)%nat ->
     nth_error (skipn (Z.to_nat pos) data) (List.length s) = Some NUL).
Proof.
  induction n as [|n IH]; intros pos s Hpos.
  - cbn [Comps.read_string_loop]. split.
    + intros H. injection H as <-. repeat split; [constructor | reflexivity | lia].
    + intros (_ & Hlen & _ & _). destruct s; [reflexivity | simpl in Hlen; lia].
  - cbn [Comps.read_string_loop]. rewrite byte_at_hd by assumption.
    specialize (IH (pos + 1)). rewrite skipn_succ in IH by assumption.
    destruct (skipn (Z.to_nat pos) data) as [|b l]; cbn [hd_error of_read bind tl] in *.
    + split; [discriminate|]. intros (_ & _ & Hpre & Hterm).
      destruct s as [|c s]; [|discriminate Hpre].
      specialize (Hterm ltac:(simpl; lia)). discriminate.
    + destruct (Byte.eqb b NUL) eqn:E.
      * apply byte_eqb_eq in E. subst b. split.
        -- intros H. injection H as <-. repeat split; [constructor | simpl; lia].
        -- intros (Hno & _ & Hpre & _). destruct s as [|c s]; [reflexivity|].
           cbn in Hpre. injection Hpre as <- _. inversion Hno; subst. contradiction.
      * assert (Hb : b <> NUL) by (intros ->; discriminate E).
        split.
        -- intros H. apply bind_ret_inv in H as (s' & Hs' & H). injection H as <-.
           apply IH in Hs' as (Hno & Hlen & Hpre & Hterm); [|lia].
           repeat split.
           ++ now constructor.
           ++ simpl. lia.
           ++ cbn [List.length firstn]. now rewrite Hpre.
           ++ intros Hlt. cbn [List.length nth_error]. apply Hterm. simpl in Hlt. lia.
        -- intros (Hno & Hlen & Hpre & Hterm). destruct s as [|c s].
           ++ specialize (Hterm ltac:(simpl; lia)). cbn in Hterm.
              injection Hterm as ->. contradiction.
           ++ cbn in Hpre. injection Hpre as <- Hpre. inversion Hno; subst.
              assert (Hs : Comps.read_string_loop n data (pos + 1) = Ret s).
              { apply IH; [lia|]. repeat split; try assumption.
                - simpl in Hlen. lia.
                - intros Hlt. apply (Hterm ltac:(simpl; lia)). }
              rewrite Hs. reflexivity.
Qed.

(** X2 ([read_string]): the string returned is the run of non-NUL bytes at
    [off], cut after [min(max_len, 255)] bytes; when it is cut it is not
    followed by a NUL that was read. The result is defined exactly when
    these bytes, and the NUL that ends a shorter run, lie inside the
    buffer. *)
Theorem read_string_spec (data : list byte) (off max_len : Z) (s : list byte) :
  0 <= off ->
  Comps.read_string data off max_len = Ret s <->
  Forall (fun b => b <> NUL) s /\
  len s <= Z.max 0 (Z.min 255 max_len) /\
  fread data off (len s) = s /\
  (len s < Z.min 255 max_len -> byte_at data (off + len s) = Some NUL).
Proof.
  intros Hoff. unfold Comps.read_string.
  rewrite read_string_loop_spec by assumption.
  change (Comps.MAX_STRING_LEN - 1) with 255.
  unfold fread. pose proof (len_nonneg s).
  rewrite byte_at_skipn by lia.
  unfold len in *. rewrite !Nat2Z.id.
  split; intros (H1 & H2 & H3 & H4); repeat split; try assumption; try lia;
    intros Hlt; apply H4; lia.
Qed.

Lemma read_string_spec_witness :
  Comps.read_string (bytes "ab" ++ [NUL; x07]) 0 50 = Ret (bytes "ab") <->
  Forall (fun b => b <> NUL) (bytes "ab") /\
  len (bytes "ab") <= Z.max 0 (Z.min 255 50) /\
  fread (bytes "ab" ++ [NUL; x07]) 0 (len (bytes "ab")) = bytes "ab" /\
  (len (bytes "ab") < Z.min 255 50 ->
   byte_at (bytes "ab" ++ [NUL; x07]) (0 + len (bytes "ab")) = Some NUL).
Proof.
  apply (read_string_spec (bytes "ab" ++ [NUL; x07]) 0 50 (bytes "ab")). lia.
Defined.

(** ** The caps of the record loop *)

Lemma records_loop_cap (data : list byte) (data_size : Z) :
  forall (fuel : nat) (current : Z) (st st' : Comps.storage),
    Comps.records_loop fuel data data_size current st = Ret st' ->
    len st' <= Z.max 50 (len st + 1) /\
    (Comps.MAX_COMPONENTS <= len st -> st' = st).
Proof.
  induction fuel as [|fuel IH]; intros current st st' H.
  - rewrite records_loop_zero in H.
    destruct (_ && _); [discriminate|]. injection H as <-. split; [lia | reflexivity].
  - rewrite records_loop_step in H.
    destruct (current <? size_sub data_size Comps.record_size); cbn [andb] in H;
      [|injection H as <-; split; [lia | reflexivity]].
    destruct (Comps.component_count st <? Comps.MAX_COMPONENTS) eqn:Ec;
      [|injection H as <-; split; [lia | reflexivity]].
    apply Z.ltb_lt in Ec. unfold Comps.component_count in *.
    apply bind_ret_inv in H as ([next new] & Hit & H). cbn [fst snd] in H.
    apply iteration_plausible in Hit as [_ Hone].
    pose proof (len_nonneg new).
    destruct (50 <=? len (st ++ new)) eqn:E.
    + injection H as <-. rewrite len_app. split; [lia | intros; lia].
    + apply Z.leb_gt in E. apply IH in H as [Hcap _].
      rewrite len_app in *. split; [lia | intros; lia].
Qed.

(** X3 ([parse_comps_database], [main]): the record loop stops at fifty
    stored components: after a run the storage holds at most
    [max 50 (count + 1)] components, and never more than [MAX_COMPONENTS]
    if it did not before. *)
Theorem recover_cap (payload : list byte) (st st' : Comps.storage) :
  Comps.recover payload st = Ret st' ->
  Comps.component_count st' <= Z.max 50 (Comps.component_count st + 1) /\
  (Comps.component_count st <= Comps.MAX_COMPONENTS ->
   Comps.component_count st' <= Comps.MAX_COMPONENTS).
Proof.
  unfold Comps.recover, Comps.parse_comps_database, Comps.component_count. intros H.
  assert (Hsame : len st <= Z.max 50 (len st + 1) /\
                  (len st <= Comps.MAX_COMPONENTS -> len st <= Comps.MAX_COMPONENTS))
    by (split; [lia | auto]).
  apply bind_ret_inv in H as (off & _ & H).
  destruct (0 <? off); [|injection H as <-; exact Hsame].
  apply bind_ret_inv in H as ([offset fields] & _ & H).
  apply bind_ret_inv in H as ([dat idx] & _ & H).
  destruct (0 <? dat); [|injection H as <-; exact Hsame].
  apply records_loop_cap in H as [Hcap Hfull]. split; [exact Hcap|].
  unfold Comps.MAX_COMPONENTS in *. intros Hst.
  destruct (Z.eq_dec (len st) 10000) as [Heq|Hne].
  - rewrite (Hfull ltac:(lia)). lia.
  - lia.
Qed.

Lemma recover_cap_witness :
  Comps.component_count [Recovery.xvalve] <= Z.max 50 (Comps.component_count [] + 1) /\
  (Comps.component_count [] <= Comps.MAX_COMPONENTS ->
   Comps.component_count [Recovery.xvalve] <= Comps.MAX_COMPONENTS).
Proof.
  apply (recover_cap (Recovery.roomy_payload x00 (zeros 4) 90) [] [Recovery.xvalve]).
  vm_compute. reflexivity.
Defined.

(** ** What the recovered components come from *)

Section NewComponents.

Variables (data : list byte) (data_size : Z) (Q : Comps.Component -> Prop).
Hypothesis iteration_Q :
  forall current next new,
    Recovery.iteration data data_size current = Ret (next, new) -> Forall Q new.

Lemma records_loop_new :
  forall (fuel : nat) (current : Z) (st st' : Comps.storage),
    Comps.records_loop fuel data data_size current st = Ret st' ->
    exists new, st' = st ++ new /\ Forall Q new.
Proof.
  induction fuel as [|fuel IH]; intros current st st' H.
  - rewrite records_loop_zero in H.
    destruct (_ && _); [discriminate|]. injection H as <-.
    exists []. split; [now rewrite app_nil_r | constructor].
  - rewrite records_loop_step in H.
    destruct (_ && _); [|injection H as <-; exists []; split;
                          [now rewrite app_nil_r | constructor]].
    apply bind_ret_inv in H as ([next new] & Hit & H). cbn [fst snd] in H.
    apply iteration_Q in Hit.
    destruct (50 <=? Comps.component_count (st ++ new)).
    + injection H as <-. now exists new.
    + apply IH in H as (new' & -> & Hnew').
      exists (new ++ new'). split; [now rewrite app_assoc | now apply Forall_app].
Qed.

End NewComponents.

Lemma name_loop_sound (data : list byte) (data_size limit : Z) :
  forall (n : nat) (j p : Z) (nm : list byte),
    Comps.name_loop n data data_size limit j = Ret (Some (p, nm)) ->
    j <= p < limit /\ p < size_sub data_size 50 /\
    (exists c, byte_at data p = Some c /\ u8 "A"%byte <= u8 c <= u8 "z"%byte) /\
    Comps.read_string data p 50 = Ret nm.
Proof.
  induction n as [|n IH]; intros j p nm H.
  - cbn in H. destruct ((j <? limit) && (j <? size_sub data_size 50)); discriminate.
  - rewrite name_loop_step in H.
    destruct ((j <? limit) && (j <? size_sub data_size 50)) eqn:G; [|discriminate].
    apply andb_true_iff in G as [G1 G2].
    apply Z.ltb_lt in G1. apply Z.ltb_lt in G2.
    apply bind_ret_inv in H as (c & Hc & H).
    assert (Hrec : Comps.name_loop n data data_size limit (j + 1)
                   = Ret (Some (p, nm)) ->
                   j <= p < limit /\ p < size_sub data_size 50 /\
                   (exists c, byte_at data p = Some c /\
                              u8 "A"%byte <= u8 c <= u8 "z"%byte) /\
                   Comps.read_string data p 50 = Ret nm).
    { intros Hr. apply IH in Hr as (Hr1 & Hr2 & Hr3 & Hr4).
      repeat split; try assumption; lia. }
    destruct ((u8 "A"%byte <=? u8 c) && (u8 c <=? u8 "z"%byte)) eqn:Ea; [|exact (Hrec H)].
    apply bind_ret_inv in H as (s & Hs & H).
    destruct ((3 <? len s) && (len s <? 40)); [|exact (Hrec H)].
    injection H as <- <-.
    apply andb_true_iff in Ea as [Ea1 Ea2].
    apply Z.leb_le in Ea1. apply Z.leb_le in Ea2.
    destruct (byte_at data j) as [c'|]; [|discriminate]. injection Hc as ->.
    repeat split; try assumption; try lia. exists c. repeat split; assumption.
Qed.

Lemma read_uint32_le_inside (data : list byte) (off u : Z) :
  Comps.read_uint32_le data off = Ret u -> 0 <= off /\ off + 3 < len data.
Proof.
  unfold Comps.read_uint32_le. intros H.
  apply bind_ret_inv in H as (b0 & H0 & H).
  apply bind_ret_inv in H as (b1 & _ & H).
  apply bind_ret_inv in H as (b2 & _ & H).
  apply bind_ret_inv in H as (b3 & H3 & _).
  destruct (byte_at data off) eqn:E0; [|discriminate].
  destruct (byte_at data (off + 3)) eqn:E3; [|discriminate].
  apply byte_at_some in E0. apply byte_at_some in E3. lia.
Qed.

Lemma iteration_backed (data : list byte) (data_size current next : Z)
  (new : list Comps.Component) :
  len data < 2 ^ 63 ->
  Recovery.iteration data data_size current = Ret (next, new) ->
  Forall (backed_by data) new.
Proof.
  intros Hsize. unfold Recovery.iteration. intros H.
  apply bind_ret_inv in H as (u & Hu & H).
  apply bind_ret_inv in H as (r & Hr & H).
  injection H as H. destruct r as [[j nm]|]; injection H as _ <-; [|constructor].
  constructor; [|constructor].
  destruct ((0 <? u) && (u <? 65536)); [|discriminate].
  pose proof (read_uint32_le_inside _ _ _ Hu) as Hin.
  rewrite !size_add_small in Hr by (unfold Comps.record_size; lia).
  apply name_loop_sound in Hr as (Hj & _ & (c & Hc & Hrange) & Hs).
  exists current, j, c. unfold Comps.record_size in Hj.
  cbn [Comps.uid Comps.name Comps.new_component].
  repeat split; try assumption; lia.
Qed.

(** X4 ([parse_comps_database]): a run only appends, and every component it
    appends is backed by the payload: its identifier is the little-endian
    word at an offset of the payload, its name the NUL-terminated string at
    an offset 4 to 99 bytes further that starts with a byte between ['A']
    and ['z']; [ioi], [parent_uid], [ordinal] and [type] are never filled
    from the payload. *)
Theorem recovered_components_come_from_payload (payload : list byte)
  (st st' : Comps.storage) :
  len payload < 2 ^ 63 ->
  Comps.recover payload st = Ret st' ->
  exists new, st' = st ++ new /\ Forall (backed_by payload) new.
Proof.
  intros Hsize. unfold Comps.recover, Comps.parse_comps_database. intros H.
  assert (Hnone : exists new, st = st ++ new /\ Forall (backed_by payload) new)
    by (exists []; split; [now rewrite app_nil_r | constructor]).
  apply bind_ret_inv in H as (off & _ & H).
  destruct (0 <? off); [|injection H as <-; exact Hnone].
  apply bind_ret_inv in H as ([offset fields] & _ & H).
  apply bind_ret_inv in H as ([dat idx] & _ & H).
  destruct (0 <? dat); [|injection H as <-; exact Hnone].
  eapply records_loop_new; [|exact H].
  intros current next new. apply iteration_backed, Hsize.
Qed.

Lemma recovered_components_come_from_payload_witness :
  exists new, [Recovery.xvalve] = [] ++ new /\
              Forall (backed_by (Recovery.roomy_payload x00 (zeros 4) 90)) new.
Proof.
  apply (recovered_components_come_from_payload
           (Recovery.roomy_payload x00 (zeros 4) 90) [] [Recovery.xvalve]).
  - vm_compute. reflexivity.
  - vm_compute. reflexivity.
Defined.

(** The data offset is only ever set at an occurrence of ".dat". *)
Lemma markers_loop_dat :
  forall (at_i : list byte) (i bound dat idx dat' idx' : Z),
    Comps.markers_loop at_i i bound dat idx = Ret (dat', idx') ->
    dat' = dat \/ exists k, occurs_at (bytes ".dat") at_i k.
Proof.
  induction at_i as [|b at_i IH]; intros i bound dat idx dat' idx' H;
    cbn [Comps.markers_loop] in H.
  - destruct (i <? bound); [discriminate|]. injection H as <- _. now left.
  - destruct (i <? bound); [|injection H as <- _; now left].
    destruct (len (b :: at_i) <? 4); [discriminate|].
    destruct (bytes_eqb (firstn 4 (b :: at_i)) (bytes ".dat")) eqn:Edat.
    + right. exists 0%nat. apply bytes_eqb_eq in Edat. exact Edat.
    + destruct (bytes_eqb (firstn 4 (b :: at_i)) (bytes ".idx")).
      * injection H as <- _. now left.
      * apply IH in H as [->|[k Hk]]; [now left|].
        right. exists (S k). exact Hk.
Qed.

(** A literal that a computation finds nowhere occurs nowhere. *)
Lemma occurs_nowhere_check (lit data : list byte) :
  lit <> [] ->
  forallb (fun k => negb (bytes_eqb (firstn (List.length lit) (skipn k data)) lit))
          (seq 0 (List.length data)) = true ->
  forall k, ~ occurs_at lit data k.
Proof.
  intros Hlit H k Hocc. unfold occurs_at in Hocc.
  destruct (Nat.lt_ge_cases k (List.length data)) as [Hk|Hk].
  - rewrite forallb_forall in H. specialize (H k).
    rewrite Hocc in H. rewrite (proj2 (bytes_eqb_eq lit lit) eq_refl) in H.
    assert (Hin : In k (seq 0 (List.length data))) by (apply in_seq; lia).
    specialize (H Hin). discriminate.
  - rewrite skipn_all2 in Hocc by lia. rewrite firstn_nil in Hocc. congruence.
Qed.

(** X5 ([parse_comps_database]): [data_offset] is only set at an occurrence
    of [".dat"]; a payload without these four bytes leaves the storage as
    it was, whatever else it holds. *)
Theorem no_data_marker_no_components (payload : list byte) (st st' : Comps.storage) :
  (forall k, ~ occurs_at (bytes ".dat") payload k) ->
  Comps.recover payload st = Ret st' -> st' = st.
Proof.
  intros Hno. unfold Comps.recover, Comps.parse_comps_database. intros H.
  apply bind_ret_inv in H as (off & _ & H).
  destruct (0 <? off); [|now injection H as <-].
  apply bind_ret_inv in H as ([offset fields] & _ & H).
  apply bind_ret_inv in H as ([dat idx] & Hm & H).
  apply markers_loop_dat in Hm as [->|[k Hk]].
  - cbn in H. now injection H as <-.
  - exfalso. apply (Hno (k + Z.to_nat offset)%nat).
    unfold occurs_at in *. now rewrite <- skipn_skipn.
Qed.

Lemma no_data_marker_no_components_witness :
  @nil Comps.Component = [].
Proof.
  apply (no_data_marker_no_components Samples.no_data_payload [] []).
  - apply occurs_nowhere_check; [discriminate | vm_compute; reflexivity].
  - vm_compute. reflexivity.
Defined.

(** ** More on the preamble splitters and the segment scanner *)

Lemma fgets_chars_is_prefix :
  forall (n : nat) (l : list byte),
    l = fgets_chars n l ++ skipn (List.length (fgets_chars n l)) l.
Proof.
  induction n as [|n IH]; intros l; [destruct l; reflexivity|].
  destruct l as [|b l]; [reflexivity|].
  cbn [fgets_chars]. destruct (Byte.eqb b LF); [reflexivity|].
  cbn [List.length skipn app]. now rewrite <- IH.
Qed.

Lemma fgets_prefix (size : Z) (rest line : list byte) :
  fgets size rest = Some line ->
  rest = line ++ skipn (List.length line) rest /\ line <> [].
Proof.
  unfold fgets. intros H.
  pose proof (fgets_chars_is_prefix (Z.to_nat (size - 1)) rest) as Hp.
  destruct (fgets_chars (Z.to_nat (size - 1)) rest) as [|c l] eqn:E; [discriminate|].
  injection H as <-. split; [exact Hp | discriminate].
Qed.

Lemma fgets_consumes (size : Z) (rest line : list byte) :
  fgets size rest = Some line ->
  (List.length (skipn (List.length line) rest) < List.length rest)%nat.
Proof.
  intros H. apply fgets_prefix in H as [Hpre Hne].
  rewrite Hpre at 2. rewrite length_app.
  destruct line; [contradiction | simpl; lia].
Qed.

Lemma binary_start_loop_bound :
  forall (fuel : nat) (rest : list byte) (pos v : Z),
    0 <= pos ->
    Extractor.binary_start_loop fuel rest pos = Ret v ->
    v = 0 \/ pos <= v < pos + len rest.
Proof.
  induction fuel as [|fuel IH]; intros rest pos v Hpos H; [discriminate|].
  rewrite binary_start_loop_step in H.
  destruct (fgets 1024 rest) as [line|] eqn:E; [|injection H as <-; now left].
  apply fgets_prefix in E as [Hpre Hne]. cbv zeta in H.
  assert (Hlen : len rest = len line + len (skipn (List.length line) rest))
    by (rewrite Hpre at 1; apply len_app).
  pose proof (len_nonneg (skipn (List.length line) rest)).
  assert (Hpos1 : 1 <= len line)
    by (destruct line; [contradiction | rewrite len_cons; pose proof (len_nonneg line); lia]).
  destruct (Extractor.is_binary line) eqn:Eb.
  - injection H as <-. right.
    pose proof (c_str_len line). unfold strlen.
    assert (Hs : 1 <= len (c_str line)).
    { unfold Extractor.is_binary in Eb. destruct (c_str line); [discriminate|].
      rewrite len_cons. pose proof (len_nonneg l). lia. }
    lia.
  - apply IH in H as [->|Hv]; [now left | right; lia | lia].
Qed.

Lemma header_loop_bound :
  forall (fuel : nat) (rest : list byte) (cur lines : Z) (r : Parser.header_info),
    0 <= cur ->
    Parser.header_loop fuel rest cur cur lines = Ret r ->
    Parser.binary_start r = 0 \/ cur <= Parser.binary_start r < cur + len rest.
Proof.
  induction fuel as [|fuel IH]; intros rest cur lines r Hcur H; [discriminate|].
  rewrite header_loop_step in H.
  destruct (fgets Parser.BUFFER_SIZE rest) as [line|] eqn:E;
    [|injection H as <-; now left].
  apply fgets_prefix in E as [Hpre Hne].
  assert (Hlen : len rest = len line + len (skipn (List.length line) rest))
    by (rewrite Hpre at 1; apply len_app).
  pose proof (len_nonneg (skipn (List.length line) rest)).
  assert (Hpos1 : 1 <= len line)
    by (destruct line; [contradiction | rewrite len_cons; pose proof (len_nonneg line); lia]).
  destruct (negb (Parser.is_text line)).
  - injection H as <-. right. cbn. lia.
  - cbv zeta in H. apply IH in H as [Hz|Hv]; [now left | right; lia | lia].
Qed.

(** X6 ([main] of acd_extractor.c, [read_text_header]): on every file both
    splitters end, and the offset they return is [0] or the position of a
    byte of the file. *)
Theorem binary_start_is_inside_the_file (file : list byte) :
  (exists v, Extractor.find_binary_start file = Ret v /\
             (v = 0 \/ 0 <= v < len file)) /\
  (exists r, Parser.read_text_header file = Ret r /\
             (Parser.binary_start r = 0 \/ 0 <= Parser.binary_start r < len file)).
Proof.
  split.
  - destruct (find_binary_start_total file) as (v & Hv). exists v. split; [exact Hv|].
    unfold Extractor.find_binary_start in Hv.
    apply binary_start_loop_bound in Hv; lia.
  - destruct (read_text_header_total file) as (r & Hr). exists r. split; [exact Hr|].
    unfold Parser.read_text_header in Hr.
    apply header_loop_bound in Hr; [|lia]. destruct Hr as [Hz|Hv]; [now left | right; lia].
Qed.

Lemma text_bytes_check (l : list byte) :
  forallb (fun c => negb (Extractor.ctrl_byte c)) l = true -> Forall Preamble.text_byte l.
Proof.
  rewrite forallb_forall, Forall_forall. intros H c Hc. specialize (H c Hc).
  apply text_byte_check. now apply negb_true_iff.
Qed.

(** X7 ([main] of acd_extractor.c, [read_text_header]): on a file of text
    bytes only both splitters return offset 0, the value they also return
    for a file that is binary from its first byte: the whole file is then
    scanned as binary data. *)
Theorem text_file_binary_start_zero (file : list byte) :
  Forall Preamble.text_byte file ->
  Extractor.find_binary_start file = Ret 0 /\
  exists n, Parser.read_text_header file =
            Ret {| Parser.binary_start := 0; Parser.header_lines := n |}.
Proof.
  intros Htext. split.
  - unfold Extractor.find_binary_start.
    generalize (S (List.length file)) (Nat.lt_succ_diag_r (List.length file)).
    generalize 0 at 1. revert Htext. generalize file as rest.
    intros rest Htext pos fuel. revert rest Htext pos.
    induction fuel as [|fuel IH]; intros rest Htext pos Hfuel; [lia|].
    rewrite binary_start_loop_step.
    destruct (fgets 1024 rest) as [line|] eqn:E; [|reflexivity].
    pose proof (fgets_consumes _ _ _ E) as Hcons.
    apply fgets_prefix in E as [Hpre Hne]. cbv zeta.
    assert (Hsplit : Forall Preamble.text_byte line /\
                     Forall Preamble.text_byte (skipn (List.length line) rest))
      by (apply Forall_app; rewrite <- Hpre; exact Htext).
    destruct Hsplit as [Hl Hr].
    rewrite (text_chunk_not_binary line Hl).
    apply IH; [exact Hr | lia].
  - unfold Parser.read_text_header.
    assert (H : forall (fuel : nat) (rest : list byte) (cur pos lines : Z),
               Forall Preamble.text_byte rest -> (List.length rest < fuel)%nat ->
               exists n, Parser.header_loop fuel rest cur pos lines =
                         Ret {| Parser.binary_start := 0; Parser.header_lines := n |}).
    { clear. induction fuel as [|fuel IH]; intros rest cur pos lines Htext Hfuel; [lia|].
      rewrite header_loop_step.
      destruct (fgets Parser.BUFFER_SIZE rest) as [line|] eqn:E;
        [|eexists; reflexivity].
      pose proof (fgets_consumes _ _ _ E) as Hcons.
      apply fgets_prefix in E as [Hpre Hne]. cbv zeta.
      assert (Hsplit : Forall Preamble.text_byte line /\
                       Forall Preamble.text_byte (skipn (List.length line) rest))
        by (apply Forall_app; rewrite <- Hpre; exact Htext).
      destruct Hsplit as [Hl Hr].
      rewrite (text_chunk_is_text line Hl). cbn [negb].
      apply IH; [exact Hr | lia]. }
    apply H; [exact Htext | lia].
Qed.

Lemma text_file_binary_start_zero_witness :
  Extractor.find_binary_start (bytes "hello world" ++ [LF]) = Ret 0 /\
  exists n, Parser.read_text_header (bytes "hello world" ++ [LF]) =
            Ret {| Parser.binary_start := 0; Parser.header_lines := n |}.
Proof.
  apply (text_file_binary_start_zero (bytes "hello world" ++ [LF])).
  apply text_bytes_check. reflexivity.
Defined.

(** ** The calls the scanner makes *)

Lemma after_hits_results (w : Extractor.world) (file : list byte) (hs : list Z) :
  forall st,
    Forall (fun c => Extractor.call_result c =
                     Extractor.extract_gzip_block w file (Extractor.call_offset c)
                                                  (Extractor.call_block c))
           (Extractor.calls st) ->
    Forall (fun c => Extractor.call_result c =
                     Extractor.extract_gzip_block w file (Extractor.call_offset c)
                                                  (Extractor.call_block c))
           (Extractor.calls (Scan.after_hits w file st hs)).
Proof.
  induction hs as [|h hs IH]; intros st Hst; [exact Hst|].
  cbn [Scan.after_hits fold_left].
  fold (Scan.after_hits w file (Extractor.hit w file h st) hs).
  apply IH. unfold Extractor.hit. cbn [Extractor.calls].
  apply Forall_app. split; [exact Hst|]. constructor; [reflexivity | constructor].
Qed.

Lemma after_hits_blocks (w : Extractor.world) (file : list byte) (hs : list Z) :
  forall st,
    map Extractor.call_block (Extractor.calls (Scan.after_hits w file st hs)) =
    map Extractor.call_block (Extractor.calls st) ++
    map (fun k => Extractor.block_count st + Z.of_nat k) (seq 1 (List.length hs)).
Proof.
  induction hs as [|h hs IH]; intros st; [cbn; now rewrite app_nil_r|].
  cbn [Scan.after_hits fold_left].
  fold (Scan.after_hits w file (Extractor.hit w file h st) hs).
  rewrite IH. unfold Extractor.hit.
  cbn [Extractor.calls Extractor.block_count Extractor.call_block List.length seq map].
  rewrite map_app, <- app_assoc. cbn [map app]. do 2 f_equal.
  rewrite <- (seq_shift (List.length hs) 1), map_map. apply map_ext. intros k. lia.
Qed.

Lemma In_firstn_In {A : Type} (x : A) (n : nat) :
  forall l : list A, In x (firstn n l) -> In x l.
Proof.
  induction n as [|n IH]; intros l H; [destruct H|].
  destruct l as [|a l]; [destruct H|].
  destruct H as [->|H]; [now left | right; auto].
Qed.

Lemma header_check_passes (file : list byte) (o : Z) :
  0 <= o < len file - 10 -> Scan.magic_at file o = true ->
  len (fread file o 10) = 10 /\ Extractor.gzip_magic (fread file o 10) = true.
Proof.
  intros Ho Hm. split.
  - rewrite fread_len by lia. lia.
  - unfold fread. change (Z.to_nat 10) with 10%nat.
    rewrite gzip_magic_firstn by lia. rewrite <- magic_at_skipn by lia. exact Hm.
Qed.

(** X8 ([main] of acd_extractor.c with [extract_gzip_block]): every call the
    scanner makes is at a signature with at least ten bytes behind it, so
    the two header checks of the decoder pass: its early returns for a
    short read or a wrong signature are never taken from [main]. *)
Theorem scanner_calls_pass_the_header_checks (w : Extractor.world) (max_count : Z)
  (file : list byte) (binary_start : Z) (st : Extractor.scan_state) :
  len file < 2 ^ 63 -> 0 <= binary_start -> 0 < max_count ->
  Extractor.scan_segments w max_count file binary_start = Ret st ->
  Forall (fun c =>
            binary_start <= Extractor.call_offset c < len file - 10 /\
            Extractor.call_result c =
            Extractor.extract_gzip_block w file (Extractor.call_offset c)
                                         (Extractor.call_block c) /\
            len (fread file (Extractor.call_offset c) 10) = 10 /\
            Extractor.gzip_magic (fread file (Extractor.call_offset c) 10) = true)
         (Extractor.calls st).
Proof.
  intros Hsize Hbs Hcap H.
  rewrite scan_segments_spec in H by assumption. injection H as <-.
  set (hs := firstn _ _).
  assert (Hres := after_hits_results w file hs
                    {| Extractor.block_count := 0; Extractor.calls := [] |}
                    (Forall_nil _)).
  assert (Hoff := after_hits_offsets w file hs
                    {| Extractor.block_count := 0; Extractor.calls := [] |}).
  cbn [Scan.offsets_of Extractor.calls map app] in Hoff.
  rewrite Forall_forall in *. intros c Hc.
  assert (Hin : In (Extractor.call_offset c) hs).
  { unfold Scan.offsets_of in Hoff. rewrite <- Hoff. now apply in_map. }
  apply In_firstn_In, candidates_In in Hin as [Hrange Hmagic]; [|assumption].
  destruct (header_check_passes file (Extractor.call_offset c)) as [H1 H2];
    [lia | assumption |].
  repeat split; try lia; auto.
Qed.

Lemma scanner_calls_pass_the_header_checks_witness :
  Forall (fun c =>
            0 <= Extractor.call_offset c < len Vectors.two_magic_file - 10 /\
            Extractor.call_result c =
            Extractor.extract_gzip_block Vectors.good_world Vectors.two_magic_file
              (Extractor.call_offset c) (Extractor.call_block c) /\
            len (fread Vectors.two_magic_file (Extractor.call_offset c) 10) = 10 /\
            Extractor.gzip_magic
              (fread Vectors.two_magic_file (Extractor.call_offset c) 10) = true)
         (Extractor.calls
            (Scan.after_hits Vectors.good_world Vectors.two_magic_file
               {| Extractor.block_count := 0; Extractor.calls := [] |} [0; 5])).
Proof.
  apply (scanner_calls_pass_the_header_checks Vectors.good_world Extractor.MAX_BLOCKS
           Vectors.two_magic_file 0).
  - vm_compute. reflexivity.
  - lia.
  - vm_compute. reflexivity.
  - vm_compute. reflexivity.
Defined.

(** X9 ([main] of acd_extractor.c): the block numbers handed to the decoder
    are 1, 2, 3, ... in call order, whatever the decoder returned; the
    number in an artifact name counts signatures, not decoded blocks. *)
Theorem block_numbers_are_consecutive (w : Extractor.world) (max_count : Z)
  (file : list byte) (binary_start : Z) (st : Extractor.scan_state) :
  len file < 2 ^ 63 -> 0 <= binary_start -> 0 < max_count ->
  Extractor.scan_segments w max_count file binary_start = Ret st ->
  map Extractor.call_block (Extractor.calls st) =
  map Z.of_nat (seq 1 (List.length (Extractor.calls st))).
Proof.
  intros Hsize Hbs Hcap H.
  rewrite scan_segments_spec in H by assumption. injection H as <-.
  set (hs := firstn _ _).
  rewrite after_hits_blocks. cbn [Extractor.calls Extractor.block_count map app].
  assert (Hlen : List.length (Extractor.calls
                   (Scan.after_hits w file
                      {| Extractor.block_count := 0; Extractor.calls := [] |} hs))
                 = List.length hs).
  { pose proof (after_hits_offsets w file hs
                  {| Extractor.block_count := 0; Extractor.calls := [] |}) as Hoff.
    unfold Scan.offsets_of in Hoff. cbn [Extractor.calls map app] in Hoff.
    rewrite <- Hoff at 2. now rewrite length_map. }
  rewrite Hlen. apply map_ext. intros k. lia.
Qed.

Lemma block_numbers_are_consecutive_witness :
  map Extractor.call_block
      (Extractor.calls
         (Scan.after_hits Vectors.reject_world Vectors.two_magic_file
            {| Extractor.block_count := 0; Extractor.calls := [] |} [0; 5]))
  = map Z.of_nat
      (seq 1 (List.length
                (Extractor.calls
                   (Scan.after_hits Vectors.reject_world Vectors.two_magic_file
                      {| Extractor.block_count := 0; Extractor.calls := [] |} [0; 5])))).
Proof.
  apply (block_numbers_are_consecutive Vectors.reject_world Extractor.MAX_BLOCKS
           Vectors.two_magic_file 0).
  - vm_compute. reflexivity.
  - lia.
  - vm_compute. reflexivity.
  - vm_compute. reflexivity.
Defined.

(** X10 ([extract_gzip_block]): a file is written only after [inflate]
    returned [Z_STREAM_END] or [Z_OK]; it holds exactly the decompressed
    bytes and carries the block number and the offset of the call; an
    [.xml] file is written only beside the [.bin] file and only for content
    tagged as XML. *)
Theorem artifacts_hold_the_decompressed_bytes (w : Extractor.world)
  (file : list byte) (offset block_num : Z) (f : Extractor.filename)
  (content : list byte) :
  let r := Extractor.extract_gzip_block w file offset block_num in
  let strm := Extractor.inflate w (fread file offset (1024 * 1024)) in
  In (Extractor.Saved f content) (Extractor.events r) ->
  content = Extractor.z_out strm /\
  Extractor.fn_block f = block_num /\ Extractor.fn_offset f = offset /\
  (Extractor.z_ret strm = Extractor.Z_STREAM_END \/
   Extractor.z_ret strm = Extractor.Z_OK) /\
  In (Extractor.Saved {| Extractor.fn_block := block_num;
                         Extractor.fn_offset := offset;
                         Extractor.fn_ext := Extractor.ext_bin |} content)
     (Extractor.events r) /\
  (Extractor.fn_ext f = Extractor.ext_xml ->
   Extractor.xml_detected content = true).
Proof.
  cbv zeta. unfold Extractor.extract_gzip_block.
  destruct (negb (len (fread file offset 10) =? 10)); [intros []|].
  destruct (negb (Extractor.gzip_magic (fread file offset 10))); [intros []|].
  destruct (negb (Extractor.inflateInit2 w =? Extractor.Z_OK)); [intros []|].
  cbv zeta. cbn [Extractor.events].
  set (strm := Extractor.inflate w (fread file offset (1024 * 1024))).
  destruct ((Extractor.z_ret strm =? Extractor.Z_STREAM_END)
            || (Extractor.z_ret strm =? Extractor.Z_OK)) eqn:Es.
  - assert (Hstat : Extractor.z_ret strm = Extractor.Z_STREAM_END \/
                    Extractor.z_ret strm = Extractor.Z_OK).
    { apply orb_true_iff in Es as [E|E]; apply Z.eqb_eq in E; auto. }
    destruct (Extractor.fopen w _); [|intros []].
    unfold Extractor.analyse. intros [H|[H|[H|H]]]; try discriminate H.
    + injection H as <- <-. repeat split; auto; [now left | discriminate].
    + destruct (Extractor.xml_detected (Extractor.z_out strm)) eqn:Ex; [|destruct H].
      destruct H as [H|H]; [discriminate H|].
      destruct (Extractor.fopen w _); [|destruct H].
      destruct H as [H|[]]. injection H as <- <-.
      repeat split; auto. now left.
  - intros [H|[]]. discriminate H.
Qed.

Lemma artifacts_hold_the_decompressed_bytes_witness :
  bytes "abc" =
  Extractor.z_out
    (Extractor.inflate Vectors.good_world
       (fread Vectors.two_magic_file 0 (1024 * 1024))) /\
  In (Extractor.Saved {| Extractor.fn_block := 1; Extractor.fn_offset := 0;
                         Extractor.fn_ext := Extractor.ext_bin |} (bytes "abc"))
     (Extractor.events
        (Extractor.extract_gzip_block Vectors.good_world Vectors.two_magic_file 0 1)).
Proof.
  destruct (artifacts_hold_the_decompressed_bytes Vectors.good_world
              Vectors.two_magic_file 0 1
              {| Extractor.fn_block := 1; Extractor.fn_offset := 0;
                 Extractor.fn_ext := Extractor.ext_bin |} (bytes "abc"))
    as (Hc & _ & _ & _ & Hin & _).
  - vm_compute. left. reflexivity.
  - split; [exact Hc | exact Hin].
Defined.

(** ** The search of acd_parser.c *)

Lemma finds_from_firstn (n : nat) :
  forall (q : nat) (l : list byte) (o : Z),
    (n + 3 <= q)%nat -> Blocks.finds_from (firstn q l) o n = Blocks.finds_from l o n.
Proof.
  induction n as [|n IH]; intros q l o Hq.
  - destruct (firstn q l), l; reflexivity.
  - destruct q as [|q]; [lia|]. destruct l as [|b l]; [reflexivity|].
    change (firstn (S q) (b :: l)) with (b :: firstn q l).
    cbn [Blocks.finds_from].
    change (b :: firstn q l) with (firstn (S q) (b :: l)).
    rewrite gzip_magic_firstn by lia. rewrite IH by lia.
    assert (Hf : Blocks.found_at (firstn (S q) (b :: l)) o = Blocks.found_at (b :: l) o).
    { unfold Blocks.found_at. f_equal; rewrite nth_firstn;
        (destruct (_ <? _)%nat eqn:E; [reflexivity | apply Nat.ltb_ge in E; lia]). }
    now rewrite Hf.
Qed.

Lemma finds_from_split (n1 : nat) :
  forall (n2 : nat) (l : list byte) (o : Z),
    Blocks.finds_from l o (n1 + n2) =
    Blocks.finds_from l o n1 ++ Blocks.finds_from (skipn n1 l) (o + Z.of_nat n1) n2.
Proof.
  induction n1 as [|n1 IH]; intros n2 l o.
  - cbn [Nat.add skipn]. replace (o + Z.of_nat 0) with o by lia.
    destruct l; reflexivity.
  - destruct l as [|b l].
    + cbn. destruct n2; reflexivity.
    + cbn [Nat.add Blocks.finds_from skipn]. rewrite IH, <- app_assoc.
      replace (o + 1 + Z.of_nat n1) with (o + Z.of_nat (S n1)) by lia.
      reflexivity.
Qed.

Lemma finds_from_offsets (n : nat) :
  forall (l : list byte) (o : Z),
    map Parser.block_offset (Blocks.finds_from l o n) = Scan.hits_from l o n.
Proof.
  induction n as [|n IH]; intros l o; [destruct l; reflexivity|].
  destruct l as [|b l]; [reflexivity|].
  cbn [Blocks.finds_from Scan.hits_from]. rewrite map_app, IH.
  destruct (Extractor.gzip_magic (b :: l)); reflexivity.
Qed.

Lemma signatures_offsets (file : list byte) (lo hi : Z) :
  map Parser.block_offset (Blocks.signatures file lo hi) = Scan.candidates file lo hi.
Proof. apply finds_from_offsets. Qed.

Lemma signatures_empty (file : list byte) (lo hi : Z) :
  hi <= lo -> Blocks.signatures file lo hi = [].
Proof.
  intros H. unfold Blocks.signatures. replace (Z.to_nat (hi - lo)) with O by lia.
  destruct (skipn _ _); reflexivity.
Qed.

Lemma signatures_split (file : list byte) (lo mid hi : Z) :
  0 <= lo <= mid -> mid <= hi ->
  Blocks.signatures file lo hi =
  Blocks.signatures file lo mid ++ Blocks.signatures file mid hi.
Proof.
  intros H1 H2. unfold Blocks.signatures.
  replace (Z.to_nat (hi - lo)) with (Z.to_nat (mid - lo) + Z.to_nat (hi - mid))%nat by lia.
  rewrite finds_from_split, skipn_skipn.
  replace (Z.to_nat (mid - lo) + Z.to_nat lo)%nat with (Z.to_nat mid) by lia.
  replace (lo + Z.of_nat (Z.to_nat (mid - lo))) with mid by lia.
  reflexivity.
Qed.

Lemma after_finds_app (st : Parser.search_state) (a b : list Parser.found) :
  Blocks.after_finds (Blocks.after_finds st a) b = Blocks.after_finds st (a ++ b).
Proof.
  unfold Blocks.after_finds. cbn [Parser.block_count Parser.blocks].
  rewrite len_app, app_assoc. f_equal. lia.
Qed.

Lemma after_finds_nil (st : Parser.search_state) : Blocks.after_finds st [] = st.
Proof.
  destruct st as [bc bl]. unfold Blocks.after_finds. cbn. rewrite app_nil_r.
  f_equal. lia.
Qed.

Lemma parser_window_loop_cons (offset : Z) (b0 : byte) (buf : list byte)
  (i bound : Z) (st : Parser.search_state) :
  Parser.window_loop offset (b0 :: buf) i bound st =
  if i <? bound then
    if Byte.eqb b0 MAGIC0 then
      match buf with
      | [] => Undef
      | b1 :: rest =>
          if Byte.eqb b1 MAGIC1 then
            match rest with
            | m :: f :: _ =>
                let st' :=
                  {| Parser.block_count := Parser.block_count st + 1;
                     Parser.blocks := Parser.blocks st ++
                                      [{| Parser.block_offset := offset + i;
                                          Parser.method := m; Parser.flags := f |}] |} in
                if 10 <=? Parser.block_count st' then Ret (Leave st')
                else Parser.window_loop offset buf (i + 1) bound st'
            | _ => Undef
            end
          else Parser.window_loop offset buf (i + 1) bound st
      end
    else Parser.window_loop offset buf (i + 1) bound st
  else Ret (Next st).
Proof. reflexivity. Qed.

(** One window of [find_compressed_blocks]. *)
Lemma parser_window_loop_spec (offset : Z) :
  forall (n : nat) (buf : list byte) (i : Z) (st : Parser.search_state),
    (n + 3 <= List.length buf)%nat ->
    Parser.block_count st < 10 ->
    let fs := Blocks.finds_from buf (offset + i) n in
    let k := Z.to_nat (10 - Parser.block_count st) in
    Parser.window_loop offset buf i (i + Z.of_nat n) st =
    Ret (if (List.length fs <? k)%nat then Next (Blocks.after_finds st fs)
         else Leave (Blocks.after_finds st (firstn k fs))).
Proof.
  induction n as [|n IH]; intros buf i st Hlen Hcap; cbv zeta.
  - destruct buf as [|b0 buf]; [simpl in Hlen; lia|].
    rewrite parser_window_loop_cons. cbn [Blocks.finds_from].
    replace (i + Z.of_nat 0) with i by lia. rewrite Z.ltb_irrefl.
    cbn [List.length]. rewrite after_finds_nil.
    destruct (0 <? Z.to_nat (10 - Parser.block_count st))%nat eqn:E; [reflexivity|].
    apply Nat.ltb_ge in E. lia.
  - destruct buf as [|b0 [|b1 [|m [|f buf]]]]; try (simpl in Hlen; lia).
    assert (Hlen' : (n + 3 <= List.length (b1 :: m :: f :: buf))%nat)
      by (simpl in *; lia).
    rewrite parser_window_loop_cons.
    assert (Hlt : (i <? i + Z.of_nat (S n)) = true) by (apply Z.ltb_lt; lia).
    rewrite Hlt.
    replace (i + Z.of_nat (S n)) with ((i + 1) + Z.of_nat n) by lia.
    cbn [Blocks.finds_from Extractor.gzip_magic].
    replace (offset + i + 1) with (offset + (i + 1)) by lia.
    pose proof (IH (b1 :: m :: f :: buf) (i + 1) st Hlen' Hcap) as Hsame.
    cbv zeta in Hsame.
    destruct (Byte.eqb b0 MAGIC0) eqn:E0; cbn [andb]; [|exact Hsame].
    destruct (Byte.eqb b1 MAGIC1) eqn:E1; [|exact Hsame].
    clear Hsame. cbv zeta. cbn [app List.length].
    set (fd := Blocks.found_at (b0 :: b1 :: m :: f :: buf) (offset + i)).
    change {| Parser.block_count := Parser.block_count st + 1;
              Parser.blocks := Parser.blocks st ++
                [{| Parser.block_offset := offset + i;
                    Parser.method := m; Parser.flags := f |}] |}
      with (Blocks.after_finds st [fd]).
    assert (Hbc : Parser.block_count (Blocks.after_finds st [fd])
                  = Parser.block_count st + 1) by reflexivity.
    destruct (10 <=? Parser.block_count (Blocks.after_finds st [fd])) eqn:Ecap.
    + apply Z.leb_le in Ecap.
      replace (Z.to_nat (10 - Parser.block_count st)) with 1%nat by lia.
      reflexivity.
    + apply Z.leb_gt in Ecap.
      pose proof (IH (b1 :: m :: f :: buf) (i + 1) (Blocks.after_finds st [fd])
                     Hlen' ltac:(lia)) as Hrec.
      cbv zeta in Hrec. rewrite Hrec. clear Hrec.
      destruct (Z.to_nat (10 - Parser.block_count st)) as [|k] eqn:Ek; [lia|].
      replace (Z.to_nat (10 - Parser.block_count (Blocks.after_finds st [fd])))
        with k by lia.
      change (S (List.length ?l) <? S k)%nat with (List.length l <? k)%nat.
      rewrite !after_finds_app. reflexivity.
Qed.

(** The whole search: it returns with the tenth signature below
    [file_size - 10], and never returns when there are fewer. *)
Lemma search_loop_spec (file : list byte) :
  len file < 2 ^ 63 ->
  forall (fuel : nat) (offset : Z) (st : Parser.search_state),
    0 <= offset <= len file - 10 ->
    Parser.block_count st < 10 ->
    let fs := Blocks.signatures file offset (len file - 10) in
    let k := Z.to_nat (10 - Parser.block_count st) in
    ((k <= List.length fs)%nat -> len file - 10 - offset < Z.of_nat fuel ->
     Parser.search_loop fuel file (len file) offset st =
     Ret (Blocks.after_finds st (firstn k fs))) /\
    ((List.length fs < k)%nat ->
     Parser.search_loop fuel file (len file) offset st = Fuel).
Proof.
  intros Hsize. induction fuel as [|fuel IH]; intros offset st Hoff Hcap; cbv zeta.
  - split; [lia | reflexivity].
  - rewrite search_loop_step.
    assert (Hg : (offset <? len file - 2) = true) by (apply Z.ltb_lt; lia).
    rewrite Hg. cbv zeta.
    set (buffer := fread file offset Parser.BUFFER_SIZE).
    assert (Hbr : len buffer = Z.min 4096 (len file - offset)).
    { unfold buffer, Parser.BUFFER_SIZE. rewrite fread_len by lia. lia. }
    assert (Hm : size_sub (len buffer) 10 = len buffer - 10)
      by (apply size_sub_small; lia).
    rewrite Hm. set (m := len buffer - 10) in *.
    assert (Hm1 : 0 <= m <= 4086) by lia.
    pose proof (parser_window_loop_spec offset (Z.to_nat m) buffer 0 st) as Hwin.
    cbv zeta in Hwin.
    replace (0 + Z.of_nat (Z.to_nat m)) with m in Hwin by lia.
    rewrite Hwin; [|unfold len in *; lia|assumption]. clear Hwin.
    replace (offset + 0) with offset by lia.
    assert (Hhs : Blocks.finds_from buffer offset (Z.to_nat m)
                  = Blocks.signatures file offset (offset + m)).
    { unfold buffer, fread, Blocks.signatures, Parser.BUFFER_SIZE.
      rewrite finds_from_firstn by lia.
      replace (offset + m - offset) with m by lia. reflexivity. }
    rewrite Hhs.
    rewrite (signatures_split file offset (offset + m) (len file - 10)) by lia.
    set (hs1 := Blocks.signatures file offset (offset + m)).
    set (hs2 := Blocks.signatures file (offset + m) (len file - 10)).
    set (k := Z.to_nat (10 - Parser.block_count st)).
    rewrite firstn_app, length_app.
    destruct (List.length hs1 <? k)%nat eqn:Ek; cbn [bind].
    + apply Nat.ltb_lt in Ek.
      rewrite to_long_small by lia.
      assert (Hbc : Parser.block_count (Blocks.after_finds st hs1)
                    = Parser.block_count st + len hs1) by reflexivity.
      assert (Hk' : Z.to_nat (10 - Parser.block_count (Blocks.after_finds st hs1))
                    = (k - List.length hs1)%nat) by (rewrite Hbc; unfold len; lia).
      destruct (Z.eq_dec m 0) as [Hm0|Hm0].
      * (* the offset no longer advances *)
        assert (Hhs1 : hs1 = []) by (apply signatures_empty; lia).
        assert (Hhs2 : hs2 = []) by (apply signatures_empty; lia).
        rewrite Hhs1, Hhs2 in *. cbn [List.length Nat.add]. split; [lia|].
        intros _. rewrite after_finds_nil. replace (offset + m) with offset by lia.
        destruct (IH offset st Hoff Hcap) as [_ Hdiv]. apply Hdiv.
        replace (Blocks.signatures file offset (len file - 10)) with (@nil Parser.found)
          by (symmetry; apply signatures_empty; lia).
        cbn [List.length]. lia.
      * destruct (IH (offset + m) (Blocks.after_finds st hs1) ltac:(lia)
                     ltac:(rewrite Hbc; unfold len; lia)) as [Hret Hdiv].
        cbv zeta in Hret, Hdiv. fold hs2 in Hret, Hdiv. rewrite Hk' in Hret, Hdiv.
        split.
        -- intros Hlen Hfuel. rewrite Hret by lia.
           rewrite after_finds_app, (firstn_all2 (n := k) hs1) by lia. reflexivity.
        -- intros Hlen. apply Hdiv. lia.
    + apply Nat.ltb_ge in Ek. split; [|lia].
      intros _ _. replace (k - List.length hs1)%nat with O by lia.
      cbn [firstn]. rewrite app_nil_r. reflexivity.
Qed.

(** X11 ([find_compressed_blocks]): started with at least ten bytes behind
    [binary_start], the search returns exactly when at least ten
    signatures lie at offsets from [binary_start] to below
    [file_size - 10]: it then returns 10 and has recorded the first ten,
    each with the method and flag bytes that follow the signature; with
    fewer signatures its loop never ends. *)
Theorem parser_search_returns_with_the_tenth_signature (file : list byte)
  (binary_start : Z) :
  len file < 2 ^ 63 -> 0 <= binary_start <= len file - 10 ->
  let sigs := Blocks.signatures file binary_start (len file - 10) in
  (10 <= len sigs ->
   forall fuel, (List.length file < fuel)%nat ->
     Parser.find_compressed_blocks fuel file binary_start =
     Ret {| Parser.block_count := 10; Parser.blocks := firstn 10 sigs |}) /\
  (len sigs < 10 ->
   forall fuel, Parser.find_compressed_blocks fuel file binary_start = Fuel).
Proof.
  intros Hsize Hbs sigs. subst sigs. unfold Parser.find_compressed_blocks.
  split.
  - intros Hten fuel Hfuel.
    destruct (search_loop_spec file Hsize fuel binary_start
                {| Parser.block_count := 0; Parser.blocks := [] |} Hbs ltac:(cbn; lia))
      as [Hret _].
    cbv zeta in Hret. cbn [Parser.block_count] in Hret.
    change (Z.to_nat (10 - 0)) with 10%nat in Hret.
    rewrite Hret by (unfold len in *; lia).
    unfold Blocks.after_finds. cbn [Parser.block_count Parser.blocks app].
    f_equal. apply (f_equal2 Parser.Build_search_state); [|reflexivity].
    unfold len in *. rewrite length_firstn. lia.
  - intros Hfew fuel.
    destruct (search_loop_spec file Hsize fuel binary_start
                {| Parser.block_count := 0; Parser.blocks := [] |} Hbs ltac:(cbn; lia))
      as [_ Hdiv].
    apply Hdiv. cbn [Parser.block_count]. unfold len in *. lia.
Qed.

Lemma parser_search_returns_with_the_tenth_signature_witness :
  Parser.find_compressed_blocks 100 Vectors.many_magic_file 0 =
  Ret {| Parser.block_count := 10;
         Parser.blocks :=
           firstn 10 (Blocks.signatures Vectors.many_magic_file 0
                        (len Vectors.many_magic_file - 10)) |}.
Proof.
  apply (proj1 (parser_search_returns_with_the_tenth_signature
                  Vectors.many_magic_file 0
                  ltac:(vm_compute; reflexivity)
                  ltac:(split; apply Z.leb_le; vm_compute; reflexivity))).
  - apply Z.leb_le. vm_compute. reflexivity.
  - apply Nat.ltb_lt. vm_compute. reflexivity.
Defined.

Lemma finds_from_In (n : nat) :
  forall (l : list byte) (o : Z) (fd : Parser.found),
    In fd (Blocks.finds_from l o n) <->
    o <= Parser.block_offset fd < o + Z.of_nat n /\
    Extractor.gzip_magic (skipn (Z.to_nat (Parser.block_offset fd - o)) l) = true /\
    fd = Blocks.found_at (skipn (Z.to_nat (Parser.block_offset fd - o)) l)
                         (Parser.block_offset fd).
Proof.
  induction n as [|n IH]; intros l o fd.
  - split; [destruct l; contradiction | lia].
  - destruct l as [|b l].
    + split; [contradiction|]. intros (_ & H & _). rewrite skipn_nil in H. discriminate.
    + cbn [Blocks.finds_from]. rewrite in_app_iff, IH. split.
      * intros [Hin|(Hr & Hm & Hf)].
        -- destruct (Extractor.gzip_magic (b :: l)) eqn:E; [|contradiction].
           destruct Hin as [<-|[]]. cbn [Blocks.found_at Parser.block_offset].
           replace (o - o) with 0 by lia. repeat split; [lia | lia | exact E].
        -- replace (Z.to_nat (Parser.block_offset fd - o))
             with (S (Z.to_nat (Parser.block_offset fd - (o + 1)))) by lia.
           repeat split; [lia | lia | exact Hm | exact Hf].
      * intros (Hr & Hm & Hf).
        destruct (Z.eq_dec (Parser.block_offset fd) o) as [Heq|Hne].
        -- left. rewrite Heq in Hm, Hf. replace (o - o) with 0 in Hm, Hf by lia.
           cbn [Z.to_nat skipn] in Hm, Hf. rewrite Hm. left. now symmetry.
        -- right.
           replace (Z.to_nat (Parser.block_offset fd - o))
             with (S (Z.to_nat (Parser.block_offset fd - (o + 1)))) in Hm, Hf by lia.
           repeat split; [lia | lia | exact Hm | exact Hf].
Qed.

(** ** Scans for literals in local arrays *)

Lemma bytes_eqb_cons (a b : byte) (x y : list byte) :
  bytes_eqb (a :: x) (b :: y) = Byte.eqb a b && bytes_eqb x y.
Proof.
  apply Bool.eq_iff_eq_true.
  rewrite andb_true_iff, !bytes_eqb_eq, byte_eqb_eq.
  split; [intros H; now inversion H | intros [-> ->]; reflexivity].
Qed.

Lemma memcmp_eq_defined (lit data : list byte) (rest : list (option byte)) :
  (List.length lit <= List.length data)%nat ->
  memcmp_eq (map Some data ++ rest) lit
  = Ret (bytes_eqb (firstn (List.length lit) data) lit).
Proof.
  revert data. induction lit as [|c lit IH]; intros data H.
  - reflexivity.
  - destruct data as [|b data]; cbn [List.length] in H; [lia|].
    cbn [memcmp_eq map app List.length firstn]. rewrite bytes_eqb_cons.
    destruct (Byte.eqb b c); [apply IH; lia | reflexivity].
Qed.

Lemma memcmp_eq_unwritten (lit : list byte) (rest : list (option byte)) :
  lit <> [] -> memcmp_eq (None :: rest) lit = Undef.
Proof. destruct lit; [congruence | reflexivity]. Qed.

Lemma memcmp_eq_no_fuel (lit : list byte) (mem : list (option byte)) :
  memcmp_eq mem lit <> Fuel.
Proof.
  revert mem. induction lit as [|c lit IH]; intros mem; cbn; [discriminate|].
  destruct mem as [|[b|] mem]; try discriminate.
  destruct (Byte.eqb b c); [apply IH | discriminate].
Qed.

Section LiteralFacts.

Context {K : Type}.
Variable patterns : list (K * list byte).

Lemma check_literals_no_fuel (mem : list (option byte)) (o : Z) :
  check_literals patterns mem o <> Fuel.
Proof.
  induction patterns as [|[k lit] ps IH]; cbn; [discriminate|].
  pose proof (memcmp_eq_no_fuel lit mem).
  destruct (memcmp_eq mem lit); cbn; try congruence.
  destruct (check_literals ps mem o); cbn; congruence.
Qed.

Lemma check_literals_defined (data : list byte) (rest : list (option byte)) (o : Z) :
  (forall k lit, In (k, lit) patterns -> (List.length lit <= List.length data)%nat) ->
  exists l, check_literals patterns (map Some data ++ rest) o = Ret l /\
    forall k o', In (k, o') l <->
      o' = o /\ exists lit, In (k, lit) patterns /\ firstn (List.length lit) data = lit.
Proof.
  induction patterns as [|[k0 lit0] ps IH]; intros Hlen.
  - exists []. split; [reflexivity|]. intros k o'. cbn. split; [tauto|].
    intros (_ & lit & [] & _).
  - destruct IH as (r & Hr & Hin); [intros k lit Hk; apply (Hlen k lit); now right|].
    cbn [check_literals]. rewrite memcmp_eq_defined by (apply (Hlen k0); now left).
    cbn [bind]. rewrite Hr. cbn [bind]. eexists. split; [reflexivity|].
    intros k o'. rewrite in_app_iff, Hin.
    destruct (bytes_eqb (firstn (List.length lit0) data) lit0) eqn:E.
    + apply bytes_eqb_eq in E. cbn [In]. split.
      * intros [[H|[]]|(-> & lit & Hl & Ho)].
        -- inversion H; subst. split; [reflexivity|]. exists lit0. split; [now left | exact E].
        -- split; [reflexivity|]. exists lit. split; [now right | exact Ho].
      * intros (-> & lit & [H|Hl] & Ho).
        -- inversion H; subst. left. now left.
        -- right. split; [reflexivity|]. now exists lit.
    + cbn [In]. split.
      * intros [[]|(-> & lit & Hl & Ho)].
        split; [reflexivity|]. exists lit. split; [now right | exact Ho].
      * intros (-> & lit & [H|Hl] & Ho).
        -- inversion H; subst. apply bytes_eqb_eq in Ho. congruence.
        -- right. split; [reflexivity|]. now exists lit.
Qed.

Lemma scan_literals_no_fuel (n : nat) :
  forall mem base i, scan_literals patterns mem base i n <> Fuel.
Proof.
  induction n as [|n IH]; intros mem base i; cbn [scan_literals]; [discriminate|].
  pose proof (check_literals_no_fuel mem (base + i)).
  destruct (check_literals patterns mem (base + i)); cbn [bind]; try congruence.
  pose proof (IH (tl mem) base (i + 1)).
  destruct (scan_literals patterns (tl mem) base (i + 1) n); cbn [bind]; congruence.
Qed.

Variable m : nat.
Hypothesis patterns_short :
  forall k lit, In (k, lit) patterns -> (List.length lit <= m)%nat.

(** Over bytes that were all written the scan prints exactly the literals
    that sit at the positions visited. *)
Lemma scan_literals_defined (n : nat) :
  forall (data : list byte) (rest : list (option byte)) (base i : Z),
    (n + m <= S (List.length data))%nat ->
    exists l, scan_literals patterns (map Some data ++ rest) base i n = Ret l /\
      forall k o, In (k, o) l <->
        exists j lit, (j < n)%nat /\ o = base + i + Z.of_nat j /\
                      In (k, lit) patterns /\ occurs_at lit data j.
Proof.
  induction n as [|n IH]; intros data rest base i Hn.
  - exists []. split; [reflexivity|]. intros k o. split; [intros []|].
    intros (j & _ & Hj & _). lia.
  - destruct data as [|d data].
    { cbn [List.length] in Hn. assert (m = 0)%nat by lia. assert (n = 0)%nat by lia. subst.
      destruct (check_literals_defined [] rest (base + i)) as (h & Hh & Hin).
      { intros k lit Hk. apply patterns_short in Hk. cbn. lia. }
      cbn [scan_literals]. rewrite Hh. cbn [bind]. exists (h ++ []). split; [reflexivity|].
      intros k o. rewrite app_nil_r, Hin. split.
      - intros (-> & lit & Hl & Ho). exists 0%nat, lit. repeat split; [lia|lia|exact Hl|].
        unfold occurs_at. exact Ho.
      - intros (j & lit & Hj & -> & Hl & Ho). assert (j = 0)%nat by lia. subst.
        split; [lia|]. exists lit. split; [exact Hl|exact Ho]. }
    destruct (check_literals_defined (d :: data) rest (base + i)) as (h & Hh & Hin).
    { intros k lit Hk. apply patterns_short in Hk. cbn [List.length] in *. lia. }
    destruct (IH data rest base (i + 1)) as (r & Hr & Hrin).
    { cbn [List.length] in Hn. lia. }
    cbn [scan_literals]. rewrite Hh. cbn [bind map app tl]. rewrite Hr. cbn [bind].
    exists (h ++ r). split; [reflexivity|].
    intros k o. rewrite in_app_iff, Hin, Hrin. split.
    + intros [(-> & lit & Hl & Ho)|(j & lit & Hj & -> & Hl & Ho)].
      * exists 0%nat, lit. repeat split; [lia|lia|exact Hl|exact Ho].
      * exists (S j), lit. repeat split; [lia|lia|exact Hl|exact Ho].
    + intros (j & lit & Hj & -> & Hl & Ho). destruct j as [|j].
      * left. split; [lia|]. now exists lit.
      * right. exists j, lit. repeat split; [lia|lia|exact Hl|exact Ho].
Qed.

End LiteralFacts.

Section UnwrittenBytes.

Context {K : Type}.
Variable patterns : list (K * list byte).
Hypothesis first_literal :
  exists k c lit ps, patterns = (k, c :: lit) :: ps.

(** A position the program never wrote makes the outcome of the scan
    undefined, whatever was printed before. *)
Lemma scan_literals_unwritten (data : list byte) :
  forall (rest : list (option byte)) (base i : Z) (n : nat),
    (List.length data < n)%nat ->
    scan_literals patterns (map Some data ++ None :: rest) base i n = Undef.
Proof.
  induction data as [|d data IH]; intros rest base i n Hn;
    (destruct n as [|n]; [cbn [List.length] in Hn; lia|]); cbn [scan_literals map app].
  - destruct first_literal as (k & c & lit & ps & ->). reflexivity.
  - pose proof (check_literals_no_fuel patterns
                  (Some d :: map Some data ++ None :: rest) (base + i)).
    destruct (check_literals patterns _ (base + i)); cbn [bind tl]; try congruence.
    rewrite IH by (cbn [List.length] in Hn; lia). reflexivity.
Qed.

End UnwrittenBytes.

Section LiteralRange.

Context {K : Type}.
Variable patterns : list (K * list byte).

Lemma check_literals_at (mem : list (option byte)) (o : Z) :
  forall l, check_literals patterns mem o = Ret l ->
    forall k o', In (k, o') l -> o' = o.
Proof.
  induction patterns as [|[k0 lit0] ps IH]; intros l H k o' Hin.
  - inversion H; subst. destruct Hin.
  - cbn [check_literals] in H.
    apply bind_ret_inv in H as (c & _ & H).
    apply bind_ret_inv in H as (r & Hr & H). inversion H; subst.
    apply in_app_iff in Hin as [Hin|Hin]; [|exact (IH r Hr k o' Hin)].
    destruct c; [|destruct Hin]. destruct Hin as [Hin|[]]. now inversion Hin.
Qed.

Lemma scan_literals_range (n : nat) :
  forall mem base i l, scan_literals patterns mem base i n = Ret l ->
    forall k o, In (k, o) l -> base + i <= o < base + i + Z.of_nat n.
Proof.
  induction n as [|n IH]; intros mem base i l H k o Hin.
  - inversion H; subst. destruct Hin.
  - cbn [scan_literals] in H.
    apply bind_ret_inv in H as (h & Hh & H).
    apply bind_ret_inv in H as (r & Hr & H). inversion H; subst.
    apply in_app_iff in Hin as [Hin|Hin].
    + apply (check_literals_at _ _ _ Hh) in Hin. lia.
    + apply (IH _ _ _ _ Hr) in Hin. lia.
Qed.

End LiteralRange.

(** The same facts with the bounds of the loops as the source has them,
    as integers. *)
Section LiteralBounds.

Context {K : Type}.
Variable patterns : list (K * list byte).
Variable m : Z.
Hypothesis patterns_short : forall k lit, In (k, lit) patterns -> len lit <= m.

Lemma scan_literals_written (n : Z) (data : list byte) (rest : list (option byte))
  (base i : Z) :
  0 <= n -> 0 <= m -> n + m <= len data + 1 ->
  exists l, scan_literals patterns (map Some data ++ rest) base i (Z.to_nat n) = Ret l /\
    forall k o, In (k, o) l <->
      base + i <= o < base + i + n /\
      exists lit, In (k, lit) patterns /\ occurs_at lit data (Z.to_nat (o - base - i)).
Proof.
  intros Hn Hm0 Hm.
  destruct (scan_literals_defined patterns (Z.to_nat m)) with
    (n := Z.to_nat n) (data := data) (rest := rest) (base := base) (i := i)
    as (l & Hl & Hin).
  - intros k lit Hk. apply patterns_short in Hk. unfold len in Hk. lia.
  - unfold len in Hm. lia.
  - exists l. split; [exact Hl|]. intros k o. rewrite Hin. split.
    + intros (j & lit & Hj & -> & Hp & Ho). split; [lia|]. exists lit. split; [exact Hp|].
      replace (Z.to_nat (base + i + Z.of_nat j - base - i)) with j by lia. exact Ho.
    + intros (Ho & lit & Hp & Hocc). exists (Z.to_nat (o - base - i)), lit.
      repeat split; [lia|lia|exact Hp|exact Hocc].
Qed.

Lemma scan_literals_within (n : Z) (mem : list (option byte)) (base i : Z)
  (l : list (K * Z)) :
  0 <= n -> scan_literals patterns mem base i (Z.to_nat n) = Ret l ->
  forall k o, In (k, o) l -> base + i <= o < base + i + n.
Proof.
  intros Hn H k o Hin. apply (scan_literals_range _ _ _ _ _ _ H) in Hin. lia.
Qed.

End LiteralBounds.

Lemma scan_literals_short {K : Type} (patterns : list (K * list byte)) (n : Z)
  (data : list byte) (rest : list (option byte)) (base i : Z) :
  (exists k c lit ps, patterns = (k, c :: lit) :: ps) ->
  len data < n ->
  scan_literals patterns (map Some data ++ None :: rest) base i (Z.to_nat n) = Undef.
Proof.
  intros Hfirst Hn. apply scan_literals_unwritten; [exact Hfirst|]. unfold len in Hn. lia.
Qed.

Lemma skipn_repeat {A : Type} (x : A) (k n : nat) :
  skipn k (repeat x n) = repeat x (n - k).
Proof.
  revert n. induction k as [|k IH]; intros n.
  - now rewrite Nat.sub_0_r.
  - destruct n as [|n]; [reflexivity|]. cbn [repeat skipn]. apply IH.
Qed.

Lemma stored_unwritten (chunk : list byte) (n : Z) :
  len chunk < n ->
  exists rest, stored chunk (repeat None (Z.to_nat n)) = map Some chunk ++ None :: rest.
Proof.
  intros H. unfold stored. rewrite skipn_repeat.
  exists (repeat None (Z.to_nat n - List.length chunk - 1)).
  replace (Z.to_nat n - List.length chunk)%nat
    with (S (Z.to_nat n - List.length chunk - 1)) at 1 by (unfold len in H; lia).
  reflexivity.
Qed.

Lemma stored_whole (chunk : list byte) (buffer : list (option byte)) :
  len buffer <= len chunk -> stored chunk buffer = map Some chunk ++ [].
Proof. intros H. unfold stored. rewrite skipn_all2; [reflexivity|]. unfold len in H. lia. Qed.

Lemma stored_over (chunk prev : list byte) :
  stored chunk (map Some prev) = map Some (chunk ++ skipn (List.length chunk) prev) ++ [].
Proof. unfold stored. now rewrite app_nil_r, map_app, skipn_map. Qed.

Lemma len_stored (chunk : list byte) (buffer : list (option byte)) (n : Z) :
  len chunk <= n -> len buffer <= n -> len (stored chunk buffer) <= n.
Proof.
  unfold stored, len. rewrite length_app, length_map, length_skipn. lia.
Qed.

Lemma len_unwritten (n : Z) : 0 <= n -> len (repeat (@None byte) (Z.to_nat n)) = n.
Proof. intros H. unfold len. rewrite repeat_length. lia. Qed.

Lemma occurs_at_fread (lit file : list byte) (pos n j : Z) :
  0 <= pos -> 0 <= j -> j + len lit <= n ->
  occurs_at lit (fread file pos n) (Z.to_nat j) <-> occurs_at lit file (Z.to_nat (pos + j)).
Proof.
  intros Hp Hj Hn. unfold occurs_at, fread.
  rewrite skipn_firstn_comm, firstn_firstn, skipn_skipn.
  replace (Init.Nat.min (List.length lit) (Z.to_nat n - Z.to_nat j)) with (List.length lit)
    by (unfold len in Hn; lia).
  replace (Z.to_nat j + Z.to_nat pos)%nat with (Z.to_nat (pos + j)) by lia. reflexivity.
Qed.

Lemma fread_whole (file : list byte) (pos n : Z) :
  0 <= pos -> 0 <= n -> pos + n <= len file -> len (fread file pos n) = n.
Proof. intros Hp Hn H. rewrite fread_len by assumption. lia. Qed.

Lemma fread_at_end (file : list byte) (pos n : Z) :
  0 <= pos -> 0 <= n -> len file <= pos -> fread file pos n = [].
Proof.
  intros Hp Hn H. pose proof (fread_len file pos n Hp Hn) as E.
  destruct (fread file pos n); [reflexivity|]. rewrite len_cons in E.
  pose proof (len_nonneg l). lia.
Qed.

Lemma fread_app_inside (file pad : list byte) (pos n : Z) :
  0 <= pos -> 0 <= n -> pos + n <= len file ->
  fread (file ++ pad) pos n = fread file pos n.
Proof.
  intros Hp Hn H. unfold fread, len in *.
  rewrite skipn_app, firstn_app, length_skipn.
  replace (Z.to_nat n - (List.length file - Z.to_nat pos))%nat with 0%nat by lia.
  cbn [firstn]. now rewrite app_nil_r.
Qed.

Lemma fread_app_tail (file pad : list byte) (pos n : Z) :
  0 <= pos <= len file -> len file - pos + len pad = n ->
  fread (file ++ pad) pos n = fread file pos n ++ pad.
Proof.
  intros Hp Hn. unfold fread, len in *.
  rewrite skipn_app, firstn_app, length_skipn.
  replace (Z.to_nat pos - List.length file)%nat with 0%nat by lia. cbn [skipn].
  f_equal. apply firstn_all2. lia.
Qed.

Lemma fread_skipn (file : list byte) (pos n r : Z) :
  0 <= pos -> 0 <= r <= n ->
  skipn (Z.to_nat r) (fread file pos n) = fread file (pos + r) (n - r).
Proof.
  intros Hp Hr. unfold fread. rewrite skipn_firstn_comm, skipn_skipn.
  f_equal; [lia|]. f_equal. lia.
Qed.

Lemma structure_patterns_short (k : Structure.signature) (lit : list byte) :
  In (k, lit) Structure.patterns -> len lit <= 10.
Proof.
  intros [H|[H|[H|[]]]]; inversion H; subst; cbn; lia.
Qed.

Lemma database_patterns_short (k : Database.structure) (lit : list byte) :
  In (k, lit) Database.patterns -> len lit <= 12.
Proof.
  intros [H|[H|[H|[H|[]]]]]; inversion H; subst; cbn; lia.
Qed.

Lemma analyze_structure_eq (file : list byte) (binary_start : Z) :
  Structure.analyze_structure file binary_start
  = scan_literals Structure.patterns
      (stored (fread file binary_start 4096) (repeat None (Z.to_nat 4096)))
      binary_start 0 (Z.to_nat (4096 - 16)).
Proof. reflexivity. Qed.

(** X12 ([analyze_structure]): with at least 4089 bytes behind
    [binary_start] the function prints exactly the occurrences of
    ["Comps"], ["Controller"] and ["<?xml"] at the offsets from
    [binary_start] to below [binary_start + 4080]; nothing further into the
    file is looked at. *)
Theorem analyze_structure_reports (file : list byte) (binary_start : Z) :
  0 <= binary_start -> 4089 <= len file - binary_start ->
  exists l, Structure.analyze_structure file binary_start = Ret l /\
    forall k o, In (k, o) l <->
      binary_start <= o < binary_start + 4080 /\
      exists lit, In (k, lit) Structure.patterns /\ occurs_at lit file (Z.to_nat o).
Proof.
  intros Hb Hsize. rewrite analyze_structure_eq.
  pose proof (fread_len file binary_start 4096 Hb ltac:(lia)) as Hlen.
  unfold stored.
  destruct (scan_literals_written Structure.patterns 10 structure_patterns_short
              (4096 - 16) (fread file binary_start 4096)
              (skipn (List.length (fread file binary_start 4096))
                     (repeat None (Z.to_nat 4096)))
              binary_start 0) as (l & Hl & Hin); [lia|lia|lia|].
  exists l. split; [exact Hl|]. intros k o. rewrite Hin. split.
  - intros (Ho & lit & Hp & Hocc). split; [lia|]. exists lit. split; [exact Hp|].
    apply structure_patterns_short in Hp as Hs.
    apply occurs_at_fread in Hocc; [|lia|lia|lia].
    replace (binary_start + (o - binary_start - 0)) with o in Hocc by lia. exact Hocc.
  - intros (Ho & lit & Hp & Hocc). split; [lia|]. exists lit. split; [exact Hp|].
    apply structure_patterns_short in Hp as Hs.
    apply occurs_at_fread; [lia|lia|lia|].
    replace (binary_start + (o - binary_start - 0)) with o by lia. exact Hocc.
Qed.

Lemma analyze_structure_reports_witness :
  exists l, Structure.analyze_structure Samples.structure_region 0 = Ret l /\
    forall k o, In (k, o) l <->
      0 <= o < 0 + 4080 /\
      exists lit, In (k, lit) Structure.patterns /\
                  occurs_at lit Samples.structure_region (Z.to_nat o).
Proof.
  apply (analyze_structure_reports Samples.structure_region 0).
  - lia.
  - apply Z.leb_le. vm_compute. reflexivity.
Defined.

(** X13 ([analyze_structure]): the return value of [fread] is ignored and
    the loop always visits 4080 positions of the local array; with fewer
    than 4080 bytes behind [binary_start] it compares bytes of the array
    that were never written, so what it prints is not determined by the
    file. *)
Theorem analyze_structure_short_region_undefined (file : list byte) (binary_start : Z) :
  0 <= binary_start -> len file - binary_start < 4080 ->
  Structure.analyze_structure file binary_start = Undef.
Proof.
  intros Hb Hsize. rewrite analyze_structure_eq.
  pose proof (fread_len file binary_start 4096 Hb ltac:(lia)) as Hlen.
  destruct (stored_unwritten (fread file binary_start 4096) 4096) as (rest & ->); [lia|].
  apply scan_literals_short; [|lia].
  now exists Structure.Comps_db, "C"%byte, (bytes "omps"), (tl Structure.patterns).
Qed.

Lemma analyze_structure_short_region_undefined_witness :
  Structure.analyze_structure (Samples.filler 100) 0 = Undef.
Proof.
  apply (analyze_structure_short_region_undefined (Samples.filler 100) 0).
  - lia.
  - vm_compute. reflexivity.
Defined.

(** X20 ([main] of acd_parser.c): on a file shorter than 4080 bytes the
    parser has no complete run with a defined report: either its search
    never ends or reads behind the bytes read, or, when the search
    returns, [analyze_structure] compares array bytes that were never
    written. *)
Theorem parser_run_on_small_file_never_completes (file : list byte) :
  len file < 4080 ->
  forall fuel, Structure.run fuel file = Undef \/ Structure.run fuel file = Fuel.
Proof.
  intros Hsize fuel.
  destruct (Structure.run fuel file) as [r| |] eqn:H; [exfalso|now left|now right].
  unfold Structure.run in H.
  apply bind_ret_inv in H as (h & Hh & H).
  apply bind_ret_inv in H as (st & _ & H).
  apply bind_ret_inv in H as (found & Hfound & _).
  unfold Parser.read_text_header in Hh.
  apply header_loop_bound in Hh; [|lia].
  pose proof (len_nonneg file) as Hnn.
  assert (Hb : 0 <= Parser.binary_start h) by lia.
  rewrite analyze_structure_eq in Hfound.
  pose proof (fread_len file (Parser.binary_start h) 4096 Hb ltac:(lia)) as Hlen.
  destruct (stored_unwritten (fread file (Parser.binary_start h) 4096) 4096)
    as (rest & Hst); [lia|].
  rewrite Hst, scan_literals_short in Hfound; [discriminate| |lia].
  now exists Structure.Comps_db, "C"%byte, (bytes "omps"), (tl Structure.patterns).
Qed.

Lemma parser_run_on_small_file_never_completes_witness :
  Structure.run 100 Vectors.many_magic_file = Undef \/
  Structure.run 100 Vectors.many_magic_file = Fuel.
Proof.
  apply (parser_run_on_small_file_never_completes Vectors.many_magic_file).
  vm_compute. reflexivity.
Defined.

Lemma window_phase (start j o : Z) :
  start + 8192 * j <= o < start + 8192 * j + 8192 ->
  (o - start) mod 8192 = o - (start + 8192 * j).
Proof.
  intros H. symmetry. apply (Z.mod_unique (o - start) 8192 j); lia.
Qed.

Lemma windows_loop_step (fuel : nat) (file : list byte) (pos : Z)
  (buffer : list (option byte)) (start_offset offset : Z)
  (printed : list (Database.structure * Z)) :
  Database.windows_loop (S fuel) file pos buffer start_offset offset printed
  = if 0 <? len (fread file pos 8192) then
      here <- scan_literals Database.patterns (stored (fread file pos 8192) buffer)
                            offset 0 (Z.to_nat (8192 - 100)) ;;
      if 100000 <? offset + 8192 - start_offset then Ret (printed ++ here)
      else Database.windows_loop fuel file (pos + len (fread file pos 8192))
             (stored (fread file pos 8192) buffer) start_offset (offset + 8192)
             (printed ++ here)
    else Ret printed.
Proof. reflexivity. Qed.

Lemma windows_loop_no_fuel (fuel : nat) :
  forall file pos buffer start offset printed,
    0 <= pos -> Z.max 0 (len file - pos) < Z.of_nat fuel ->
    Database.windows_loop fuel file pos buffer start offset printed <> Fuel.
Proof.
  induction fuel as [|fuel IH]; intros file pos buffer start offset printed Hp Hf; [lia|].
  rewrite windows_loop_step.
  pose proof (fread_len file pos 8192 Hp ltac:(lia)) as Hlen.
  destruct (0 <? len (fread file pos 8192)) eqn:E; [|discriminate].
  apply Z.ltb_lt in E.
  pose proof (scan_literals_no_fuel Database.patterns (Z.to_nat (8192 - 100))
                (stored (fread file pos 8192) buffer) offset 0) as Hs.
  destruct (scan_literals Database.patterns _ offset 0 _); cbn [bind]; try congruence.
  destruct (100000 <? offset + 8192 - start); [discriminate|].
  apply IH; lia.
Qed.

Lemma windows_loop_bounds (fuel : nat) :
  forall file pos buffer start j printed l,
    0 <= j < 13 ->
    Database.windows_loop fuel file pos buffer start (start + 8192 * j) printed = Ret l ->
    Forall (in_scanned_part start) printed -> Forall (in_scanned_part start) l.
Proof.
  induction fuel as [|fuel IH]; intros file pos buffer start j printed l Hj H Hpr;
    [discriminate|].
  rewrite windows_loop_step in H.
  destruct (0 <? len (fread file pos 8192)); [|now inversion H; subst].
  apply bind_ret_inv in H as (here & Hh & H).
  assert (Hhere : Forall (in_scanned_part start) (printed ++ here)).
  { apply Forall_app. split; [exact Hpr|]. apply Forall_forall. intros [k o] Hin.
    apply (scan_literals_within Database.patterns (8192 - 100) _ _ _ _ ltac:(lia) Hh)
      in Hin.
    unfold in_scanned_part. cbn [snd].
    rewrite (window_phase start j o) by lia. lia. }
  destruct (100000 <? start + 8192 * j + 8192 - start) eqn:E.
  - now inversion H; subst.
  - apply Z.ltb_ge in E.
    replace (start + 8192 * j + 8192) with (start + 8192 * (j + 1)) in H by lia.
    apply (IH _ _ _ _ (j + 1) _ _ ltac:(lia) H Hhere).
Qed.

(** X14 ([find_database_files]): the search ends on every file, and every
    offset it prints lies in one of the first thirteen windows of 8192
    bytes behind [start_offset] and not in the last 100 bytes of its
    window: a structure name that starts there is never printed. *)
Theorem database_search_stays_in_its_windows (file : list byte) (start_offset : Z) :
  0 <= start_offset ->
  Database.find_database_files file start_offset <> Fuel /\
  forall l k o, Database.find_database_files file start_offset = Ret l -> In (k, o) l ->
    start_offset <= o < start_offset + 106496 /\ (o - start_offset) mod 8192 < 8092.
Proof.
  intros Hs. unfold Database.find_database_files. split.
  - apply windows_loop_no_fuel; [exact Hs|]. unfold len. lia.
  - intros l k o H Hin.
    replace start_offset with (start_offset + 8192 * 0) in H at 3 by lia.
    apply windows_loop_bounds in H; [|lia|constructor].
    rewrite Forall_forall in H. exact (H (k, o) Hin).
Qed.

Lemma database_search_stays_in_its_windows_witness :
  Database.find_database_files Samples.short_tail 0 <> Fuel /\
  forall l k o, Database.find_database_files Samples.short_tail 0 = Ret l ->
    In (k, o) l -> 0 <= o < 0 + 106496 /\ (o - 0) mod 8192 < 8092.
Proof.
  apply (database_search_stays_in_its_windows Samples.short_tail 0). lia.
Defined.

(** What one whole window of 8192 bytes prints. *)
Lemma database_window_whole (file : list byte) (pos : Z) (buffer : list (option byte)) :
  0 <= pos -> pos + 8192 <= len file -> len buffer <= 8192 ->
  exists here,
    scan_literals Database.patterns (stored (fread file pos 8192) buffer) pos 0
                  (Z.to_nat (8192 - 100)) = Ret here /\
    forall k o, In (k, o) here <->
      pos <= o < pos + 8092 /\
      exists lit, In (k, lit) Database.patterns /\ occurs_at lit file (Z.to_nat o).
Proof.
  intros Hp Hw Hb.
  pose proof (fread_whole file pos 8192 Hp ltac:(lia) Hw) as Hlen.
  rewrite stored_whole by lia.
  destruct (scan_literals_written Database.patterns 12 database_patterns_short
              (8192 - 100) (fread file pos 8192) [] pos 0) as (l & Hl & Hin);
    [lia|lia|lia|].
  exists l. split; [exact Hl|]. intros k o. rewrite Hin. split.
  - intros (Ho & lit & Hpat & Hocc). split; [lia|]. exists lit. split; [exact Hpat|].
    apply database_patterns_short in Hpat as Hs.
    apply occurs_at_fread in Hocc; [|lia|lia|lia].
    replace (pos + (o - pos - 0)) with o in Hocc by lia. exact Hocc.
  - intros (Ho & lit & Hpat & Hocc). split; [lia|]. exists lit. split; [exact Hpat|].
    apply database_patterns_short in Hpat as Hs.
    apply occurs_at_fread; [lia|lia|lia|].
    replace (pos + (o - pos - 0)) with o by lia. exact Hocc.
Qed.

Lemma windows_loop_whole (d : nat) :
  forall fuel file buffer start j W printed,
    0 <= start -> 0 <= j < 13 -> Z.of_nat d = W - j -> W <= 13 ->
    start + 8192 * W <= len file ->
    (W < 13 -> len file = start + 8192 * W) ->
    len buffer <= 8192 -> (d < fuel)%nat ->
    exists l,
      Database.windows_loop fuel file (start + 8192 * j) buffer start (start + 8192 * j)
                            printed = Ret (printed ++ l) /\
      forall k o, In (k, o) l <->
        start + 8192 * j <= o < start + 8192 * W /\ (o - start) mod 8192 < 8092 /\
        exists lit, In (k, lit) Database.patterns /\ occurs_at lit file (Z.to_nat o).
Proof.
  induction d as [|d IH]; intros fuel file buffer start j W printed Hs Hj Hd HW Hfile
    Hend Hb Hfuel; (destruct fuel as [|fuel]; [lia|]); rewrite windows_loop_step.
  - assert (j = W) by lia. subst j.
    rewrite fread_at_end by lia. cbn [len List.length Z.of_nat Z.ltb Z.compare].
    exists []. split; [now rewrite app_nil_r|]. intros k o. split; [intros []|]. lia.
  - destruct (database_window_whole file (start + 8192 * j) buffer)
      as (here & Hh & Hin); [lia|lia|exact Hb|].
    pose proof (fread_whole file (start + 8192 * j) 8192 ltac:(lia) ltac:(lia) ltac:(lia))
      as Hlen.
    rewrite Hlen. change (0 <? 8192) with true. cbv iota.
    rewrite Hh. cbn [bind].
    assert (Hhere : forall k o, In (k, o) here <->
      start + 8192 * j <= o < start + 8192 * j + 8192 /\ (o - start) mod 8192 < 8092 /\
      exists lit, In (k, lit) Database.patterns /\ occurs_at lit file (Z.to_nat o)).
    { intros k o. rewrite Hin. split.
      - intros (Ho & Hl). rewrite (window_phase start j o) by lia.
        repeat split; try lia. exact Hl.
      - intros (Ho & Hm & Hl). rewrite (window_phase start j o) in Hm by lia.
        split; [lia|exact Hl]. }
    destruct (100000 <? start + 8192 * j + 8192 - start) eqn:E.
    + apply Z.ltb_lt in E. exists here. split; [reflexivity|].
      intros k o. rewrite Hhere.
      replace (start + 8192 * W) with (start + 8192 * j + 8192) by lia. reflexivity.
    + apply Z.ltb_ge in E.
      replace (start + 8192 * j + 8192) with (start + 8192 * (j + 1)) by lia.
      destruct (IH fuel file (stored (fread file (start + 8192 * j) 8192) buffer) start
                   (j + 1) W (printed ++ here)) as (l & Hl & Hlin); try lia.
      { apply len_stored; lia. }
      exists (here ++ l). split; [now rewrite Hl, app_assoc|].
      intros k o. rewrite in_app_iff, Hhere, Hlin. split.
      * intros [(Ho & Hr)|(Ho & Hr)]; (split; [lia|exact Hr]).
      * intros (Ho & Hr).
        destruct (Z.lt_ge_cases o (start + 8192 * (j + 1))).
        -- left. split; [lia|exact Hr].
        -- right. split; [lia|exact Hr].
Qed.

(** X15 ([find_database_files]): when the bytes behind [start_offset] fill
    whole windows of 8192 bytes, or at least thirteen of them, the search
    prints exactly the occurrences of the four literals (["Controller"]
    behind the bytes 0x0A 0x00) in the first 106496 bytes behind
    [start_offset], outside the last 100 bytes of each window. *)
Theorem database_search_on_whole_windows (file : list byte) (start_offset : Z) :
  0 <= start_offset <= len file ->
  (len file - start_offset) mod 8192 = 0 \/ 106496 <= len file - start_offset ->
  exists l, Database.find_database_files file start_offset = Ret l /\
    forall k o, In (k, o) l <->
      start_offset <= o < start_offset + Z.min (len file - start_offset) 106496 /\
      (o - start_offset) mod 8192 < 8092 /\
      exists lit, In (k, lit) Database.patterns /\ occurs_at lit file (Z.to_nat o).
Proof.
  intros Hs Hsize. unfold Database.find_database_files.
  set (W := Z.min ((len file - start_offset) / 8192) 13).
  pose proof (Z.div_mod (len file - start_offset) 8192 ltac:(lia)) as Hdiv.
  pose proof (Z.mod_pos_bound (len file - start_offset) 8192 ltac:(lia)) as Hmod.
  assert (HW : 0 <= W <= 13).
  { subst W. pose proof (Z.div_pos (len file - start_offset) 8192). lia. }
  assert (Hmin : 8192 * W = Z.min (len file - start_offset) 106496) by (subst W; lia).
  destruct (windows_loop_whole (Z.to_nat W) (S (List.length file)) file
              (repeat None (Z.to_nat 8192)) start_offset 0 W [])
    as (l & Hl & Hin); try lia.
  { rewrite len_unwritten; lia. }
  { unfold len in *. lia. }
  rewrite Z.mul_0_r, Z.add_0_r in Hl, Hin. exists l. split; [exact Hl|].
  intros k o. rewrite Hin, <- Hmin. reflexivity.
Qed.

Lemma database_search_on_whole_windows_witness :
  exists l, Database.find_database_files Samples.one_window 0 = Ret l /\
    forall k o, In (k, o) l <->
      0 <= o < 0 + Z.min (len Samples.one_window - 0) 106496 /\
      (o - 0) mod 8192 < 8092 /\
      exists lit, In (k, lit) Database.patterns /\
                  occurs_at lit Samples.one_window (Z.to_nat o).
Proof.
  apply (database_search_on_whole_windows Samples.one_window 0).
  - split; [lia | apply Z.leb_le; vm_compute; reflexivity].
  - left. vm_compute. reflexivity.
Defined.

Lemma length_of_len {A : Type} (l : list A) (n : Z) :
  len l = n -> List.length l = Z.to_nat n.
Proof. unfold len. lia. Qed.

Lemma skipn_behind {A : Type} (l l' : list A) :
  len l' <= len l -> skipn (List.length l) l' = [].
Proof. unfold len. intros H. apply skipn_all2. lia. Qed.

(** The last, short read leaves the rest of the previous window in the
    array: the array is what a whole read of the padded file would give. *)
Lemma stored_last (file : list byte) (start q r : Z) :
  0 <= start -> 1 <= q -> 0 < r < 8192 -> len file = start + 8192 * q + r ->
  stored (fread (file ++ fread file (start + 8192 * (q - 1) + r) (8192 - r))
                (start + 8192 * q) 8192)
         (map Some (fread file (start + 8192 * (q - 1)) 8192))
  = stored (fread file (start + 8192 * q) 8192)
           (map Some (fread file (start + 8192 * (q - 1)) 8192)).
Proof.
  intros Hs Hq Hr Hfile.
  set (pad := fread file (start + 8192 * (q - 1) + r) (8192 - r)).
  assert (Hpad : len pad = 8192 - r).
  { unfold pad. rewrite fread_len by lia. lia. }
  assert (Hc1 : len (fread file (start + 8192 * q) 8192) = r).
  { rewrite fread_len by lia. lia. }
  assert (Hp : len (fread file (start + 8192 * (q - 1)) 8192) = 8192).
  { rewrite fread_len by lia. lia. }
  rewrite (fread_app_tail file pad (start + 8192 * q) 8192) by lia.
  rewrite !stored_over.
  rewrite skipn_behind by (rewrite len_app; lia).
  rewrite !app_nil_r.
  rewrite (length_of_len _ _ Hc1).
  rewrite fread_skipn by lia. reflexivity.
Qed.

Lemma windows_loop_padded (d : nat) :
  forall fuel1 fuel2 file buffer start j q r printed,
    0 <= start -> 0 <= j -> Z.of_nat d = q - j -> 1 <= q -> 0 < r < 8192 ->
    len file = start + 8192 * q + r ->
    len buffer <= 8192 ->
    (1 <= j -> buffer = map Some (fread file (start + 8192 * (j - 1)) 8192)) ->
    (d + 2 <= fuel1)%nat -> (d + 2 <= fuel2)%nat ->
    Database.windows_loop fuel1 file (start + 8192 * j) buffer start (start + 8192 * j)
                          printed
    = Database.windows_loop fuel2
        (file ++ fread file (start + 8192 * (q - 1) + r) (8192 - r))
        (start + 8192 * j) buffer start (start + 8192 * j) printed.
Proof.
  induction d as [|d IH]; intros fuel1 fuel2 file buffer start j q r printed
    Hs Hj Hd Hq Hr Hfile Hb Hprev Hf1 Hf2.
  - assert (j = q) by lia. subst j. rewrite Hprev by lia.
    destruct fuel1 as [|[|fuel1]]; [lia|lia|]. destruct fuel2 as [|[|fuel2]]; [lia|lia|].
    rewrite (windows_loop_step (S fuel1)), (windows_loop_step (S fuel2)).
    rewrite stored_last by assumption.
    set (pad := fread file (start + 8192 * (q - 1) + r) (8192 - r)).
    assert (Hpad : len pad = 8192 - r).
    { unfold pad. rewrite fread_len by lia. lia. }
    assert (Hc1 : len (fread file (start + 8192 * q) 8192) = r).
    { rewrite fread_len by lia. lia. }
    assert (Hc2 : len (fread (file ++ pad) (start + 8192 * q) 8192) = 8192).
    { rewrite fread_len by lia. rewrite len_app. lia. }
    rewrite Hc1, Hc2.
    replace (0 <? r) with true by (symmetry; apply Z.ltb_lt; lia).
    change (0 <? 8192) with true. cbv iota.
    destruct (scan_literals Database.patterns _ (start + 8192 * q) 0 _) as [here| |];
      cbn [bind]; [|reflexivity|reflexivity].
    destruct (100000 <? start + 8192 * q + 8192 - start); [reflexivity|].
    rewrite !windows_loop_step.
    rewrite (fread_at_end file) by lia.
    rewrite (fread_at_end (file ++ pad)) by (rewrite ?len_app; lia).
    change (0 <? len (@nil byte)) with false. cbv iota. reflexivity.
  - destruct fuel1 as [|fuel1]; [lia|]. destruct fuel2 as [|fuel2]; [lia|].
    rewrite !windows_loop_step.
    set (pad := fread file (start + 8192 * (q - 1) + r) (8192 - r)).
    rewrite (fread_app_inside file pad (start + 8192 * j) 8192) by lia.
    pose proof (fread_whole file (start + 8192 * j) 8192 ltac:(lia) ltac:(lia) ltac:(lia))
      as Hlen.
    rewrite Hlen. change (0 <? 8192) with true. cbv iota.
    destruct (scan_literals Database.patterns _ (start + 8192 * j) 0 _) as [here| |];
      cbn [bind]; [|reflexivity|reflexivity].
    destruct (100000 <? start + 8192 * j + 8192 - start); [reflexivity|].
    replace (start + 8192 * j + 8192) with (start + 8192 * (j + 1)) by lia.
    apply (IH fuel1 fuel2 file _ start (j + 1) q r); try lia.
    + apply len_stored; lia.
    + intros _. rewrite stored_whole by lia.
      rewrite app_nil_r. replace (j + 1 - 1) with j by lia. reflexivity.
Qed.

(** X16 ([find_database_files]): the array is not cleared between two reads.
    When the last read is short (it brings [r] bytes, after [q >= 1] whole
    windows), the bytes of the previous window from index [r] on are still
    in the array and are scanned again: the search prints what it would
    print on the file followed by these stale bytes, so a literal of the
    previous window is printed a second time, 8192 higher, at an offset
    beyond the end of the file. *)
Theorem database_search_rescans_stale_bytes (file : list byte) (start_offset q r : Z) :
  0 <= start_offset -> 1 <= q -> 0 < r < 8192 ->
  len file = start_offset + 8192 * q + r ->
  let stale := fread file (start_offset + 8192 * (q - 1) + r) (8192 - r) in
  exists l, Database.find_database_files file start_offset = Ret l /\
    forall k o, In (k, o) l <->
      start_offset <= o < start_offset + Z.min (8192 * (q + 1)) 106496 /\
      (o - start_offset) mod 8192 < 8092 /\
      exists lit, In (k, lit) Database.patterns /\
                  occurs_at lit (file ++ stale) (Z.to_nat o).
Proof.
  intros Hs Hq Hr Hfile stale. unfold Database.find_database_files.
  assert (Hstale : len stale = 8192 - r).
  { unfold stale. rewrite fread_len by lia. lia. }
  pose proof (windows_loop_padded (Z.to_nat q) (S (List.length file))
                (S (S (Z.to_nat q))) file (repeat None (Z.to_nat 8192))
                start_offset 0 q r []) as Hpad.
  rewrite Z.mul_0_r, Z.add_0_r in Hpad. fold stale in Hpad.
  rewrite Hpad; try lia.
  2:{ rewrite len_unwritten; lia. }
  2:{ unfold len in Hfile. lia. }
  destruct (windows_loop_whole (Z.to_nat (Z.min (q + 1) 13))
              (S (S (Z.to_nat q))) (file ++ stale)
              (repeat None (Z.to_nat 8192)) start_offset 0 (Z.min (q + 1) 13) [])
    as (l & Hl & Hin); try lia.
  { rewrite len_app. lia. }
  { rewrite len_app. lia. }
  { rewrite len_unwritten; lia. }
  rewrite Z.mul_0_r, Z.add_0_r in Hl, Hin. exists l. split; [exact Hl|].
  intros k o. rewrite Hin.
  replace (8192 * Z.min (q + 1) 13) with (Z.min (8192 * (q + 1)) 106496) by lia.
  reflexivity.
Qed.

Lemma database_search_rescans_stale_bytes_witness :
  len Samples.short_tail = 8242 /\
  exists l, Database.find_database_files Samples.short_tail 0 = Ret l /\
            In (Database.Program, 8292) l.
Proof.
  split; [vm_compute; reflexivity|].
  destruct (database_search_rescans_stale_bytes Samples.short_tail 0 1 50)
    as (l & Hl & Hin); [lia | lia | lia | vm_compute; reflexivity |].
  exists l. split; [exact Hl|]. apply Hin.
  split; [lia|]. split; [vm_compute; reflexivity|].
  exists (bytes "Program").
  split; [right; left; reflexivity | vm_compute; reflexivity].
Defined.

(** X17 ([find_database_files]): each read is followed by a scan of 8092
    positions of the array, however few bytes the read brought; with 1 to
    8091 bytes behind [start_offset] the first scan compares bytes that
    were never written, so what is printed is not determined by the
    file. *)
Theorem database_search_short_region_undefined (file : list byte) (start_offset : Z) :
  0 <= start_offset -> 0 < len file - start_offset < 8092 ->
  Database.find_database_files file start_offset = Undef.
Proof.
  intros Hs Hsize. unfold Database.find_database_files. rewrite windows_loop_step.
  pose proof (fread_len file start_offset 8192 Hs ltac:(lia)) as Hlen.
  replace (0 <? len (fread file start_offset 8192)) with true
    by (symmetry; apply Z.ltb_lt; lia).
  destruct (stored_unwritten (fread file start_offset 8192) 8192) as (rest & ->); [lia|].
  rewrite scan_literals_short; [reflexivity| |lia].
  now exists Database.Controller, x0a, (x00 :: bytes "Controller"), (tl Database.patterns).
Qed.

Lemma database_search_short_region_undefined_witness :
  Database.find_database_files (Samples.filler 100) 0 = Undef.
Proof.
  apply (database_search_short_region_undefined (Samples.filler 100) 0).
  - lia.
  - split; vm_compute; reflexivity.
Defined.

(** X19 ([main] of acd_extractor.c): on every file of 1 to 8091 bytes the
    run of the extractor ends in the search for database structures over
    array bytes that were never written: the last part of its report is not
    determined by the file. *)
Theorem extractor_run_on_small_file_undefined (w : Extractor.world) (file : list byte) :
  0 < len file < 8092 -> Database.run w file = Undef.
Proof.
  intros Hsize. unfold Database.run.
  destruct (extractor_main_total w file ltac:(lia)) as (v & st & Hmain).
  rewrite Hmain. cbn [bind].
  assert (Hv : v = 0 \/ 0 <= v < len file).
  { unfold Extractor.main in Hmain.
    apply bind_ret_inv in Hmain as (v' & Hv' & Hmain).
    apply bind_ret_inv in Hmain as (st' & _ & Hmain). injection Hmain as <- _.
    unfold Extractor.find_binary_start in Hv'.
    apply binary_start_loop_bound in Hv'; lia. }
  unfold Database.find_database_files. rewrite windows_loop_step.
  pose proof (fread_len file v 8192 ltac:(lia) ltac:(lia)) as Hlen.
  replace (0 <? len (fread file v 8192)) with true by (symmetry; apply Z.ltb_lt; lia).
  destruct (stored_unwritten (fread file v 8192) 8192) as (rest & ->); [lia|].
  rewrite scan_literals_short; [reflexivity| |lia].
  now exists Database.Controller, x0a, (x00 :: bytes "Controller"), (tl Database.patterns).
Qed.

Lemma extractor_run_on_small_file_undefined_witness :
  Database.run Vectors.good_world Vectors.two_magic_file = Undef.
Proof.
  apply (extractor_run_on_small_file_undefined Vectors.good_world Vectors.two_magic_file).
  split; vm_compute; reflexivity.
Defined.

(** ** The exporter *)

Lemma comments_loop_firstn (at_i : list Comps.Component) :
  forall i, 0 <= i ->
    Exporter.comments_loop at_i i
    = Exporter.comments_loop (firstn (Z.to_nat (20 - i)) at_i) i.
Proof.
  induction at_i as [|c next IH]; intros i Hi.
  - now rewrite firstn_nil.
  - cbn [Exporter.comments_loop]. destruct (i <? 20) eqn:E.
    + apply Z.ltb_lt in E.
      replace (Z.to_nat (20 - i)) with (S (Z.to_nat (20 - (i + 1)))) by lia.
      cbn [firstn Exporter.comments_loop].
      replace (i <? 20) with true by (symmetry; apply Z.ltb_lt; lia).
      now rewrite <- IH by lia.
    + apply Z.ltb_ge in E. replace (Z.to_nat (20 - i)) with 0%nat by lia. reflexivity.
Qed.

Lemma rungs_loop_firstn (at_i : list Comps.Component) :
  forall i, 0 <= i ->
    Exporter.rungs_loop at_i i = Exporter.rungs_loop (firstn (Z.to_nat (5 - i)) at_i) i.
Proof.
  induction at_i as [|c next IH]; intros i Hi.
  - now rewrite firstn_nil.
  - cbn [Exporter.rungs_loop]. destruct (i <? 5) eqn:E.
    + apply Z.ltb_lt in E.
      replace (Z.to_nat (5 - i)) with (S (Z.to_nat (5 - (i + 1)))) by lia.
      cbn [firstn Exporter.rungs_loop].
      replace (i <? 5) with true by (symmetry; apply Z.ltb_lt; lia).
      now rewrite <- IH by lia.
    + apply Z.ltb_ge in E. replace (Z.to_nat (5 - i)) with 0%nat by lia. reflexivity.
Qed.

(** X18 ([generate_detailed_l5x]): the file written depends on the first
    twenty stored components only (their [uid] and the bytes of [name] up
    to its first NUL); components stored behind them never reach the L5X
    file. *)
Theorem export_keeps_the_first_twenty_components (fopen_ok : bool)
  (st st' : Comps.storage) :
  firstn 20 st = firstn 20 st' ->
  Exporter.generate_detailed_l5x fopen_ok st = Exporter.generate_detailed_l5x fopen_ok st'.
Proof.
  intros H. unfold Exporter.generate_detailed_l5x.
  destruct (negb fopen_ok); [reflexivity|].
  rewrite (comments_loop_firstn st 0), (comments_loop_firstn st' 0) by lia.
  rewrite (rungs_loop_firstn st 0), (rungs_loop_firstn st' 0) by lia.
  change (Z.to_nat (20 - 0)) with 20%nat. change (Z.to_nat (5 - 0)) with 5%nat.
  assert (H5 : firstn 5 st = firstn 5 st').
  { change 5%nat with (Init.Nat.min 5 20).
    now rewrite <- !firstn_firstn, H. }
  now rewrite H, H5.
Qed.

Lemma export_keeps_the_first_twenty_components_witness :
  Exporter.generate_detailed_l5x true Samples.full_storage
  = Exporter.generate_detailed_l5x true (repeat Recovery.xvalve 20).
Proof.
  apply (export_keeps_the_first_twenty_components true Samples.full_storage
           (repeat Recovery.xvalve 20)).
  reflexivity.
Defined.
